(** * HackScript v2: tokenizer, parser, type checker and tree-walking evaluator

    A shallow embedding of [src/language/HackScriptLanguageV2.ts]
    ([HackScriptTypeSystem], [HackScriptParser]) and of the interpreter class
    [HackScriptInterpreterV2].

    Conventions of the embedding.
    - Source text and tokens are [string]s whose characters are read as
      UTF-16 code units below 256.
    - JavaScript numbers are IEEE-754 doubles: [float] with the primitive
      operations of [PrimFloat].
    - The scope chain ([ExecutionContext.parent]) is a list of contexts,
      innermost first; the two [Map]s of a context are [gmap]s.
    - Recursive descent and evaluation may not terminate, so both take fuel.
      For [execute] the call stack of the runtime is taken to be unbounded,
      so a recursion that JavaScript would end with a stack overflow has no
      answer there; [executeWithin] is the same function on a stack of a
      given depth, where such a recursion ends with the error the runtime
      throws.
    - A plain object is the list of its own properties, in the order in
      which they were first assigned.
    - What the interpreter leaves to the JavaScript runtime and is not fixed
      by the repository (coercions between operand types, [String(number)],
      [JSON.stringify], [parseInt], [parseFloat], inherited properties,
      assignments under a replaced prototype) is a parameter: the record
      [Host], whose operations return a result or the error they throw. *)

From Stdlib Require Import ZArith Floats Ascii String List Lia.
From stdpp Require Import gmap strings list.

Set Warnings "-register-all,-inexact-float".
Local Open Scope string_scope.
Local Open Scope list_scope.

(** ** Strings as the code uses them *)

Module Str.

Definition dquote : string := String (ascii_of_nat 34) "".
Definition squote : string := String (ascii_of_nat 39) "".

Fixpoint span (p : ascii -> bool) (s : string) : string * string :=
  match s with
  | String c r =>
      if p c then let '(a, b) := span p r in (String c a, b) else ("", s)
  | "" => ("", "")
  end.

Fixpoint skip (n : nat) (s : string) : string :=
  match n, s with
  | S m, String _ r => skip m r
  | _, _ => s
  end.

Fixpoint all (p : ascii -> bool) (s : string) : bool :=
  match s with
  | String c r => p c && all p r
  | "" => true
  end.

(** [s.startsWith(p)] *)
Fixpoint startsWith (p s : string) : bool :=
  match p with
  | "" => true
  | String a p' =>
      match s with
      | String b s' => Ascii.eqb a b && startsWith p' s'
      | "" => false
      end
  end.

Definition nonempty (s : string) : bool :=
  match s with "" => false | _ => true end.

(** [Array.prototype.join] on strings. *)
Fixpoint join (sep : string) (l : list string) : string :=
  match l with
  | [] => ""
  | [x] => x
  | x :: r => x +:+ sep +:+ join sep r
  end.

(** [s.includes(c)] for a one-character needle. *)
Fixpoint includes (c : ascii) (s : string) : bool :=
  match s with
  | String d r => Ascii.eqb c d || includes c r
  | "" => false
  end.

(** [s.replace(c, '')]: the first occurrence only. *)
Fixpoint remove_first (c : ascii) (s : string) : string :=
  match s with
  | String d r => if Ascii.eqb c d then r else String d (remove_first c r)
  | "" => ""
  end.

(** [l.includes(x)] on a list of strings. *)
Definition mem (x : string) (l : list string) : bool :=
  existsb (String.eqb x) l.

End Str.

Arguments Str.skip : simpl never.

(** ** Character classes of the regular expressions *)

Module Re.

Local Open Scope nat_scope.

Definition cu (c : ascii) : nat := nat_of_ascii c.

(** [\s]: TAB, LF, VT, FF, CR, space and U+00A0. *)
Definition is_space (c : ascii) : bool :=
  ((9 <=? cu c) && (cu c <=? 13)) || (cu c =? 32) || (cu c =? 160).

(** [\d] *)
Definition is_digit (c : ascii) : bool := (48 <=? cu c) && (cu c <=? 57).

(** [\w] *)
Definition is_word (c : ascii) : bool :=
  is_digit c
  || ((65 <=? cu c) && (cu c <=? 90))
  || ((97 <=? cu c) && (cu c <=? 122))
  || (cu c =? 95).

(** [a-zA-Z_] *)
Definition is_ident_start (c : ascii) : bool :=
  ((65 <=? cu c) && (cu c <=? 90))
  || ((97 <=? cu c) && (cu c <=? 122))
  || (cu c =? 95).

(** The characters [.] does not match. *)
Definition is_line_terminator (c : ascii) : bool :=
  (cu c =? 10) || (cu c =? 13).

(** [/^\s+$/] *)
Definition all_space (t : string) : bool :=
  Str.nonempty t && Str.all is_space t.

(** [/^\d+\.?\d*$/] *)
Definition is_number_token (t : string) : bool :=
  let '(d, r) := Str.span is_digit t in
  Str.nonempty d
  && match r with
     | String c r' => Ascii.eqb c "." && Str.all is_digit r'
     | "" => true
     end.

(** [/^[a-zA-Z_][a-zA-Z0-9_]*$/] *)
Definition is_identifier_token (t : string) : bool :=
  match t with
  | String c r => is_ident_start c && Str.all is_word r
  | "" => false
  end.

End Re.

(** ** [HackScriptTypeSystem] *)

Inductive TypeInfo : Type :=
  mkTypeInfo {
    ty_name : string;
    ty_primitive : bool;
    ty_nullable : bool;
    ty_genericParams : option (list TypeInfo)
  }.

Record CompileError : Type :=
  mkCompileError {
    ce_line : nat;
    ce_column : nat;
    ce_message : string;
    ce_severity : string
  }.

Module HackScriptTypeSystem.

Definition prim (n : string) : TypeInfo := mkTypeInfo n true false None.

Definition primitiveTypes : list (string * TypeInfo) :=
  [ ("int", prim "int"); ("float", prim "float"); ("string", prim "string");
    ("bool", prim "bool"); ("char", prim "char"); ("void", prim "void") ].

Definition getPrimitiveType (n : string) : option TypeInfo :=
  snd <$> List.find (fun p => String.eqb (fst p) n) primitiveTypes.

Definition isAssignable (from to : TypeInfo) : bool :=
  if String.eqb (ty_name from) (ty_name to) then true
  else if String.eqb (ty_name from) "int" && String.eqb (ty_name to) "float"
  then true
  else if ty_nullable to && negb (ty_nullable from) then true
  else false.

Definition createArrayType (elementType : TypeInfo) : TypeInfo :=
  mkTypeInfo ("Array<" +:+ ty_name elementType +:+ ">") false false
    (Some [elementType]).

Definition createNullableType (baseType : TypeInfo) : TypeInfo :=
  mkTypeInfo (ty_name baseType +:+ "?") (ty_primitive baseType) true
    (ty_genericParams baseType).

End HackScriptTypeSystem.

(** ** The tokenizer: [HackScriptParser.tokenize] *)

Module Tokenizer.

(** [==|!=|<=|>=|&&|\|\||::|->], in the order of the alternation. *)
Definition two_char_operators : list string :=
  ["=="; "!="; "<="; ">="; "&&"; "||"; "::"; "->"].

(** The single-character alternatives, in the order of the alternation;
    the last two are the double and the single quote. *)
Definition one_char_tokens : list string :=
  ["="; "<"; ">"; "+"; "-"; "*"; "/"; "%"; "("; ")"; "{"; "}"; "["; "]";
   ";"; ","; ":"; Str.dquote; Str.squote].

Definition first_prefix (alts : list string) (s : string) : option string :=
  List.find (fun a => Str.startsWith a s) alts.

(** [[\s\S]*?\*\/]: the shortest text that ends in the first [*/]. *)
Fixpoint block_comment_tail (s : string) : option (string * string) :=
  match s with
  | "" => None
  | String c r =>
      if Ascii.eqb c "*" && Str.startsWith "/" r
      then Some ("*/", Str.skip 1 r)
      else match block_comment_tail r with
           | Some (b, rest) => Some (String c b, rest)
           | None => None
           end
  end.

(** One match of [tokenRegex] anchored at the start of [s]: the first
    alternative that matches, as the token and the remaining text. *)
Definition match_token (s : string) : option (string * string) :=
  let '(ws, after_ws) := Str.span Re.is_space s in
  if Str.nonempty ws then Some (ws, after_ws)
  else if Str.startsWith "//" s then
    let '(body, rest) :=
      Str.span (fun c => negb (Re.is_line_terminator c)) (Str.skip 2 s) in
    Some ("//" +:+ body, rest)
  else
    match (if Str.startsWith "/*" s then block_comment_tail (Str.skip 2 s)
           else None) with
    | Some (b, rest) => Some ("/*" +:+ b, rest)
    | None =>
        match first_prefix (two_char_operators ++ one_char_tokens) s with
        | Some op => Some (op, Str.skip (String.length op) s)
        | None =>
            let '(w, after_w) := Str.span Re.is_word s in
            if Str.nonempty w then Some (w, after_w)
            else
              let '(d, after_d) := Str.span Re.is_digit s in
              if Str.nonempty d then
                match after_d with
                | String c r =>
                    if Ascii.eqb c "." then
                      let '(d2, rest) := Str.span Re.is_digit r in
                      Some (d +:+ "." +:+ d2, rest)
                    else Some (d, after_d)
                | "" => Some (d, after_d)
                end
              else
                match s with
                | String c r =>
                    if Re.is_line_terminator c then None
                    else Some (String c "", r)
                | "" => None
                end
        end
    end.

(** [code.match(tokenRegex)] with the [g] flag: every match, left to
    right; a position where nothing matches is skipped. *)
Fixpoint match_all (fuel : nat) (s : string) : list string :=
  match fuel with
  | 0 => []
  | S f =>
      match s with
      | "" => []
      | String _ r =>
          match match_token s with
          | Some (t, rest) => t :: match_all f rest
          | None => match_all f r
          end
      end
  end.

(** The filter: [!t.match(/^\s+$/) && !t.match(/^\/\//)]. *)
Definition keep_token (t : string) : bool :=
  negb (Re.all_space t) && negb (Str.startsWith "//" t).

Definition tokenize (code : string) : list string :=
  List.filter keep_token (match_all (String.length code) code).

End Tokenizer.

(** ** Numbers *)

Module Num.

(** The double nearest to an integer (exact below 2^53). *)
Definition of_Z (z : Z) : float := SF2Prim (binary_normalize prec emax z 0 false).

Definition of_nat (n : nat) : float := of_Z (Z.of_nat n).

Definition digit_value (c : ascii) : Z := Z.of_nat (nat_of_ascii c) - 48.

Fixpoint digits_value (acc : Z) (s : string) : Z :=
  match s with
  | String c r => digits_value (10 * acc + digit_value c) r
  | "" => acc
  end.

(** [parseInt(token)] on a token made of decimal digits: the integer
    written, rounded to the nearest double. *)
Definition parseInt_digits (token : string) : float := of_Z (digits_value 0 token).

(** The integer a number denotes, when it denotes one
    ([Number.isInteger]); [-0] denotes 0. *)
Definition to_Z (x : float) : option Z :=
  match Prim2SF x with
  | S754_zero _ => Some 0%Z
  | S754_finite s m e =>
      let v := if s then Z.neg m else Z.pos m in
      if (0 <=? e)%Z then Some (v * 2 ^ e)%Z
      else if (Z.pos m mod 2 ^ (- e) =? 0)%Z then Some (v / 2 ^ (- e))%Z
      else None
  | _ => None
  end.

Definition isInteger (x : float) : bool :=
  match to_Z x with Some _ => true | None => false end.

Definition isNaN (x : float) : bool :=
  match Prim2SF x with S754_nan => true | _ => false end.

(** The exact comparison of a number with an integer; [None] for NaN. *)
Definition compare_Z (x : float) (n : Z) : option comparison :=
  match Prim2SF x with
  | S754_nan => None
  | S754_infinity s => Some (if s then Lt else Gt)
  | S754_zero _ => Some (0 ?= n)%Z
  | S754_finite s m e =>
      let v := if s then Z.neg m else Z.pos m in
      Some (if (0 <=? e)%Z then (v * 2 ^ e ?= n)%Z
            else (v ?= n * 2 ^ (- e))%Z)
  end.

(** [x < n] and [x >= n] against an integer [n] that a double holds
    exactly, such as an array length. *)
Definition lt_Z (x : float) (n : Z) : bool :=
  match compare_Z x n with Some Lt => true | _ => false end.

Definition ge_Z (x : float) (n : Z) : bool :=
  match compare_Z x n with Some Gt | Some Eq => true | _ => false end.

End Num.

(** ** The syntax tree built by the parser *)

Inductive expr : Type :=
| NumberLiteral (value : float) (numberType : string)
| StringLiteral (value : string)
| BooleanLiteral (value : bool)
| NullLiteral
| ArrayLiteral (elements : list expr)
| ObjectLiteral (properties : list (string * expr))
| Identifier (name : string)
| BinaryExpression (operator : string) (left right : expr)
| UnaryExpression (operator : string) (operand : expr)
| AssignmentExpression (left right : expr)
| FunctionCall (callee : expr) (arguments : list expr)
| ArrayAccess (object index : expr)
| PropertyAccess (object : expr) (property : string).

Record Param : Type :=
  mkParam {
    param_name : string;
    param_type : TypeInfo;
    param_defaultValue : option expr
  }.

Inductive stmt : Type :=
| VariableDeclaration (keyword name : string) (typeAnnotation : TypeInfo)
    (initializer : option expr) (mutable : bool)
| FunctionDeclaration (name : string) (params : list Param)
    (returnType : TypeInfo) (body : stmt)
| IfStatement (condition : expr) (consequent : stmt) (alternate : option stmt)
| ForStatement (init : stmt) (condition update : expr) (body : stmt)
| WhileStatement (condition : expr) (body : stmt)
| ReturnStatement (value : option expr)
| BlockStatement (body : list stmt)
| ExpressionStatement (expression : expr).

Inductive program : Type :=
| Program (body : list stmt).

(** ** Runtime values and the JavaScript host *)

(** Arrays and objects carry the identity of their allocation, which is what
    [===] compares.  [VNative] stands for an object of the runtime that no
    HackScript literal builds (a method found on a prototype, say). *)
Inductive value : Type :=
| VUndefined
| VNull
| VBoolean (b : bool)
| VNumber (n : float)
| VString (s : string)
| VArray (id : nat) (items : list value)
| VObject (id : nat) (props : list (string * value))
| VNative (id : string).

(** What the interpreter takes from the JavaScript runtime without fixing
    it.  An operation that can throw answers with its result on the left or
    with the message of the error it throws on the right: operators on
    operands the embedding does not compute itself, [JSON.stringify] and
    [String] on objects (a string, or [undefined] when [JSON.stringify] has
    nothing to write), the conversion to a string of an argument that is not
    a string, properties that are not own properties (a getter may throw),
    and the assignment [obj[key] = v] to an object whose prototype an
    earlier assignment to [__proto__] has replaced by another object (it
    answers with the prototype and the own properties afterwards).  [%],
    [String(n)] on a number and the global [parseInt] and [parseFloat] on a
    string throw nothing. *)
Record Host : Type :=
  mkHost {
    host_binary : string -> value -> value -> value + string;
    host_negate : value -> value + string;
    host_remainder : float -> float -> float;
    host_numberToString : float -> string;
    host_stringify : value -> option string + string;
    host_toString : value -> string + string;
    host_parseInt : string -> float;
    host_parseFloat : string -> float;
    host_get : value -> string -> value + string;
    host_assign :
      value -> list (string * value) -> string -> value
      -> (option value * list (string * value)) + string
  }.

(** ** The parser: [HackScriptParser] *)

Module Parser.

(** A parser step from a position: a result and the new position, an
    [Error] thrown at a position, or no answer within the fuel. *)
Inductive result (A : Type) : Type :=
| Ok (a : A) (pos : nat)
| Thrown (msg : string) (pos : nat)
| Timeout.
Arguments Ok {A} a pos.
Arguments Thrown {A} msg pos.
Arguments Timeout {A}.

Definition M (A : Type) : Type := nat -> result A.

Definition ret {A} (a : A) : M A := fun pos => Ok a pos.
Definition throw {A} (msg : string) : M A := fun pos => Thrown msg pos.
Definition timeout {A} : M A := fun _ => Timeout.
Definition bind {A B} (m : M A) (k : A -> M B) : M B :=
  fun pos =>
    match m pos with
    | Ok a pos' => k a pos'
    | Thrown msg pos' => Thrown msg pos'
    | Timeout => Timeout
    end.

Notation "'do' x <- m ; k" := (bind m (fun x => k))
  (at level 10, x name, m at level 100, k at level 200,
   format "'[v' 'do'  x  <-  m ; '/' k ']'").

Definition when (b : bool) (m : M string) : M unit :=
  if b then (do _ <- m; ret tt) else ret tt.

Section Grammar.

Variable host : Host.
Variable tokens : list string.

Definition currentToken : M string := fun pos => Ok (nth pos tokens "") pos.

Definition consume : M string := fun pos => Ok (nth pos tokens "") (S pos).

Definition expect (expected : string) : M unit :=
  do token <- consume;
  if String.eqb token expected then ret tt
  else throw ("Expected '" +:+ expected +:+ "', got '" +:+ token +:+ "'").

Definition atEnd : M bool := fun pos => Ok (negb (pos <? length tokens)%nat) pos.

(** *** Types *)

Section TypeLoop.
Variable parseType' : M TypeInfo.

(** The [do ... while (currentToken() !== '>')] of [parseType]. *)
Fixpoint genericParams_loop (n : nat) (genericParams : list TypeInfo)
  : M (list TypeInfo) :=
  match n with
  | 0 => timeout
  | S n' =>
      do p <- parseType';
      do t <- currentToken;
      do _ <- when (String.eqb t ",") consume;
      do t' <- currentToken;
      if String.eqb t' ">" then ret (genericParams ++ [p])
      else genericParams_loop n' (genericParams ++ [p])
  end.
End TypeLoop.

Fixpoint parseType (fuel : nat) : M TypeInfo :=
  match fuel with
  | 0 => timeout
  | S f =>
      do baseType <- consume;
      do t <- currentToken;
      if String.eqb t "<" then
        do _ <- consume;
        do genericParams <- genericParams_loop (parseType f) f [];
        do _ <- expect ">";
        ret (mkTypeInfo
               (baseType +:+ "<"
                +:+ Str.join ", " (map ty_name genericParams) +:+ ">")
               false false (Some genericParams))
      else
        let nullable := String.eqb t "?" in
        do _ <- when nullable consume;
        let baseType := if nullable then baseType +:+ "?" else baseType in
        ret (mkTypeInfo baseType
               (match HackScriptTypeSystem.getPrimitiveType
                        (Str.remove_first "?" baseType) with
                | Some _ => true
                | None => false
                end)
               nullable None)
  end.

(** *** Expressions *)

Definition parseNumberLiteral : M expr :=
  do token <- consume;
  let isFloat := Str.includes "." token in
  ret (NumberLiteral
         (if isFloat then host_parseFloat host token
          else Num.parseInt_digits token)
         (if isFloat then "float" else "int")).

Definition parseBooleanLiteral : M expr :=
  do token <- consume;
  ret (BooleanLiteral (String.eqb token "true")).

Definition parseIdentifier : M expr :=
  do name <- consume;
  ret (Identifier name).

Fixpoint stringLiteral_loop (n : nat) (quote value : string) : M string :=
  match n with
  | 0 => timeout
  | S n' =>
      do t <- currentToken;
      if String.eqb t quote then ret value
      else (do piece <- consume;
            stringLiteral_loop n' quote (value +:+ piece))
  end.

Definition parseStringLiteral (n : nat) : M expr :=
  do quote <- consume;
  do value <- stringLiteral_loop n quote "";
  do _ <- expect quote;
  ret (StringLiteral value).

Section Expressions.
(** The recursive call to [parseExpression]. *)
Variable parseExpression' : M expr.

(** The loop shared by [parseArgumentList] and [parseArrayLiteral]:
    [while (currentToken() !== close)]. *)
Fixpoint expressionList_loop (n : nat) (close : string) (acc : list expr)
  : M (list expr) :=
  match n with
  | 0 => timeout
  | S n' =>
      do t <- currentToken;
      if String.eqb t close then ret acc
      else
        do e <- parseExpression';
        do t' <- currentToken;
        do _ <- when (String.eqb t' ",") consume;
        expressionList_loop n' close (acc ++ [e])
  end.

Definition parseArgumentList (n : nat) : M (list expr) :=
  expressionList_loop n ")" [].

Definition parseArrayLiteral (n : nat) : M expr :=
  do _ <- consume;
  do elements <- expressionList_loop n "]" [];
  do _ <- expect "]";
  ret (ArrayLiteral elements).

Fixpoint properties_loop (n : nat) (acc : list (string * expr))
  : M (list (string * expr)) :=
  match n with
  | 0 => timeout
  | S n' =>
      do t <- currentToken;
      if String.eqb t "}" then ret acc
      else
        do key <- consume;
        do _ <- expect ":";
        do v <- parseExpression';
        do t' <- currentToken;
        do _ <- when (String.eqb t' ",") consume;
        properties_loop n' (acc ++ [(key, v)])
  end.

Definition parseObjectLiteral (n : nat) : M expr :=
  do _ <- consume;
  do properties <- properties_loop n [];
  do _ <- expect "}";
  ret (ObjectLiteral properties).

Definition parsePrimaryExpression (n : nat) : M expr :=
  do token <- currentToken;
  if String.eqb token "(" then
    do _ <- consume;
    do e <- parseExpression';
    do _ <- expect ")";
    ret e
  else if String.eqb token "[" then parseArrayLiteral n
  else if String.eqb token "{" then parseObjectLiteral n
  else if String.eqb token Str.dquote || String.eqb token Str.squote
  then parseStringLiteral n
  else if Re.is_number_token token then parseNumberLiteral
  else if String.eqb token "true" || String.eqb token "false"
  then parseBooleanLiteral
  else if String.eqb token "null" then (do _ <- consume; ret NullLiteral)
  else if Re.is_identifier_token token then parseIdentifier
  else throw ("Unexpected token: " +:+ token).

(** The [while (true)] of [parsePostfixExpression]. *)
Fixpoint postfix_loop (n : nat) (left : expr) : M expr :=
  match n with
  | 0 => timeout
  | S n' =>
      do t <- currentToken;
      if String.eqb t "[" then
        do _ <- consume;
        do index <- parseExpression';
        do _ <- expect "]";
        postfix_loop n' (ArrayAccess left index)
      else if String.eqb t "(" then
        do _ <- consume;
        do args <- parseArgumentList n';
        do _ <- expect ")";
        postfix_loop n' (FunctionCall left args)
      else if String.eqb t "." then
        do _ <- consume;
        do property <- consume;
        postfix_loop n' (PropertyAccess left property)
      else ret left
  end.

Definition parsePostfixExpression (n : nat) : M expr :=
  do left <- parsePrimaryExpression n;
  postfix_loop n left.

Fixpoint parseUnaryExpression (n : nat) : M expr :=
  match n with
  | 0 => timeout
  | S n' =>
      do t <- currentToken;
      if Str.mem t ["-"; "!"; "++"; "--"] then
        do operator <- consume;
        do operand <- parseUnaryExpression n';
        ret (UnaryExpression operator operand)
      else parsePostfixExpression n'
  end.

(** The loop of the six binary levels:
    [while (ops.includes(currentToken()))]. *)
Fixpoint binary_loop (operand : M expr) (ops : list string) (n : nat)
  (left : expr) : M expr :=
  match n with
  | 0 => timeout
  | S n' =>
      do t <- currentToken;
      if Str.mem t ops then
        do operator <- consume;
        do right <- operand;
        binary_loop operand ops n' (BinaryExpression operator left right)
      else ret left
  end.

Definition binary_level (operand : M expr) (ops : list string) (n : nat)
  : M expr :=
  do left <- operand;
  binary_loop operand ops n left.

Definition parseMultiplicativeExpression (n : nat) : M expr :=
  binary_level (parseUnaryExpression n) ["*"; "/"; "%"] n.

Definition parseAdditiveExpression (n : nat) : M expr :=
  binary_level (parseMultiplicativeExpression n) ["+"; "-"] n.

Definition parseRelationalExpression (n : nat) : M expr :=
  binary_level (parseAdditiveExpression n) ["<"; ">"; "<="; ">="] n.

Definition parseEqualityExpression (n : nat) : M expr :=
  binary_level (parseRelationalExpression n) ["=="; "!="] n.

Definition parseLogicalAndExpression (n : nat) : M expr :=
  binary_level (parseEqualityExpression n) ["&&"] n.

Definition parseLogicalOrExpression (n : nat) : M expr :=
  binary_level (parseLogicalAndExpression n) ["||"] n.

Fixpoint parseAssignmentExpression (n : nat) : M expr :=
  match n with
  | 0 => timeout
  | S n' =>
      do left <- parseLogicalOrExpression n';
      do t <- currentToken;
      if String.eqb t "=" then
        do _ <- consume;
        do right <- parseAssignmentExpression n';
        ret (AssignmentExpression left right)
      else ret left
  end.

End Expressions.

Fixpoint parseExpression (fuel : nat) : M expr :=
  match fuel with
  | 0 => timeout
  | S f => parseAssignmentExpression (parseExpression f) f
  end.

(** *** Statements *)

Definition parseVariableDeclaration (n : nat) : M stmt :=
  do keyword <- consume;
  do name <- consume;
  do _ <- expect ":";
  do type <- parseType n;
  do t <- currentToken;
  do initializer <-
    (if String.eqb t "=" then
       (do _ <- consume; do e <- parseExpression n; ret (Some e))
     else ret None);
  do _ <- expect ";";
  ret (VariableDeclaration keyword name type initializer
         (String.eqb keyword "let")).

(** The [while (currentToken() !== ')')] of [parseParameterList]. *)
Fixpoint parameterList_loop (fuel n : nat) (params : list Param)
  : M (list Param) :=
  match n with
  | 0 => timeout
  | S n' =>
      do t <- currentToken;
      if String.eqb t ")" then ret params
      else
        do name <- consume;
        do _ <- expect ":";
        do type <- parseType fuel;
        do t1 <- currentToken;
        do defaultValue <-
          (if String.eqb t1 "=" then
             (do _ <- consume; do e <- parseExpression fuel; ret (Some e))
           else ret None);
        do t2 <- currentToken;
        do _ <- when (String.eqb t2 ",") consume;
        parameterList_loop fuel n' (params ++ [mkParam name type defaultValue])
  end.

Definition parseParameterList (n : nat) : M (list Param) :=
  parameterList_loop n n [].

Definition parseReturnStatement (n : nat) : M stmt :=
  do _ <- consume;
  do t <- currentToken;
  do value <-
    (if negb (String.eqb t ";") then
       (do e <- parseExpression n; ret (Some e))
     else ret None);
  do _ <- expect ";";
  ret (ReturnStatement value).

Definition parseExpressionStatement (n : nat) : M stmt :=
  do expression <- parseExpression n;
  do _ <- expect ";";
  ret (ExpressionStatement expression).

Section Statements.
(** The recursive call to [parseStatement]. *)
Variable parseStatement' : M stmt.

(** [while (currentToken() !== '}' && position < tokens.length)] *)
Fixpoint blockStatement_loop (n : nat) (statements : list stmt)
  : M (list stmt) :=
  match n with
  | 0 => timeout
  | S n' =>
      do t <- currentToken;
      do fin <- atEnd;
      if negb (String.eqb t "}") && negb fin then
        do s <- parseStatement';
        blockStatement_loop n' (statements ++ [s])
      else ret statements
  end.

Definition parseBlockStatement (n : nat) : M stmt :=
  do statements <- blockStatement_loop n [];
  ret (BlockStatement statements).

Definition parseFunctionDeclaration (n : nat) : M stmt :=
  do _ <- consume;
  do name <- consume;
  do _ <- expect "(";
  do params <- parseParameterList n;
  do _ <- expect ")";
  do _ <- expect "->";
  do returnType <- parseType n;
  do _ <- expect "{";
  do body <- parseBlockStatement n;
  do _ <- expect "}";
  ret (FunctionDeclaration name params returnType body).

Fixpoint parseIfStatement (n : nat) : M stmt :=
  match n with
  | 0 => timeout
  | S n' =>
      do _ <- consume;
      do _ <- expect "(";
      do condition <- parseExpression n';
      do _ <- expect ")";
      do _ <- expect "{";
      do consequent <- parseBlockStatement n';
      do _ <- expect "}";
      do t <- currentToken;
      do alternate <-
        (if String.eqb t "else" then
           do _ <- consume;
           do t' <- currentToken;
           if String.eqb t' "if" then
             (do a <- parseIfStatement n'; ret (Some a))
           else
             (do _ <- expect "{";
              do a <- parseBlockStatement n';
              do _ <- expect "}";
              ret (Some a))
         else ret None);
      ret (IfStatement condition consequent alternate)
  end.

Definition parseForStatement (n : nat) : M stmt :=
  do _ <- consume;
  do _ <- expect "(";
  do init <- parseVariableDeclaration n;
  do condition <- parseExpression n;
  do _ <- expect ";";
  do update <- parseExpression n;
  do _ <- expect ")";
  do _ <- expect "{";
  do body <- parseBlockStatement n;
  do _ <- expect "}";
  ret (ForStatement init condition update body).

Definition parseWhileStatement (n : nat) : M stmt :=
  do _ <- consume;
  do _ <- expect "(";
  do condition <- parseExpression n;
  do _ <- expect ")";
  do _ <- expect "{";
  do body <- parseBlockStatement n;
  do _ <- expect "}";
  ret (WhileStatement condition body).

(** The body of [parseStatement]. *)
Definition parseStatement_body (n : nat) : M stmt :=
  do token <- currentToken;
  if String.eqb token "let" || String.eqb token "const"
  then parseVariableDeclaration n
  else if String.eqb token "func" then parseFunctionDeclaration n
  else if String.eqb token "if" then parseIfStatement n
  else if String.eqb token "for" then parseForStatement n
  else if String.eqb token "while" then parseWhileStatement n
  else if String.eqb token "return" then parseReturnStatement n
  else parseExpressionStatement n.

End Statements.

Fixpoint parseStatement (fuel : nat) : M stmt :=
  match fuel with
  | 0 => timeout
  | S f => parseStatement_body (parseStatement f) f
  end.

(** The loop of [parseProgram], with its [try]/[catch]: a thrown error
    is recorded with the position it was thrown at, and one token is
    skipped.  [None]: no answer within the fuel. *)
Fixpoint parseProgram_loop (fuel n : nat) (statements : list stmt)
  (errors : list CompileError) (pos : nat)
  : option (program * list CompileError) :=
  match n with
  | 0 => None
  | S n' =>
      if (pos <? length tokens)%nat then
        match parseStatement fuel pos with
        | Ok s pos' => parseProgram_loop fuel n' (statements ++ [s]) errors pos'
        | Thrown msg pos' =>
            parseProgram_loop fuel n' statements
              (errors ++ [mkCompileError 1 pos' msg "error"]) (S pos')
        | Timeout => None
        end
      else Some (Program statements, errors)
  end.

Definition parseProgram (fuel : nat) : option (program * list CompileError) :=
  parseProgram_loop fuel fuel [] [] 0.

End Grammar.

Definition parse (host : Host) (fuel : nat) (code : string)
  : option (program * list CompileError) :=
  parseProgram host (Tokenizer.tokenize code) fuel.

End Parser.

(** ** The JavaScript operations the evaluator relies on *)

Module JS.

(** [ToBoolean]: the truthiness of [!], [&&] and [||]. *)
Definition toBoolean (v : value) : bool :=
  match v with
  | VUndefined | VNull => false
  | VBoolean b => b
  | VNumber n => negb (PrimFloat.eqb n 0 || Num.isNaN n)
  | VString s => Str.nonempty s
  | VArray _ _ | VObject _ _ | VNative _ => true
  end.

(** [===] *)
Definition strictEquals (a b : value) : bool :=
  match a, b with
  | VUndefined, VUndefined => true
  | VNull, VNull => true
  | VBoolean x, VBoolean y => Bool.eqb x y
  | VNumber x, VNumber y => PrimFloat.eqb x y
  | VString x, VString y => String.eqb x y
  | VArray i _, VArray j _ => Nat.eqb i j
  | VObject i _, VObject j _ => Nat.eqb i j
  | VNative i, VNative j => String.eqb i j
  | _, _ => false
  end.

(** [obj[key] = v] where the assignment creates or updates an own
    property: own properties, in insertion order. *)
Fixpoint defineProperty (key : string) (v : value)
  (props : list (string * value)) : list (string * value) :=
  match props with
  | [] => [(key, v)]
  | (k, w) :: r =>
      if String.eqb k key then (k, v) :: r
      else (k, w) :: defineProperty key v r
  end.

(** The object of a literal while its properties are assigned: the
    prototype, when an assignment to [__proto__] has replaced
    [Object.prototype], and the own properties. *)
Definition building : Type := option value * list (string * value).

(** [{}] *)
Definition emptyObject : building := (None, []).

Definition getOwnProperty (key : string) (props : list (string * value))
  : option value :=
  snd <$> List.find (fun p => String.eqb (fst p) key) props.

(** [array[index]] for a number that passed the bounds check: the element
    when the number is an integer, and no such property otherwise. *)
Definition index (items : list value) (i : float) : value :=
  match Num.to_Z i with
  | Some z => nth (Z.to_nat z) items VUndefined
  | None => VUndefined
  end.

Section WithHost.

Variable host : Host.

(** [left + right] *)
Definition add (l r : value) : value + string :=
  match l, r with
  | VNumber x, VNumber y => inl (VNumber (PrimFloat.add x y))
  | VString a, VString b => inl (VString (a +:+ b))
  | _, _ => host_binary host "+" l r
  end.

(** [-], [*], [/] and [%] on two numbers; coercions are the host's. *)
Definition arith (op : string) (f : float -> float -> float) (l r : value)
  : value + string :=
  match l, r with
  | VNumber x, VNumber y => inl (VNumber (f x y))
  | _, _ => host_binary host op l r
  end.

(** [<], [>], [<=], [>=] on two numbers. *)
Definition relational (op : string) (f : float -> float -> bool)
  (l r : value) : value + string :=
  match l, r with
  | VNumber x, VNumber y => inl (VBoolean (f x y))
  | _, _ => host_binary host op l r
  end.

(** [-operand] *)
Definition negate (v : value) : value + string :=
  match v with
  | VNumber x => inl (VNumber (PrimFloat.opp x))
  | _ => host_negate host v
  end.

(** [object[property]] on a value that is neither null nor undefined: the
    value found, or the error a getter of the runtime throws. *)
Definition get (object : value) (property : string) : value + string :=
  match object with
  | VObject _ props =>
      match getOwnProperty property props with
      | Some v => inl v
      | None => host_get host object property
      end
  | VArray _ items =>
      if String.eqb property "length"
      then inl (VNumber (Num.of_nat (length items)))
      else host_get host object property
  | VString s =>
      if String.eqb property "length"
      then inl (VNumber (Num.of_nat (String.length s)))
      else host_get host object property
  | _ => host_get host object property
  end.

(** [obj[key] = v] on the object of a literal.  With [Object.prototype]
    as prototype, a key other than [__proto__] becomes an own property;
    [__proto__] is the accessor of [Object.prototype], whose setter adds no
    own property: it replaces the prototype when [v] is an object or null
    and does nothing otherwise.  With no prototype left (null) every key,
    [__proto__] too, becomes an own property.  With another object as
    prototype the outcome depends on that object and is the host's. *)
Definition setProperty (key : string) (v : value) (obj : building)
  : building + string :=
  match obj with
  | (None, props) =>
      if String.eqb key "__proto__" then
        match v with
        | VNull | VArray _ _ | VObject _ _ | VNative _ => inl (Some v, props)
        | _ => inl (None, props)
        end
      else inl (None, defineProperty key v props)
  | (Some VNull, props) => inl (Some VNull, defineProperty key v props)
  | (Some proto, props) => host_assign host proto props key v
  end.

(** The conversion to a string that [parseInt] and [parseFloat] apply to
    their argument. *)
Definition toString (v : value) : string + string :=
  match v with
  | VString s => inl s
  | _ => host_toString host v
  end.

End WithHost.

End JS.

(** ** The interpreter: [HackScriptInterpreterV2] *)

Module Interpreter.

(** *** Data *)

Record Binding : Type :=
  mkBinding {
    b_type : TypeInfo;
    b_value : value;
    b_mutable : bool
  }.

(** The host-implemented functions installed by [initializeBuiltins]. *)
Inductive builtin : Type :=
| impl_print | impl_println | impl_len | impl_type | impl_toString
| impl_parseInt | impl_parseFloat.

(** An entry of a context's [functions] map: one with an
    [implementation], or one with [isUserDefined] and a [body]. *)
Inductive FunctionDefinition : Type :=
| Builtin (name : string) (params : list Param) (returnType : TypeInfo)
    (implementation : builtin)
| UserDefined (name : string) (params : list Param) (returnType : TypeInfo)
    (body : stmt).

(** [ExecutionContext] without its [parent] link: the chain is a list. *)
Record ExecutionContext : Type :=
  mkContext {
    variables : gmap string Binding;
    functions : gmap string FunctionDefinition
  }.

Definition emptyContext : ExecutionContext := mkContext ∅ ∅.

(** The state a run threads: the chain of the current context (innermost
    first, the global context last), the output buffer, and the number of
    arrays and objects allocated so far. *)
Record state : Type :=
  mkState {
    chain : list ExecutionContext;
    output : list string;
    allocated : nat
  }.

Record ExecutionResult : Type :=
  mkResult {
    success : bool;
    result : option value;
    error : option string;
    result_output : list string;
    result_warnings : list string;
    compileErrors : option (list CompileError)
  }.

(** The fields of the interpreter object. *)
Record Interpreter : Type :=
  mkInterpreter {
    globalContext : ExecutionContext;
    this_output : list string;
    this_warnings : list string;
    this_allocated : nat
  }.

(** *** Evaluation steps *)

Inductive outcome (A : Type) : Type :=
| Normal (a : A) (s : state)
| Throw (msg : string) (s : state)
| OutOfFuel.
Arguments Normal {A} a s.
Arguments Throw {A} msg s.
Arguments OutOfFuel {A}.

Definition E (A : Type) : Type := state -> outcome A.

Definition ret {A} (a : A) : E A := fun s => Normal a s.
Definition throw {A} (msg : string) : E A := fun s => Throw msg s.
Definition diverge {A} : E A := fun _ => OutOfFuel.
Definition bind {A B} (m : E A) (k : A -> E B) : E B :=
  fun s =>
    match m s with
    | Normal a s' => k a s'
    | Throw msg s' => Throw msg s'
    | OutOfFuel => OutOfFuel
    end.
Definition gets {A} (f : state -> A) : E A := fun s => Normal (f s) s.
Definition modify (f : state -> state) : E unit := fun s => Normal tt (f s).

(** The result of an operation of the runtime: what it returns, or the error
    it throws. *)
Definition lift {A} (r : A + string) : E A :=
  match r with
  | inl v => ret v
  | inr msg => throw msg
  end.

Notation "'do' x <- m ; k" := (bind m (fun x => k))
  (at level 10, x name, m at level 100, k at level 200,
   format "'[v' 'do'  x  <-  m ; '/' k ']'").

Definition with_chain (f : list ExecutionContext -> list ExecutionContext)
  (s : state) : state :=
  mkState (f (chain s)) (output s) (allocated s).

(** [new ExecutionContext { parent: context }] becomes the current context. *)
Definition enter (c : ExecutionContext) : E unit :=
  modify (with_chain (cons c)).

(** The new context is dropped and its parent is current again. *)
Definition leave : E unit := modify (with_chain (@tail _)).

Definition in_current (f : ExecutionContext -> ExecutionContext)
  (l : list ExecutionContext) : list ExecutionContext :=
  match l with
  | c :: parent => f c :: parent
  | [] => []
  end.

(** [context.variables.set(name, b)] *)
Definition setVariable (name : string) (b : Binding) : E unit :=
  modify (with_chain (in_current
    (fun c => mkContext (<[name := b]> (variables c)) (functions c)))).

(** [context.functions.set(name, f)] *)
Definition setFunction (name : string) (f : FunctionDefinition) : E unit :=
  modify (with_chain (in_current
    (fun c => mkContext (variables c) (<[name := f]> (functions c))))).

(** A fresh identity for an array or an object. *)
Definition allocate : E nat :=
  fun s => Normal (allocated s) (mkState (chain s) (output s) (S (allocated s))).

(** [this.output.push(line)] *)
Definition pushOutput (line : string) : E unit :=
  modify (fun s => mkState (chain s) (output s ++ [line]) (allocated s)).

(** *** Lookups along the chain *)

Fixpoint lookupVariable (name : string) (l : list ExecutionContext)
  : option (nat * Binding) :=
  match l with
  | [] => None
  | c :: parent =>
      match variables c !! name with
      | Some b => Some (0, b)
      | None =>
          match lookupVariable name parent with
          | Some (i, b) => Some (S i, b)
          | None => None
          end
      end
  end.

Definition resolveVariable (name : string) : E value :=
  do found <- gets (fun s => lookupVariable name (chain s));
  match found with
  | Some (_, b) => ret (b_value b)
  | None => throw ("Undefined variable: " +:+ name)
  end.

(** The binding object found is the one of the context at depth [i]. *)
Definition resolveVariableReference (name : string) : E (nat * Binding) :=
  do found <- gets (fun s => lookupVariable name (chain s));
  match found with
  | Some r => ret r
  | None => throw ("Undefined variable: " +:+ name)
  end.

(** [variable.value = v] in a context that binds [name]: the type and the
    mutability of the binding stay as they were. *)
Definition storeValue (name : string) (v : value) (c : ExecutionContext)
  : ExecutionContext :=
  mkContext
    (alter (fun b => mkBinding (b_type b) v (b_mutable b)) name (variables c))
    (functions c).

(** [variable.value = v] on the binding of [name] found at depth [i]. *)
Definition writeValue (i : nat) (name : string) (v : value) : E unit :=
  modify (with_chain (alter (storeValue name v) i)).

Fixpoint resolveFunction (name : string) (l : list ExecutionContext)
  : option FunctionDefinition :=
  match l with
  | [] => None
  | c :: parent =>
      match functions c !! name with
      | Some f => Some f
      | None => resolveFunction name parent
      end
  end.

(** *** Values *)

Definition getDefaultValue (type : TypeInfo) : value :=
  let n := ty_name type in
  if String.eqb n "int" then VNumber 0
  else if String.eqb n "float" then VNumber 0.0
  else if String.eqb n "string" then VString ""
  else if String.eqb n "bool" then VBoolean false
  else if String.eqb n "char" then VString (String (ascii_of_nat 0) "")
  else if ty_nullable type then VNull
  else VNull.

Definition getValueType (v : value) : TypeInfo :=
  match v with
  | VNull => mkTypeInfo "null" true true None
  | VNumber n =>
      if Num.isInteger n then HackScriptTypeSystem.prim "int"
      else HackScriptTypeSystem.prim "float"
  | VString _ => HackScriptTypeSystem.prim "string"
  | VBoolean _ => HackScriptTypeSystem.prim "bool"
  | VArray _ _ => mkTypeInfo "Array<any>" false false None
  | VUndefined | VObject _ _ | VNative _ =>
      mkTypeInfo "object" false false None
  end.

Definition isTruthy (v : value) : bool :=
  match v with
  | VNull | VUndefined => false
  | VBoolean b => b
  | VNumber n => negb (PrimFloat.eqb n 0)
  | VString s => (0 <? String.length s)%nat
  | VArray _ _ | VObject _ _ | VNative _ => true
  end.

Section WithHost.

Variable host : Host.

(** [values.map(f)] for an [f] that may throw: the results in order, or the
    first error, at which the remaining elements are not visited. *)
Fixpoint mapValues {A B : Type} (f : A -> B + string) (values : list A)
  : list B + string :=
  match values with
  | [] => inl []
  | v :: rest =>
      match f v with
      | inl b =>
          match mapValues f rest with
          | inl bs => inl (b :: bs)
          | inr msg => inr msg
          end
      | inr msg => inr msg
      end
  end.

(** [texts.join(sep)], which writes an [undefined] element as the empty
    string. *)
Definition joinTexts (sep : string) (texts : list (option string)) : string :=
  Str.join sep (map (default "") texts).

(** The string written for a value ([None] is the [undefined] that
    [JSON.stringify] returns when it has nothing to write), or the error
    thrown on the way. *)
Fixpoint valueToString (v : value) : option string + string :=
  match v with
  | VNull => inl (Some "null")
  | VUndefined => inl (Some "undefined")
  | VString s => inl (Some s)
  | VBoolean b => inl (Some (if b then "true" else "false"))
  | VArray _ items =>
      match mapValues valueToString items with
      | inl texts => inl (Some ("[" +:+ joinTexts ", " texts +:+ "]"))
      | inr msg => inr msg
      end
  | VObject _ _ => host_stringify host v
  | VNative _ => host_stringify host v
  | VNumber n => inl (Some (host_numberToString host n))
  end.

(** The line [print] and [println] buffer:
    [args.map(arg => this.valueToString(arg)).join(' ')]. *)
Definition printedLine (args : list value) : string + string :=
  match mapValues valueToString args with
  | inl texts => inl (joinTexts " " texts)
  | inr msg => inr msg
  end.

(** [func.implementation(...args)] *)
Definition callBuiltin (f : builtin) (args : list value) : E value :=
  let obj := nth 0 args VUndefined in
  match f with
  | impl_print | impl_println =>
      do line <- lift (printedLine args);
      do _ <- pushOutput line;
      ret VUndefined
  | impl_len =>
      match obj with
      | VString s => ret (VNumber (Num.of_nat (String.length s)))
      | VArray _ items => ret (VNumber (Num.of_nat (length items)))
      | _ => throw "len() requires string or array argument"
      end
  | impl_type => ret (VString (ty_name (getValueType obj)))
  | impl_toString =>
      do text <- lift (valueToString obj);
      ret (match text with Some s => VString s | None => VUndefined end)
  | impl_parseInt =>
      do str <- lift (JS.toString host obj);
      let r := host_parseInt host str in
      ret (if Num.isNaN r then VNull else VNumber r)
  | impl_parseFloat =>
      do str <- lift (JS.toString host obj);
      let r := host_parseFloat host str in
      ret (if Num.isNaN r then VNull else VNumber r)
  end.

Definition anyArray : TypeInfo := mkTypeInfo "Array<any>" false false None.
Definition anyType : TypeInfo := mkTypeInfo "any" false false None.

Definition builtinFunctions : list FunctionDefinition :=
  [ Builtin "print" [mkParam "args" anyArray None]
      (HackScriptTypeSystem.prim "void") impl_print;
    Builtin "println" [mkParam "args" anyArray None]
      (HackScriptTypeSystem.prim "void") impl_println;
    Builtin "len"
      [mkParam "obj" (mkTypeInfo "Array<any> | string" false false None) None]
      (HackScriptTypeSystem.prim "int") impl_len;
    Builtin "type" [mkParam "obj" anyType None]
      (HackScriptTypeSystem.prim "string") impl_type;
    Builtin "toString" [mkParam "obj" anyType None]
      (HackScriptTypeSystem.prim "string") impl_toString;
    Builtin "parseInt" [mkParam "str" (HackScriptTypeSystem.prim "string") None]
      (mkTypeInfo "int?" true true None) impl_parseInt;
    Builtin "parseFloat" [mkParam "str" (HackScriptTypeSystem.prim "string") None]
      (mkTypeInfo "float?" true true None) impl_parseFloat ].

Definition functionName (f : FunctionDefinition) : string :=
  match f with
  | Builtin n _ _ _ => n
  | UserDefined n _ _ _ => n
  end.

Definition initializeBuiltins (c : ExecutionContext) : ExecutionContext :=
  mkContext (variables c)
    (fold_left (fun m f => <[functionName f := f]> m) builtinFunctions
       (functions c)).

(** [new HackScriptInterpreterV2()] *)
Definition constructor : Interpreter :=
  mkInterpreter (initializeBuiltins emptyContext) [] [] 0.

End WithHost.

(** *** The type checker *)

Definition unknownType : TypeInfo := mkTypeInfo "unknown" false false None.

Definition inferBinaryExpressionType (operator : string)
  (leftType rightType : TypeInfo) : TypeInfo :=
  let arithmetic :=
    if Str.mem operator ["+"; "-"; "*"; "/"; "%"] then
      if String.eqb (ty_name leftType) "float"
         || String.eqb (ty_name rightType) "float"
      then Some (HackScriptTypeSystem.prim "float")
      else if String.eqb (ty_name leftType) "int"
              && String.eqb (ty_name rightType) "int"
      then Some (HackScriptTypeSystem.prim "int")
      else if String.eqb operator "+"
              && (String.eqb (ty_name leftType) "string"
                  || String.eqb (ty_name rightType) "string")
      then Some (HackScriptTypeSystem.prim "string")
      else None
    else None in
  match arithmetic with
  | Some t => t
  | None =>
      if Str.mem operator ["=="; "!="; "<"; ">"; "<="; ">="]
      then HackScriptTypeSystem.prim "bool"
      else if Str.mem operator ["&&"; "||"]
      then HackScriptTypeSystem.prim "bool"
      else unknownType
  end.

Section TypeCheck.

(** [this.globalContext] when the check runs. *)
Variable global : ExecutionContext.

Fixpoint inferType (e : expr) : TypeInfo :=
  match e with
  | NumberLiteral _ numberType =>
      match HackScriptTypeSystem.getPrimitiveType numberType with
      | Some t => t
      | None => mkTypeInfo "int" true false None
      end
  | StringLiteral _ => HackScriptTypeSystem.prim "string"
  | BooleanLiteral _ => HackScriptTypeSystem.prim "bool"
  | NullLiteral => mkTypeInfo "null" true true None
  | ArrayLiteral elements =>
      match elements with
      | [] => mkTypeInfo "Array<any>" false false None
      | first :: _ => HackScriptTypeSystem.createArrayType (inferType first)
      end
  | Identifier name =>
      match variables global !! name with
      | Some variable => b_type variable
      | None => unknownType
      end
  | BinaryExpression operator lhs rhs =>
      inferBinaryExpressionType operator (inferType lhs) (inferType rhs)
  | _ => unknownType
  end.

Fixpoint typeCheckStatement (s : stmt) : list CompileError :=
  match s with
  | VariableDeclaration _ _ typeAnnotation (Some initializer) _ =>
      let initType := inferType initializer in
      if negb (HackScriptTypeSystem.isAssignable initType typeAnnotation)
      then [mkCompileError 1 1
              ("Cannot assign " +:+ ty_name initType +:+ " to "
               +:+ ty_name typeAnnotation) "error"]
      else []
  | FunctionDeclaration _ _ _ body => typeCheckStatement body
  | BlockStatement body => flat_map typeCheckStatement body
  | _ => []
  end.

Definition typeCheck (ast : program) : list CompileError :=
  match ast with
  | Program body => flat_map typeCheckStatement body
  end.

End TypeCheck.

(** *** The evaluator *)

Section Evaluator.

Variable host : Host.

Section Knot.

(** The recursive calls to [executeStatement] and [executeExpression]. *)
Variable execS : stmt -> E value.
Variable execE : expr -> E value.

(** [for (const s of body) result = this.executeStatement(s, context)] *)
Fixpoint executeStatements (body : list stmt) (result : value) : E value :=
  match body with
  | [] => ret result
  | s :: rest =>
      do r <- execS s;
      executeStatements rest r
  end.

(** [elements.map(e => this.executeExpression(e, context))] *)
Fixpoint executeExpressions (es : list expr) : E (list value) :=
  match es with
  | [] => ret []
  | e :: rest =>
      do v <- execE e;
      do vs <- executeExpressions rest;
      ret (v :: vs)
  end.

Definition executeVariableDeclaration (name : string)
  (typeAnnotation : TypeInfo) (initializer : option expr) (mutable : bool)
  : E value :=
  do value <-
    match initializer with
    | Some e => execE e
    | None => ret (getDefaultValue typeAnnotation)
    end;
  do _ <- setVariable name (mkBinding typeAnnotation value mutable);
  ret VUndefined.

Definition executeFunctionDeclaration (name : string) (params : list Param)
  (returnType : TypeInfo) (body : stmt) : E value :=
  do _ <- setFunction name (UserDefined name params returnType body);
  ret VUndefined.

Definition executeBlockStatement (body : list stmt) : E value :=
  do _ <- enter emptyContext;
  do result <- executeStatements body VNull;
  do _ <- leave;
  ret result.

Definition executeIfStatement (condition : expr) (consequent : stmt)
  (alternate : option stmt) : E value :=
  do c <- execE condition;
  if isTruthy c then execS consequent
  else match alternate with
       | Some a => execS a
       | None => ret VNull
       end.

(** The [while] of [executeForStatement]. *)
Fixpoint for_loop (n : nat) (condition update : expr) (body : stmt)
  (result : value) : E value :=
  match n with
  | 0 => diverge
  | S n' =>
      do c <- execE condition;
      if isTruthy c then
        do r <- execS body;
        do _ <- execE update;
        for_loop n' condition update body r
      else ret result
  end.

Definition executeForStatement (n : nat) (init : stmt)
  (condition update : expr) (body : stmt) : E value :=
  do _ <- enter emptyContext;
  do result <-
    (do _ <- execS init;
     for_loop n condition update body VNull);
  do _ <- leave;
  ret result.

(** The [while] of [executeWhileStatement]. *)
Fixpoint while_loop (n : nat) (condition : expr) (body : stmt)
  (result : value) : E value :=
  match n with
  | 0 => diverge
  | S n' =>
      do c <- execE condition;
      if isTruthy c then
        do r <- execS body;
        while_loop n' condition body r
      else ret result
  end.

Definition executeWhileStatement (n : nat) (condition : expr) (body : stmt)
  : E value :=
  while_loop n condition body VNull.

Definition executeReturnStatement (val : option expr) : E value :=
  match val with
  | Some e => execE e
  | None => ret VNull
  end.

(** The body of [executeStatement]. *)
Definition executeStatement_body (n : nat) (s : stmt) : E value :=
  match s with
  | VariableDeclaration _ name typeAnnotation initializer mutable =>
      executeVariableDeclaration name typeAnnotation initializer mutable
  | FunctionDeclaration name params returnType body =>
      executeFunctionDeclaration name params returnType body
  | ExpressionStatement expression => execE expression
  | BlockStatement body => executeBlockStatement body
  | IfStatement condition consequent alternate =>
      executeIfStatement condition consequent alternate
  | ForStatement init condition update body =>
      executeForStatement n init condition update body
  | WhileStatement condition body =>
      executeWhileStatement n condition body
  | ReturnStatement val => executeReturnStatement val
  end.

Definition executeBinaryExpression (operator : string) (left right : expr)
  : E value :=
  do l <- execE left;
  do r <- execE right;
  if String.eqb operator "+" then lift (JS.add host l r)
  else if String.eqb operator "-" then lift (JS.arith host "-" PrimFloat.sub l r)
  else if String.eqb operator "*" then lift (JS.arith host "*" PrimFloat.mul l r)
  else if String.eqb operator "/" then lift (JS.arith host "/" PrimFloat.div l r)
  else if String.eqb operator "%"
  then lift (JS.arith host "%" (host_remainder host) l r)
  else if String.eqb operator "==" then ret (VBoolean (JS.strictEquals l r))
  else if String.eqb operator "!="
  then ret (VBoolean (negb (JS.strictEquals l r)))
  else if String.eqb operator "<"
  then lift (JS.relational host "<" PrimFloat.ltb l r)
  else if String.eqb operator ">"
  then lift (JS.relational host ">" (fun x y => PrimFloat.ltb y x) l r)
  else if String.eqb operator "<="
  then lift (JS.relational host "<=" PrimFloat.leb l r)
  else if String.eqb operator ">="
  then lift (JS.relational host ">=" (fun x y => PrimFloat.leb y x) l r)
  else if String.eqb operator "&&" then ret (if JS.toBoolean l then r else l)
  else if String.eqb operator "||" then ret (if JS.toBoolean l then l else r)
  else throw ("Unknown binary operator: " +:+ operator).

Definition executeUnaryExpression (operator : string) (operand : expr)
  : E value :=
  do v <- execE operand;
  if String.eqb operator "-" then lift (JS.negate host v)
  else if String.eqb operator "!" then ret (VBoolean (negb (JS.toBoolean v)))
  else if String.eqb operator "++" then lift (JS.add host v (VNumber 1))
  else if String.eqb operator "--"
  then lift (JS.arith host "-" PrimFloat.sub v (VNumber 1))
  else throw ("Unknown unary operator: " +:+ operator).

Definition executeAssignmentExpression (left right : expr) : E value :=
  do value <- execE right;
  match left with
  | Identifier name =>
      do variable <- resolveVariableReference name;
      if negb (b_mutable (snd variable))
      then throw ("Cannot assign to immutable variable: " +:+ name)
      else (do _ <- writeValue (fst variable) name value; ret value)
  | _ => ret value
  end.

(** The parameter loop of [executeUserFunction]: the bindings of the
    new context, the defaults being evaluated in the calling one. *)
Fixpoint bindParameters (params : list Param) (args : list value)
  (vars : gmap string Binding) : E (gmap string Binding) :=
  match params with
  | [] => ret vars
  | param :: rest =>
      do value <-
        match args with
        | a :: _ => ret a
        | [] =>
            match param_defaultValue param with
            | Some d => execE d
            | None => ret (getDefaultValue (param_type param))
            end
        end;
      bindParameters rest (tail args)
        (<[param_name param := mkBinding (param_type param) value true]> vars)
  end.

Definition executeUserFunction (params : list Param) (body : stmt)
  (args : list value) : E value :=
  do vars <- bindParameters params args ∅;
  do _ <- enter (mkContext vars ∅);
  do result <- execS body;
  do _ <- leave;
  ret result.

Definition executeFunctionCall (callee : expr) (arguments : list expr)
  : E value :=
  let funcName :=
    match callee with
    | Identifier name => Some name
    | _ => None
    end in
  do args <- executeExpressions arguments;
  do func <- gets (fun s =>
    match funcName with
    | Some name => resolveFunction name (chain s)
    | None => None
    end);
  match func with
  | None => throw ("Unknown function: " +:+ default "undefined" funcName)
  | Some (Builtin _ _ _ implementation) => callBuiltin host implementation args
  | Some (UserDefined _ params _ body) => executeUserFunction params body args
  end.

Definition executeArrayAccess (object index : expr) : E value :=
  do array <- execE object;
  do i <- execE index;
  match array with
  | VArray _ items =>
      match i with
      | VNumber x =>
          if Num.lt_Z x 0 || Num.ge_Z x (Z.of_nat (length items))
          then throw "Array index out of bounds"
          else ret (JS.index items x)
      | _ => throw "Array index out of bounds"
      end
  | _ => throw "Array access on non-array value"
  end.

Definition executePropertyAccess (object : expr) (property : string)
  : E value :=
  do o <- execE object;
  match o with
  | VNull | VUndefined => throw "Property access on null or undefined"
  | _ => lift (JS.get host o property)
  end.

(** The [for] of the [ObjectLiteral] case. *)
Fixpoint executeProperties (properties : list (string * expr))
  (obj : JS.building) : E JS.building :=
  match properties with
  | [] => ret obj
  | (key, e) :: rest =>
      do v <- execE e;
      do obj' <- lift (JS.setProperty host key v obj);
      executeProperties rest obj'
  end.

(** The body of [executeExpression]. *)
Definition executeExpression_body (e : expr) : E value :=
  match e with
  | NumberLiteral value _ => ret (VNumber value)
  | StringLiteral value => ret (VString value)
  | BooleanLiteral value => ret (VBoolean value)
  | NullLiteral => ret VNull
  | ArrayLiteral elements =>
      do items <- executeExpressions elements;
      do id <- allocate;
      ret (VArray id items)
  | ObjectLiteral properties =>
      do id <- allocate;
      do obj <- executeProperties properties JS.emptyObject;
      ret (VObject id (snd obj))
  | Identifier name => resolveVariable name
  | BinaryExpression operator lhs rhs =>
      executeBinaryExpression operator lhs rhs
  | UnaryExpression operator operand =>
      executeUnaryExpression operator operand
  | AssignmentExpression lhs rhs =>
      executeAssignmentExpression lhs rhs
  | FunctionCall callee arguments => executeFunctionCall callee arguments
  | ArrayAccess object index => executeArrayAccess object index
  | PropertyAccess object property => executePropertyAccess object property
  end.

End Knot.

Fixpoint executeStatement (fuel : nat) (s : stmt) : E value :=
  match fuel with
  | 0 => diverge
  | S f =>
      executeStatement_body (executeStatement f) (executeExpression f) f s
  end
with executeExpression (fuel : nat) (e : expr) : E value :=
  match fuel with
  | 0 => diverge
  | S f => executeExpression_body (executeStatement f) (executeExpression f) e
  end.

Definition executeAST (fuel : nat) (ast : program) : E value :=
  match ast with
  | Program body => executeStatements (executeStatement fuel) body VNull
  end.

(** The state a run starts in, and the interpreter a run leaves. *)
Definition start (this : Interpreter) : state :=
  mkState [globalContext this] [] (this_allocated this).

Definition finish (this : Interpreter) (s : state) : Interpreter :=
  mkInterpreter (List.last (chain s) (globalContext this)) (output s) []
    (allocated s).

(** [execute(code)]: the result record and the interpreter afterwards;
    [None] when parsing or evaluation gives no answer within the fuel. *)
Definition execute (pfuel efuel : nat) (code : string) (this : Interpreter)
  : option (ExecutionResult * Interpreter) :=
  let this0 :=
    mkInterpreter (globalContext this) [] [] (this_allocated this) in
  match Parser.parse host pfuel code with
  | None => None
  | Some (ast, errors) =>
      if (0 <? length errors)%nat then
        Some (mkResult false None None [] [] (Some errors), this0)
      else
        let typeErrors := typeCheck (globalContext this) ast in
        if (0 <? length typeErrors)%nat then
          Some (mkResult false None None [] [] (Some typeErrors), this0)
        else
          match executeAST efuel ast (start this) with
          | Normal v s =>
              Some (mkResult true (Some v) None (output s) [] None,
                    finish this s)
          | Throw msg s =>
              Some (mkResult false None (Some msg) (output s) [] None,
                    finish this s)
          | OutOfFuel => None
          end
  end.

(** *** The evaluator on a bounded call stack

    [executeStatement] and [executeExpression] call each other, one frame
    of the runtime's call stack and more for every nested statement or
    expression.  When the stack is exhausted the runtime throws a
    [RangeError] with the message below, which the [catch] of [execute]
    reports like any other error.  Here the stack has room for [depth]
    nested calls of the evaluator, and the calls of helpers are taken to
    fit; [fuel] bounds the passes of a loop alone. *)
Definition stackOverflow : string := "Maximum call stack size exceeded".

Fixpoint executeStatementWithin (depth fuel : nat) (s : stmt) : E value :=
  match depth with
  | 0 => throw stackOverflow
  | S d =>
      executeStatement_body (executeStatementWithin d fuel)
        (executeExpressionWithin d fuel) fuel s
  end
with executeExpressionWithin (depth fuel : nat) (e : expr) : E value :=
  match depth with
  | 0 => throw stackOverflow
  | S d =>
      executeExpression_body (executeStatementWithin d fuel)
        (executeExpressionWithin d fuel) e
  end.

Definition executeASTWithin (depth fuel : nat) (ast : program) : E value :=
  match ast with
  | Program body =>
      executeStatements (executeStatementWithin depth fuel) body VNull
  end.

(** [execute(code)] on a call stack of [depth] frames. *)
Definition executeWithin (pfuel depth fuel : nat) (code : string)
  (this : Interpreter) : option (ExecutionResult * Interpreter) :=
  let this0 :=
    mkInterpreter (globalContext this) [] [] (this_allocated this) in
  match Parser.parse host pfuel code with
  | None => None
  | Some (ast, errors) =>
      if (0 <? length errors)%nat then
        Some (mkResult false None None [] [] (Some errors), this0)
      else
        let typeErrors := typeCheck (globalContext this) ast in
        if (0 <? length typeErrors)%nat then
          Some (mkResult false None None [] [] (Some typeErrors), this0)
        else
          match executeASTWithin depth fuel ast (start this) with
          | Normal v s =>
              Some (mkResult true (Some v) None (output s) [] None,
                    finish this s)
          | Throw msg s =>
              Some (mkResult false None (Some msg) (output s) [] None,
                    finish this s)
          | OutOfFuel => None
          end
  end.

End Evaluator.

End Interpreter.

(** ** String methods the line interpreter uses *)

Module Text.

(** [s.split(sep)] for a one-character separator. *)
Fixpoint split (sep : ascii) (s : string) : list string :=
  match s with
  | "" => [""]
  | String c r =>
      if Ascii.eqb c sep then "" :: split sep r
      else match split sep r with
           | x :: l => String c x :: l
           | [] => [String c ""]
           end
  end.

Definition trimStart (s : string) : string := snd (Str.span Re.is_space s).

Fixpoint trimEnd (s : string) : string :=
  match s with
  | "" => ""
  | String c r =>
      let r' := trimEnd r in
      if Re.is_space c && negb (Str.nonempty r') then "" else String c r'
  end.

(** [s.trim()] *)
Definition trim (s : string) : string := trimEnd (trimStart s).

(** [s.endsWith(c)] for a one-character string. *)
Fixpoint endsWith (c : ascii) (s : string) : bool :=
  match s with
  | "" => false
  | String d "" => Ascii.eqb d c
  | String _ r => endsWith c r
  end.

(** [s.includes(needle)] *)
Fixpoint includes (needle s : string) : bool :=
  Str.startsWith needle s
  || match s with
     | String _ r => includes needle r
     | "" => false
     end.

(** [s.slice(0, -1)] *)
Fixpoint dropLast (s : string) : string :=
  match s with
  | "" => ""
  | String _ "" => ""
  | String c r => String c (dropLast r)
  end.

(** [s.slice(1, -1)] *)
Definition slice_1_m1 (s : string) : string := dropLast (Str.skip 1 s).

(** [current += char] *)
Definition push (s : string) (c : ascii) : string := s +:+ String c "".

End Text.

(** ** The line interpreter: [HackScriptInterpreter] *)

(** The older interpreter of the repository runs a text line by line, with
    regular expressions and string methods and no syntax tree.  Its two
    [Map]s are [gmap]s.  [evaluateExpression] and [parseArguments] call each
    other on texts that get shorter; the embedding gives them fuel, and the
    length of the text is enough of it ([evaluate]).  [getVariables] and
    [getFunctions] list the maps in insertion order and are not embedded. *)

Module HackScriptInterpreter.

(** [HackScriptValue]: the values the interpreter builds (none has the type
    [function] or [object]). *)
Inductive HackScriptValue : Type :=
| HNumber (value : float)
| HString (value : string)
| HBoolean (value : bool)
| HNull
| HArray (value : list HackScriptValue).

Record HackScriptFunction : Type :=
  mkFunction {
    f_name : string;
    f_params : list string;
    f_body : string
  }.

(** The fields of the interpreter object; a [HackScriptVariable] is stored
    under its own name, and is kept here as its value. *)
Record Interpreter : Type :=
  mkInterpreter {
    variables : gmap string HackScriptValue;
    functions : gmap string HackScriptFunction;
    output : list string
  }.

Record ExecutionResult : Type :=
  mkResult {
    success : bool;
    error : option string;
    result_output : list string
  }.

(** A value, a thrown [Error], or no answer within the fuel. *)
Inductive result (A : Type) : Type :=
| Value (a : A)
| Error (msg : string)
| NoFuel.
Arguments Value {A} a.
Arguments Error {A} msg.
Arguments NoFuel {A}.

Definition bind {A B} (m : result A) (k : A -> result B) : result B :=
  match m with
  | Value a => k a
  | Error msg => Error msg
  | NoFuel => NoFuel
  end.

Notation "'do' x <- m ; k" := (bind m (fun x => k))
  (at level 10, x name, m at level 100, k at level 200,
   format "'[v' 'do'  x  <-  m ; '/' k ']'").

Definition builtin (name : string) (params : list string) : HackScriptFunction :=
  mkFunction name params "builtin".

Definition initializeBuiltins (functions : gmap string HackScriptFunction)
  : gmap string HackScriptFunction :=
  <["type" := builtin "type" ["obj"]]>
    (<["len" := builtin "len" ["obj"]]>
       (<["input" := builtin "input" ["prompt"]]>
          (<["print" := builtin "print" ["...args"]]> functions))).

(** [new HackScriptInterpreter()] *)
Definition constructor : Interpreter :=
  mkInterpreter ∅ (initializeBuiltins ∅) [].

Definition clearEnvironment (this : Interpreter) : Interpreter :=
  mkInterpreter ∅ (initializeBuiltins ∅) [].

(** [/^-?\d+(\.\d+)?$/.test(expr)] *)
Definition isNumberLiteral (expr : string) : bool :=
  let unsigned :=
    match expr with
    | String c r => if Ascii.eqb c "-" then r else expr
    | "" => expr
    end in
  let '(d, r) := Str.span Re.is_digit unsigned in
  Str.nonempty d
  && match r with
     | String c r' =>
         Ascii.eqb c "." && Str.nonempty r' && Str.all Re.is_digit r'
     | "" => true
     end.

Section WithHost.

Variable host : Host.

(** [parseFloat(expr)] on a text that passed the test above: the integer
    written when the text is made of digits, the host's answer otherwise. *)
Definition parseFloat (expr : string) : float :=
  if Str.all Re.is_digit expr then Num.parseInt_digits expr
  else host_parseFloat host expr.

Fixpoint valueToString (v : HackScriptValue) : string :=
  match v with
  | HString s => s
  | HNumber n => host_numberToString host n
  | HBoolean b => if b then "true" else "false"
  | HNull => "null"
  | HArray items => "[" +:+ Str.join ", " (map valueToString items) +:+ "]"
  end.

Section Expressions.

Variable vars : gmap string HackScriptValue.

Section ArgumentLoop.
(** The call to [evaluateExpression]. *)
Variable evaluateExpression' : string -> result HackScriptValue.

(** The [for] of [parseArguments], from the character after [prev]. *)
Fixpoint parseArguments_loop (s : string) (prev : option ascii)
  (args : list HackScriptValue) (current : string) (inQuotes : bool)
  (parenCount : Z) : result (list HackScriptValue) :=
  match s with
  | "" =>
      if Str.nonempty (Text.trim current) then
        do v <- evaluateExpression' (Text.trim current);
        Value (args ++ [v])
      else Value args
  | String char r =>
      if Ascii.eqb char (ascii_of_nat 34)
         && match prev with
            | Some p => negb (Ascii.eqb p (ascii_of_nat 92))
            | None => true
            end
      then parseArguments_loop r (Some char) args (Text.push current char)
             (negb inQuotes) parenCount
      else if Ascii.eqb char "(" && negb inQuotes
      then parseArguments_loop r (Some char) args (Text.push current char)
             inQuotes (parenCount + 1)
      else if Ascii.eqb char ")" && negb inQuotes
      then parseArguments_loop r (Some char) args (Text.push current char)
             inQuotes (parenCount - 1)
      else if Ascii.eqb char "," && negb inQuotes && (parenCount =? 0)%Z
      then
        do v <- evaluateExpression' (Text.trim current);
        parseArguments_loop r (Some char) (args ++ [v]) "" inQuotes parenCount
      else parseArguments_loop r (Some char) args (Text.push current char)
             inQuotes parenCount
  end.

Definition parseArguments (argsStr : string) : result (list HackScriptValue) :=
  if negb (Str.nonempty (Text.trim argsStr)) then Value []
  else parseArguments_loop argsStr None [] "" false 0.

End ArgumentLoop.

Fixpoint evaluateExpression (fuel : nat) (expr : string)
  : result HackScriptValue :=
  match fuel with
  | 0 => NoFuel
  | S f =>
      let expr := Text.trim expr in
      if Str.startsWith Str.dquote expr && Text.endsWith (ascii_of_nat 34) expr
      then Value (HString (Text.slice_1_m1 expr))
      else if isNumberLiteral expr then Value (HNumber (parseFloat expr))
      else if String.eqb expr "true" then Value (HBoolean true)
      else if String.eqb expr "false" then Value (HBoolean false)
      else if String.eqb expr "null" then Value HNull
      else
        match vars !! expr with
        | Some v => Value v
        | None =>
            if Str.startsWith "[" expr && Text.endsWith "]" expr then
              let elementsStr := Text.slice_1_m1 expr in
              do elements <-
                (if Str.nonempty elementsStr
                 then parseArguments (evaluateExpression f) elementsStr
                 else Value []);
              Value (HArray elements)
            else Error ("Unknown expression: " +:+ expr)
        end
  end.

(** The recursion goes through texts that get shorter: the length of the
    text, and one, is fuel enough. *)
Definition evaluate (expr : string) : result HackScriptValue :=
  evaluateExpression (S (String.length expr)) expr.

End Expressions.

(** The match of the call pattern, [^] word characters, an opening
    parenthesis, any characters but line terminators, a closing parenthesis
    [$]: the name and the text between the parentheses. *)
Definition matchCall (line : string) : option (string * string) :=
  let '(name, rest) := Str.span Re.is_word line in
  if Str.nonempty name then
    match rest with
    | String c r =>
        if Ascii.eqb c "(" && Text.endsWith ")" r
           && Str.all (fun c => negb (Re.is_line_terminator c)) (Text.dropLast r)
        then Some (name, Text.dropLast r)
        else None
    | "" => None
    end
  else None.

(** The match of the definition pattern, [^func], spaces, a name, optional
    spaces, the parameters in parentheses (any characters but a closing
    parenthesis), optional spaces, and a body in braces that ends the line
    [$] (one character at least, no line terminator): the name, the
    parameters and the body. *)
Definition matchDefinition (line : string)
  : option (string * string * string) :=
  if Str.startsWith "func" line then
    let '(ws, r1) := Str.span Re.is_space (Str.skip 4 line) in
    let '(name, r2) := Str.span Re.is_word r1 in
    let r3 := Text.trimStart r2 in
    match r3 with
    | String c3 r4 =>
        let '(params, r5) :=
          Str.span (fun c => negb (Ascii.eqb c ")")) r4 in
        match r5 with
        | String _ r6 =>
            match Text.trimStart r6 with
            | String c7 r8 =>
                let body := Text.dropLast r8 in
                if Str.nonempty ws && Str.nonempty name && Ascii.eqb c3 "("
                   && Ascii.eqb c7 "{" && Text.endsWith "}" r8
                   && Str.nonempty body
                   && Str.all (fun c => negb (Re.is_line_terminator c)) body
                then Some (name, params, body)
                else None
            | "" => None
            end
        | "" => None
        end
    | "" => None
    end
  else None.

Definition executeAssignment (line : string) (this : Interpreter)
  : result Interpreter :=
  match Text.split "=" line with
  | [part0; part1] =>
      let varName := Text.trim part0 in
      let valueExpr := Text.trim part1 in
      do value <- evaluate (variables this) valueExpr;
      Value (mkInterpreter (<[varName := value]> (variables this))
               (functions this) (output this))
  | _ => Error ("Invalid assignment: " +:+ line)
  end.

Definition executeFunctionCall (line : string) (this : Interpreter)
  : result Interpreter :=
  match matchCall line with
  | None => Error ("Invalid function call: " +:+ line)
  | Some (funcName, argsStr) =>
      do args <-
        (if Str.nonempty argsStr
         then parseArguments (evaluate (variables this)) argsStr
         else Value []);
      if String.eqb funcName "print" then
        Value (mkInterpreter (variables this) (functions this)
                 (output this ++ [Str.join " " (map valueToString args)]))
      else if String.eqb funcName "len" then
        match args with
        | [arg] =>
            match arg with
            | HString _ | HArray _ => Value this
            | _ => Error "len() argument must be string or array"
            end
        | _ => Error "len() takes exactly one argument"
        end
      else if String.eqb funcName "type" then
        match args with
        | [_] => Value this
        | _ => Error "type() takes exactly one argument"
        end
      else Error ("Unknown function: " +:+ funcName)
  end.

Definition executeFunctionDefinition (line : string) (this : Interpreter)
  : result Interpreter :=
  match matchDefinition line with
  | None => Error ("Invalid function definition: " +:+ line)
  | Some (funcName, paramsStr, body) =>
      let params :=
        if Str.nonempty paramsStr
        then map Text.trim (Text.split "," paramsStr)
        else [] in
      Value (mkInterpreter (variables this)
               (<[funcName := mkFunction funcName params body]> (functions this))
               (output this))
  end.

Definition executeLine (line : string) (this : Interpreter)
  : result Interpreter :=
  if Text.includes "=" line && negb (Text.includes "==" line)
     && negb (Text.includes "!=" line)
  then executeAssignment line this
  else if Text.includes "(" line && Text.includes ")" line
  then executeFunctionCall line this
  else if Str.startsWith "if " line
  then Error "If statements not yet implemented"
  else if Str.startsWith "for " line
  then Error "For loops not yet implemented"
  else if Str.startsWith "while " line
  then Error "While loops not yet implemented"
  else if Str.startsWith "func " line
  then executeFunctionDefinition line this
  else Error ("Unknown statement: " +:+ line).

(** The filter of [execute]: the lines that are neither blank nor comments. *)
Definition isStatement (line : string) : bool :=
  Str.nonempty (Text.trim line)
  && negb (Str.startsWith "//" (Text.trim line)).

(** The [for] of [execute]: the interpreter at the end, and the message of
    the error that stopped it, if one did; [None] without fuel. *)
Fixpoint executeLines (lines : list string) (this : Interpreter)
  : option (option string * Interpreter) :=
  match lines with
  | [] => Some (None, this)
  | line :: rest =>
      match executeLine (Text.trim line) this with
      | Value this' => executeLines rest this'
      | Error msg => Some (Some msg, this)
      | NoFuel => None
      end
  end.

Definition execute (code : string) (this : Interpreter)
  : option (ExecutionResult * Interpreter) :=
  let this0 := mkInterpreter (variables this) (functions this) [] in
  match executeLines (List.filter isStatement (Text.split (ascii_of_nat 10) code)) this0 with
  | Some (None, this') => Some (mkResult true None (output this'), this')
  | Some (Some msg, this') =>
      Some (mkResult false (Some msg) (output this'), this')
  | None => None
  end.

End WithHost.

End HackScriptInterpreter.

(** * Properties *)

Import Interpreter.

(** A host for closed examples whose evaluation never consults it: every
    operation it is asked for answers [undefined], the empty string or NaN,
    an assignment it is asked for changes nothing, and nothing throws. *)
Definition silentHost : Host :=
  mkHost (fun _ _ _ => inl VUndefined) (fun _ => inl VUndefined)
    (fun _ _ => PrimFloat.nan) (fun _ => "") (fun _ => inl (Some ""))
    (fun _ => inl "") (fun _ => PrimFloat.nan) (fun _ => PrimFloat.nan)
    (fun _ _ => inl VUndefined) (fun proto props _ _ => inl (Some proto, props)).

Definition intType : TypeInfo := HackScriptTypeSystem.prim "int".
Definition floatType : TypeInfo := HackScriptTypeSystem.prim "float".
Definition charType : TypeInfo := HackScriptTypeSystem.prim "char".

(** The record [execute] returns, without the interpreter it leaves. *)
Definition run (host : Host) (pfuel efuel : nat) (code : string)
  (this : Interpreter) : option ExecutionResult :=
  fst <$> execute host pfuel efuel code this.

Definition runWithin (host : Host) (pfuel depth fuel : nat) (code : string)
  (this : Interpreter) : option ExecutionResult :=
  fst <$> executeWithin host pfuel depth fuel code this.

Definition isIdentifier (e : expr) : bool :=
  match e with
  | Identifier _ => true
  | _ => false
  end.

(** The names bound in a context: its variables and its functions. *)
Definition names (c : ExecutionContext) : gset string * gset string :=
  (dom (variables c), dom (functions c)).

(** Two chains have the same contexts with the same names bound in each. *)
Definition sameNames (l l' : list ExecutionContext) : Prop :=
  map names l = map names l'.

(** The current context may have gained names; its ancestors have not. *)
Definition extendsCurrent (l l' : list ExecutionContext) : Prop :=
  match l, l' with
  | c :: p, c' :: p' =>
      dom (variables c) ⊆ dom (variables c')
      ∧ dom (functions c) ⊆ dom (functions c')
      ∧ sameNames p p'
  | [], [] => True
  | _, _ => False
  end.

(** An evaluation step that completes leaves every context of the chain with
    the names it had, and a step that completes or throws only appends to
    the output buffer. *)
Definition preservesNames {A} (m : E A) : Prop :=
  forall s,
    match m s with
    | Normal _ s' =>
        sameNames (chain s) (chain s') /\ output s `prefix_of` output s'
    | Throw _ s' => output s `prefix_of` output s'
    | OutOfFuel => True
    end.

(** The same, except that the current context may gain names. *)
Definition extendsNames {A} (m : E A) : Prop :=
  forall s,
    match m s with
    | Normal _ s' =>
        extendsCurrent (chain s) (chain s') /\ output s `prefix_of` output s'
    | Throw _ s' => output s `prefix_of` output s'
    | OutOfFuel => True
    end.

(** More fuel never changes an answer: [o'] is [o], unless [o] ran out. *)
Definition answers {A} (o o' : outcome A) : Prop :=
  o = OutOfFuel \/ o = o'.

Definition below {A} (m m' : E A) : Prop :=
  forall s, answers (m s) (m' s).

(** The same for parser steps. *)
Definition parses {A} (r r' : Parser.result A) : Prop :=
  r = Parser.Timeout \/ r = r'.

Definition pbelow {A} (m m' : Parser.M A) : Prop :=
  forall pos, parses (m pos) (m' pos).

(** The recursive factorial of the syntax guide, and a call. *)
Definition factorialSource : string :=
  "func factorial(n: int) -> int {
     if (n <= 1) { return 1; } else { return n * factorial(n - 1); }
   }
   factorial(5);".

(** The factorial written with an early return in place of the else
    branch, a call, and the states its body runs in. *)
Definition earlyReturnSource : string :=
  "func f(n: int) -> int { if (n <= 1) { return 1; } return n * f(n - 1); } f(5);".

Definition earlyReturnBody : stmt :=
  BlockStatement
    [IfStatement (BinaryExpression "<=" (Identifier "n") (NumberLiteral 1 "int"))
       (BlockStatement [ReturnStatement (Some (NumberLiteral 1 "int"))]) None;
     ReturnStatement
       (Some (BinaryExpression "*" (Identifier "n")
                (FunctionCall (Identifier "f")
                   [BinaryExpression "-" (Identifier "n") (NumberLiteral 1 "int")])))].

Definition earlyReturnFunction : FunctionDefinition :=
  UserDefined "f" [mkParam "n" intType None] intType earlyReturnBody.

Definition earlyReturnProgram : program :=
  Program
    [FunctionDeclaration "f" [mkParam "n" intType None] intType earlyReturnBody;
     ExpressionStatement (FunctionCall (Identifier "f") [NumberLiteral 5 "int"])].

(** The context of a call with argument [x], and the one of a block. *)
Definition callee (x : float) (s : state) : state :=
  with_chain
    (cons (mkContext (<["n" := mkBinding intType (VNumber x) true]> ∅) ∅)) s.

Definition inBlock (s : state) : state := with_chain (cons emptyContext) s.

Definition knowsF (s : state) : Prop :=
  resolveFunction "f" (chain s) = Some earlyReturnFunction.

Definition neverAnswers (host : Host) (fuel : nat) : Prop :=
  forall s x, knowsF s ->
    executeStatement host fuel earlyReturnBody (callee x s) = OutOfFuel.

(** The binding of [name] that a walk from the current context towards the
    global one meets first: context [i] of the chain binds [name] to [b] and
    no context before it binds [name]. *)
Definition innermost (name : string) (l : list ExecutionContext) (i : nat)
  (b : Binding) : Prop :=
  (exists c, l !! i = Some c /\ variables c !! name = Some b)
  /\ forall j c, (j < i)%nat -> l !! j = Some c -> variables c !! name = None.

(** No context of the chain binds [name]. *)
Definition unbound (name : string) (l : list ExecutionContext) : Prop :=
  forall c, In c l -> variables c !! name = None.

(** A program that loops. *)
Definition endlessSource : string := "while (true) { }".

Definition endlessProgram : program :=
  Program [WhileStatement (BooleanLiteral true) (BlockStatement [])].

(** Evaluation of a program from [this] neither completes nor throws,
    whatever the fuel. *)
Definition runsForEver (ast : program) (this : Interpreter) : Prop :=
  forall host efuel, executeAST host efuel ast (start this) = OutOfFuel.

(** [execute] returns no record for [code], whatever the fuel. *)
Definition returnsNothing (code : string) (this : Interpreter) : Prop :=
  forall host pfuel efuel, run host pfuel efuel code this = None.

(** A step with every error it throws marked: the message passed through
    [h], the state at the fault through [g]. *)
Definition rethrown {A} (h : string -> string) (g : state -> state)
  (m : E A) : E A :=
  fun s =>
    match m s with
    | Throw msg s' => Throw (h msg) (g s')
    | r => r
    end.

Definition marked {X A} (h : string -> string) (g : state -> state)
  (evaluate : X -> E A) : X -> E A :=
  fun x => rethrown h g (evaluate x).

(** [m'] is [m] built on marked steps, and all [m] does with the fault of
    such a step is to pass it on: where [m] completes or gives no answer
    [m'] does the same, and where [m] throws, [m'] throws the same error in
    the same state (the error is [m]'s own) or that error marked (it is the
    fault of a step, as the step raised it). *)
Definition passesFaults {A} (h : string -> string) (g : state -> state)
  (m m' : E A) : Prop :=
  forall s,
    match m s with
    | Normal v s1 => m' s = Normal v s1
    | Throw msg s1 => m' s = Throw msg s1 \/ m' s = Throw (h msg) (g s1)
    | OutOfFuel => m' s = OutOfFuel
    end.

(** Definitions for the further properties of the code. *)

(** A step keeps a relation between the state it starts in and the state
    it ends in: [R] when it completes, [T] when it throws. *)
Definition keeps {A} (R T : state -> state -> Prop) (m : E A) : Prop :=
  forall s,
    match m s with
    | Normal _ s' => R s s'
    | Throw _ s' => T s s'
    | OutOfFuel => True
    end.

(** What the relations must satisfy to be kept by the whole evaluator:
    [Re] by expressions, [Rs] by statements, [Rt] by what throws. *)
Record Frame (Re Rs Rt : state -> state -> Prop) : Prop :=
  mkFrame {
    fr_refl : forall s, Re s s;
    fr_trans : forall a b c, Re a b -> Re b c -> Re a c;
    fr_trans_s : forall a b c, Rs a b -> Rs b c -> Rs a c;
    fr_sub : forall a b, Re a b -> Rs a b;
    fr_throw_refl : forall s, Rt s s;
    fr_throw : forall a b c, Rs a b -> Rt b c -> Rt a c;
    fr_enter_throw :
      forall c s s', Rt (with_chain (cons c) s) s' -> Rt s s';
    fr_scope :
      forall c s s', Rs (with_chain (cons c) s) s' ->
                     Re s (with_chain (@tail _) s');
    fr_output :
      forall s line, Re s (mkState (chain s) (output s ++ [line]) (allocated s));
    fr_allocate :
      forall s, Re s (mkState (chain s) (output s) (S (allocated s)));
    fr_setVariable :
      forall s name b,
        Rs s (with_chain (in_current (fun c =>
                mkContext (<[name := b]> (variables c)) (functions c))) s);
    fr_setFunction :
      forall s name f,
        Rs s (with_chain (in_current (fun c =>
                mkContext (variables c) (<[name := f]> (functions c)))) s);
    fr_write :
      forall s name i b v,
        lookupVariable name (chain s) = Some (i, b) -> b_mutable b = true ->
        Re s (with_chain (alter (storeValue name v) i) s)
  }.

(** What an assignment may change of a binding: the value of a mutable one. *)
Definition keptBinding (b b' : Binding) : Prop :=
  b_type b' = b_type b /\ b_mutable b' = b_mutable b
  /\ (b_mutable b = false -> b_value b' = b_value b).

(** The same functions, and the same variables up to [keptBinding]. *)
Definition keptContext (c c' : ExecutionContext) : Prop :=
  functions c' = functions c
  /\ forall name,
       option_Forall2 keptBinding (variables c !! name) (variables c' !! name).

Definition keptChain (s s' : state) : Prop :=
  Forall2 keptContext (chain s) (chain s').

Definition keptParents (s s' : state) : Prop :=
  Forall2 keptContext (tail (chain s)) (tail (chain s')).

Definition anyState (s s' : state) : Prop := True.

(** The global context of a state: the last context of its chain. *)
Definition glob (s : state) : ExecutionContext :=
  List.last (chain s) emptyContext.

Definition namesWithin (c c' : ExecutionContext) : Prop :=
  dom (variables c) ⊆ dom (variables c')
  /\ dom (functions c) ⊆ dom (functions c').

Definition globalGrows (s s' : state) : Prop := namesWithin (glob s) (glob s').

Definition globalGrowsLevel (s s' : state) : Prop :=
  length (chain s) = length (chain s') /\ globalGrows s s'.

Definition opensScope (st : stmt) : bool :=
  match st with
  | BlockStatement _ | ForStatement _ _ _ _ => true
  | _ => false
  end.

Definition returns (x : string) : stmt :=
  BlockStatement [ReturnStatement (Some (Identifier x))].

(** A call site inside a block that declares [x]; [g] is a function of the
    global context, where [x] is not bound. *)
Definition callSite : state :=
  mkState
    [mkContext (<["x" := mkBinding intType (VNumber 7) true]> ∅) ∅;
     mkContext ∅ (<["g" := UserDefined "g" [] intType (returns "x")]> ∅)]
    [] 0.

Definition isNaNValue (v : value) : bool :=
  match v with
  | VNumber n => Num.isNaN n
  | _ => false
  end.

Definition typeError (from to : string) : CompileError :=
  mkCompileError 1 1 ("Cannot assign " +:+ from +:+ " to " +:+ to) "error".

(** An initializer the type checker gives the type [unknown]. *)
Definition untyped (global : ExecutionContext) (e : expr) : bool :=
  match e with
  | Identifier x =>
      match variables global !! x with
      | Some _ => false
      | None => true
      end
  | ObjectLiteral _ | UnaryExpression _ _ | AssignmentExpression _ _
  | FunctionCall _ _ | ArrayAccess _ _ | PropertyAccess _ _ => true
  | _ => false
  end.

Definition isQuote (t : string) : bool :=
  String.eqb t Str.dquote || String.eqb t Str.squote.

(** The line feed, which [execute] splits the text at. *)
Definition LF : ascii := ascii_of_nat 10.

(** Two program texts, one after the other on lines of their own. *)
Definition joinLines (a b : string) : string := a +:+ String LF b.

(** The interpreter with another output buffer. *)
Definition withOutput (o : list string) (this : HackScriptInterpreter.Interpreter)
  : HackScriptInterpreter.Interpreter :=
  HackScriptInterpreter.mkInterpreter (HackScriptInterpreter.variables this) (HackScriptInterpreter.functions this) o.

(** A text between double quotes, and the line that prints it. *)
Definition quoted (text : string) : string :=
  Str.dquote +:+ text +:+ Str.dquote.

Definition printLine (text : string) : string :=
  "print(" +:+ quoted text +:+ ")".

(** No character of the text ends a line. *)
Definition noLineTerminator (s : string) : bool :=
  Str.all (fun c => negb (Re.is_line_terminator c)) s.

(** A line of spaces, or a line whose first characters after its leading
    spaces are [//]. *)
Definition isCommentOrBlank (line : string) : bool :=
  Str.all Re.is_space line || Str.startsWith "//" (Text.trimStart line).

(** What a token of [tokenize] can be: a block comment, one of the
    operators and punctuation marks of the token expression, a word, or one
    character. *)
Definition tokenClass (t : string) : bool :=
  Str.startsWith "/*" t
  || Str.mem t (Tokenizer.two_char_operators ++ Tokenizer.one_char_tokens)
  || (Str.nonempty t && Str.all Re.is_word t)
  || (String.length t =? 1)%nat.

(** The bindings a call makes when every parameter has an argument. *)
Fixpoint bindArguments (params : list Param) (args : list value)
  (vars : gmap string Binding) : gmap string Binding :=
  match params, args with
  | param :: params', a :: args' =>
      bindArguments params' args'
        (<[param_name param := mkBinding (param_type param) a true]> vars)
  | _, _ => vars
  end.

(** An outcome that is the error of an exhausted call stack. *)
Definition overflows {A} (o : outcome A) : Prop :=
  exists s, o = Throw stackOverflow s.

(** A deeper stack changes what a step does only where the stack was
    exhausted. *)
Definition deeper {A} (m m' : E A) : Prop :=
  forall s, overflows (m s) \/ m s = m' s.

(** The body of the function with the early return exhausts a stack of
    [depth] frames, whatever its argument. *)
Definition bodyOverflows (host : Host) (fuel depth : nat) : Prop :=
  forall s x, knowsF s ->
    overflows
      (executeStatementWithin host depth fuel earlyReturnBody (callee x s)).

(** ** The tokenizer *)

Section TokenizerFacts.

Lemma span_length p s :
  String.length (fst (Str.span p s)) + String.length (snd (Str.span p s))
  = String.length s.
Proof.
  induction s as [|c r IH]; simpl; [reflexivity|].
  destruct (p c); simpl; [|reflexivity].
  destruct (Str.span p r) as [a b]; simpl in *; lia.
Qed.

Lemma skip_length n s : String.length (Str.skip n s) = String.length s - n.
Proof.
  revert s; induction n as [|n IH]; intros [|c r]; unfold Str.skip;
    fold Str.skip; simpl; auto with lia.
Qed.

Lemma block_comment_tail_length s b rest :
  Tokenizer.block_comment_tail s = Some (b, rest) ->
  String.length rest < String.length s.
Proof.
  revert b rest; induction s as [|c r IH];
    cbn [Tokenizer.block_comment_tail]; intros b rest H; [discriminate|].
  destruct (Ascii.eqb c "*" && Str.startsWith "/" r).
  - injection H as <- <-. rewrite skip_length. simpl. lia.
  - destruct (Tokenizer.block_comment_tail r) as [[b' rest']|]; [|discriminate].
    inversion H; subst. specialize (IH _ _ eq_refl). simpl. lia.
Qed.

Lemma prefix_length a s : Str.startsWith a s = true -> String.length a <= String.length s.
Proof.
  revert s; induction a as [|c a IH]; intros s H; simpl; [lia|].
  destruct s as [|d s]; simpl in H; [discriminate|].
  apply andb_true_iff in H as [_ H].
  specialize (IH _ H). simpl. lia.
Qed.

(** Every match of the token expression consumes at least one character. *)
Lemma match_token_shorter s t rest :
  Tokenizer.match_token s = Some (t, rest) ->
  String.length rest < String.length s.
Proof.
  unfold Tokenizer.match_token.
  pose proof (span_length Re.is_space s) as Hws.
  destruct (Str.span Re.is_space s) as [ws after_ws]; simpl in Hws.
  destruct ws as [|w ws'] eqn:Ews; cbn [Str.nonempty].
  2:{ intros H; injection H as <- <-. simpl in *. lia. }
  destruct (Str.startsWith "//" s) eqn:Hline.
  { pose proof (span_length (fun c => negb (Re.is_line_terminator c))
                  (Str.skip 2 s)) as Hl.
    destruct (Str.span _ (Str.skip 2 s)) as [body r]; simpl in Hl.
    intros H; inversion H; subst.
    apply prefix_length in Hline. rewrite skip_length in Hl. simpl in Hline. lia. }
  destruct (if Str.startsWith "/*" s
            then Tokenizer.block_comment_tail (Str.skip 2 s) else None)
    as [[b r]|] eqn:Hblock.
  { intros H; inversion H; subst.
    destruct (Str.startsWith "/*" s); [|discriminate].
    apply block_comment_tail_length in Hblock. rewrite skip_length in Hblock. lia. }
  destruct (Tokenizer.first_prefix
              (Tokenizer.two_char_operators ++ Tokenizer.one_char_tokens) s)
    as [op|] eqn:Hop.
  { intros H; injection H as <- <-. rewrite skip_length.
    unfold Tokenizer.first_prefix in Hop. apply find_some in Hop as [Hin Hpre].
    apply prefix_length in Hpre.
    assert (0 < String.length op).
    { simpl in Hin. repeat (destruct Hin as [<-|Hin]; [simpl; lia|]). destruct Hin. }
    lia. }
  pose proof (span_length Re.is_word s) as Hw.
  destruct (Str.span Re.is_word s) as [w after_w]; simpl in Hw.
  destruct w as [|w0 w']; cbn [Str.nonempty].
  2:{ intros H; injection H as <- <-. simpl in *. lia. }
  pose proof (span_length Re.is_digit s) as Hd.
  destruct (Str.span Re.is_digit s) as [d after_d]; simpl in Hd.
  destruct d as [|d0 d']; cbn [Str.nonempty].
  2:{ destruct after_d as [|c r].
      - intros H; injection H as <- <-. simpl in *. lia.
      - destruct (Ascii.eqb c ".").
        + pose proof (span_length Re.is_digit r) as Hr.
          destruct (Str.span Re.is_digit r) as [d2 r2]; simpl in Hr.
          intros H; injection H as <- <-. simpl in *. lia.
        + intros H; injection H as <- <-. simpl in *. lia. }
  destruct s as [|c r]; [discriminate|].
  destruct (Re.is_line_terminator c); [discriminate|].
  intros H; injection H as <- <-. simpl. lia.
Qed.

(** The scan of [tokenize] never stops short: more fuel than the length of
    the text changes nothing. *)
Lemma match_all_enough fuel s :
  String.length s <= fuel ->
  Tokenizer.match_all fuel s = Tokenizer.match_all (String.length s) s.
Proof.
  revert s. induction fuel as [fuel IH] using lt_wf_ind. intros s Hle.
  destruct s as [|c r]; [destruct fuel; reflexivity|].
  destruct fuel as [|f]; [simpl in Hle; lia|].
  cbn [Tokenizer.match_all String.length].
  destruct (Tokenizer.match_token (String c r)) as [[t rest]|] eqn:Hm.
  - apply match_token_shorter in Hm. simpl in Hm, Hle.
    rewrite (IH f) by lia. rewrite (IH (String.length r)) by lia. reflexivity.
  - simpl in Hle. rewrite (IH f) by lia. reflexivity.
Qed.

(** No token that reaches the parser is whitespace or a line comment. *)
Lemma tokenize_drops_space_and_line_comments code t :
  In t (Tokenizer.tokenize code) ->
  Re.all_space t = false /\ Str.startsWith "//" t = false.
Proof.
  unfold Tokenizer.tokenize. intros H. apply filter_In in H as [_ H].
  unfold Tokenizer.keep_token in H. apply andb_true_iff in H as [H1 H2].
  split; [destruct (Re.all_space t)|destruct (Str.startsWith "//" t)];
    simpl in *; congruence.
Qed.

(** A two-character operator at the head of the text is matched whole. *)
Lemma match_token_two_char_operator op rest :
  In op Tokenizer.two_char_operators ->
  Tokenizer.match_token (op +:+ rest) = Some (op, rest).
Proof.
  intros H. simpl in H.
  repeat (destruct H as [<-|H]; [reflexivity|]). destruct H.
Qed.

End TokenizerFacts.

(** Block comments are matched as one token, and the filter keeps it. *)
Lemma tokenize_block_comment :
  Tokenizer.tokenize "/* note */ let x: int = 1;"
  = ["/* note */"; "let"; "x"; ":"; "int"; "="; "1"; ";"].
Proof. reflexivity. Qed.

(** A literal with a fraction is three tokens: [\w+] comes before the
    number alternative of the token expression. *)
Lemma tokenize_fraction :
  Tokenizer.tokenize "3.14" = ["3"; "."; "14"].
Proof. reflexivity. Qed.

(** C5 (the part the code does not keep): a block comment is not stripped;
    it reaches the parser as a token, and the program is rejected with a
    diagnostic for that token. *)
Theorem block_comment_reaches_parser (host : Host) :
  In "/* note */" (Tokenizer.tokenize "/* note */ let x: int = 1;")
  /\ run host 20 20 "/* note */ let x: int = 1;" constructor
     = Some (mkResult false None None [] []
               (Some [mkCompileError 1 0 "Unexpected token: /* note */" "error"])).
Proof. split; [vm_compute; auto | vm_compute; reflexivity]. Qed.

(** ** The type checker *)

Lemma isAssignable_true_iff (from to : TypeInfo) :
  HackScriptTypeSystem.isAssignable from to = true
  <-> ty_name from = ty_name to
      \/ (ty_name from = "int" /\ ty_name to = "float")
      \/ (ty_nullable to = true /\ ty_nullable from = false).
Proof.
  unfold HackScriptTypeSystem.isAssignable.
  destruct (String.eqb_spec (ty_name from) (ty_name to)) as [Heq|Hne];
    [tauto|].
  destruct (String.eqb_spec (ty_name from) "int") as [Hi|Hi];
    destruct (String.eqb_spec (ty_name to) "float") as [Hf|Hf]; simpl;
    try tauto;
    destruct (ty_nullable to), (ty_nullable from); simpl;
    intuition congruence.
Qed.

(** C2: [isAssignable from to] holds exactly when the names are equal, or
    [from] is int and [to] is float, or [to] is nullable and [from] is not;
    [let x: int = 3.5;] is rejected with one diagnostic of severity error
    (the initializer, lexed as [3 . 5], has the unknown type; a float
    literal node has type float and is rejected as well), and
    [let y: float = 3;] runs with no diagnostic. *)
Theorem isAssignable_spec (host : Host) :
  (forall from to : TypeInfo,
     HackScriptTypeSystem.isAssignable from to = true
     <-> ty_name from = ty_name to
         \/ (ty_name from = "int" /\ ty_name to = "float")
         \/ (ty_nullable to = true /\ ty_nullable from = false))
  /\ run host 20 20 "let x: int = 3.5;" constructor
     = Some (mkResult false None None [] []
               (Some [mkCompileError 1 1 "Cannot assign unknown to int" "error"]))
  /\ (forall global,
        typeCheck global
          (Program [VariableDeclaration "let" "x" intType
                      (Some (NumberLiteral 3.5 "float")) true])
        = [mkCompileError 1 1 "Cannot assign float to int" "error"])
  /\ run host 20 20 "let y: float = 3;" constructor
     = Some (mkResult true (Some VUndefined) None [] [] None).
Proof.
  split; [exact isAssignable_true_iff|].
  split; [vm_compute; reflexivity|].
  split; [intros global; reflexivity|].
  vm_compute; reflexivity.
Qed.

(** ** Statement sequences *)

Section Sequences.

Variable execS : stmt -> E value.

Lemma executeStatements_app pre post r s :
  executeStatements execS (pre ++ post) r s
  = match executeStatements execS pre r s with
    | Normal r1 s1 => executeStatements execS post r1 s1
    | Throw msg s1 => Throw msg s1
    | OutOfFuel => OutOfFuel
    end.
Proof.
  revert r s; induction pre as [|x pre IH]; intros r s; simpl; [reflexivity|].
  unfold bind. destruct (execS x s); auto.
Qed.

(** The value of a sequence that completes is the value of its last
    statement. *)
Lemma executeStatements_last pre last r s v s' :
  executeStatements execS (pre ++ [last]) r s = Normal v s' ->
  exists r1 s1,
    executeStatements execS pre r s = Normal r1 s1
    /\ execS last s1 = Normal v s'.
Proof.
  rewrite executeStatements_app.
  destruct (executeStatements execS pre r s) as [r1 s1| |]; try discriminate.
  simpl. unfold bind, ret. intros H. exists r1, s1. split; [reflexivity|].
  destruct (execS last s1); congruence.
Qed.

End Sequences.

(** ** Fuel *)

Create HintDb fuel.

Section EvaluatorFuel.

Lemma below_refl {A} (m : E A) : below m m.
Proof. intros s. right. reflexivity. Qed.

Lemma below_diverge {A} (m : E A) : below diverge m.
Proof. intros s. left. reflexivity. Qed.

Lemma below_bind {A B} (m m' : E A) (k k' : A -> E B) :
  below m m' -> (forall a, below (k a) (k' a)) -> below (bind m k) (bind m' k').
Proof.
  intros Hm Hk s. unfold bind. destruct (Hm s) as [->| <-]; [left; reflexivity|].
  destruct (m s) as [a s1|msg s1|];
    [apply Hk | right; reflexivity | left; reflexivity].
Qed.

End EvaluatorFuel.

#[local] Hint Resolve below_refl below_diverge : fuel.

Ltac fuel_step :=
  match goal with
  | |- below (bind _ _) (bind _ _) => apply below_bind; [|intros ?]
  | |- below (if ?b then _ else _) (if ?b then _ else _) => destruct b
  | |- below (match ?x with _ => _ end) (match ?x with _ => _ end) => destruct x
  end.

Ltac fuel_tac := repeat fuel_step; auto with fuel.

Section KnotFuel.

Variable host : Host.
Variables execS execS' : stmt -> E value.
Variables execE execE' : expr -> E value.
Hypothesis HS : forall st, below (execS st) (execS' st).
Hypothesis HE : forall e, below (execE e) (execE' e).

Lemma below_executeStatements body r :
  below (executeStatements execS body r) (executeStatements execS' body r).
Proof. revert r; induction body; intros r; simpl; fuel_tac. Qed.

Lemma below_executeExpressions es :
  below (executeExpressions execE es) (executeExpressions execE' es).
Proof. induction es; simpl; fuel_tac. Qed.

Lemma below_executeProperties properties obj :
  below (executeProperties host execE properties obj)
    (executeProperties host execE' properties obj).
Proof.
  revert obj; induction properties as [|[key e] rest IH]; intros obj; simpl;
    fuel_tac.
Qed.

Lemma below_bindParameters params args vars :
  below (bindParameters execE params args vars)
    (bindParameters execE' params args vars).
Proof. revert args vars; induction params; intros args vars; simpl; fuel_tac. Qed.

Lemma below_for_loop n n' condition update body r :
  n <= n' ->
  below (for_loop execS execE n condition update body r)
    (for_loop execS' execE' n' condition update body r).
Proof.
  revert n' r; induction n as [|n IH]; intros n' r Hle; simpl; [fuel_tac|].
  destruct n' as [|n']; [lia|]. simpl. fuel_tac. apply IH. lia.
Qed.

Lemma below_while_loop n n' condition body r :
  n <= n' ->
  below (while_loop execS execE n condition body r)
    (while_loop execS' execE' n' condition body r).
Proof.
  revert n' r; induction n as [|n IH]; intros n' r Hle; simpl; [fuel_tac|].
  destruct n' as [|n']; [lia|]. simpl. fuel_tac. apply IH. lia.
Qed.

Hint Resolve below_executeStatements below_executeExpressions
  below_executeProperties below_bindParameters below_for_loop
  below_while_loop : fuel.

Lemma below_executeStatement_body n n' st :
  n <= n' ->
  below (executeStatement_body execS execE n st)
    (executeStatement_body execS' execE' n' st).
Proof.
  intros Hle. destruct st; simpl;
    unfold executeVariableDeclaration, executeFunctionDeclaration,
      executeIfStatement, executeForStatement, executeWhileStatement,
      executeReturnStatement, executeBlockStatement;
    fuel_tac.
Qed.

Lemma below_executeExpression_body e :
  below (executeExpression_body host execS execE e)
    (executeExpression_body host execS' execE' e).
Proof.
  destruct e; simpl;
    unfold executeBinaryExpression, executeUnaryExpression,
      executeAssignmentExpression, executeFunctionCall, executeUserFunction,
      executeArrayAccess, executePropertyAccess;
    fuel_tac.
Qed.

End KnotFuel.

(** An evaluation that answers within some fuel gives the same answer with
    any larger fuel. *)
Lemma evaluation_fuel (host : Host) (fuel fuel' : nat) :
  fuel <= fuel' ->
  (forall st, below (executeStatement host fuel st) (executeStatement host fuel' st))
  /\ (forall e, below (executeExpression host fuel e) (executeExpression host fuel' e)).
Proof.
  revert fuel'. induction fuel as [|f IH]; intros fuel' Hle.
  - split; intros; apply below_diverge.
  - destruct fuel' as [|f']; [lia|].
    destruct (IH f' ltac:(lia)) as [IHS IHE]. split; intros; simpl.
    + apply below_executeStatement_body; [assumption|assumption|lia].
    + apply below_executeExpression_body; assumption.
Qed.

Section ParserFuel.

Lemma pbelow_refl {A} (m : Parser.M A) : pbelow m m.
Proof. intros pos. right. reflexivity. Qed.

Lemma pbelow_timeout {A} (m : Parser.M A) : pbelow Parser.timeout m.
Proof. intros pos. left. reflexivity. Qed.

Lemma pbelow_bind {A B} (m m' : Parser.M A) (k k' : A -> Parser.M B) :
  pbelow m m' -> (forall a, pbelow (k a) (k' a)) ->
  pbelow (Parser.bind m k) (Parser.bind m' k').
Proof.
  intros Hm Hk pos. unfold Parser.bind.
  destruct (Hm pos) as [->| <-]; [left; reflexivity|].
  destruct (m pos) as [a pos1|msg pos1|];
    [apply Hk | right; reflexivity | left; reflexivity].
Qed.

End ParserFuel.

#[local] Hint Resolve pbelow_refl pbelow_timeout : fuel.

Ltac pfuel_step :=
  match goal with
  | |- pbelow (Parser.bind _ _) (Parser.bind _ _) =>
      apply pbelow_bind; [|intros ?]
  | |- pbelow (if ?b then _ else _) (if ?b then _ else _) => destruct b
  | |- pbelow (match ?x with _ => _ end) (match ?x with _ => _ end) => destruct x
  end.

Ltac pfuel_tac := repeat pfuel_step; auto with fuel.

Section GrammarFuel.

Variable host : Host.
Variable tokens : list string.

Lemma pbelow_genericParams_loop (sub sub' : Parser.M TypeInfo) n n' acc :
  pbelow sub sub' -> n <= n' ->
  pbelow (Parser.genericParams_loop tokens sub n acc)
    (Parser.genericParams_loop tokens sub' n' acc).
Proof.
  intros Hsub. revert n' acc.
  induction n as [|n IH]; intros n' acc Hle; simpl; [pfuel_tac|].
  destruct n' as [|n']; [lia|]. simpl. pfuel_tac. apply IH. lia.
Qed.

Lemma pbelow_parseType f f' :
  f <= f' -> pbelow (Parser.parseType tokens f) (Parser.parseType tokens f').
Proof.
  revert f'. induction f as [|f IH]; intros f' Hle; simpl; [pfuel_tac|].
  destruct f' as [|f']; [lia|]. simpl. pfuel_tac.
  apply pbelow_genericParams_loop; [apply IH|]; lia.
Qed.

Lemma pbelow_stringLiteral_loop n n' quote value :
  n <= n' ->
  pbelow (Parser.stringLiteral_loop tokens n quote value)
    (Parser.stringLiteral_loop tokens n' quote value).
Proof.
  revert n' value. induction n as [|n IH]; intros n' value Hle; simpl;
    [pfuel_tac|].
  destruct n' as [|n']; [lia|]. simpl. pfuel_tac. apply IH. lia.
Qed.

Lemma pbelow_parseStringLiteral n n' :
  n <= n' ->
  pbelow (Parser.parseStringLiteral tokens n) (Parser.parseStringLiteral tokens n').
Proof.
  intros Hle. unfold Parser.parseStringLiteral. pfuel_tac.
  apply pbelow_stringLiteral_loop. lia.
Qed.

Section Expressions.

Variables pe pe' : Parser.M expr.
Hypothesis Hpe : pbelow pe pe'.

Lemma pbelow_expressionList_loop n n' close acc :
  n <= n' ->
  pbelow (Parser.expressionList_loop tokens pe n close acc)
    (Parser.expressionList_loop tokens pe' n' close acc).
Proof.
  revert n' acc. induction n as [|n IH]; intros n' acc Hle; simpl; [pfuel_tac|].
  destruct n' as [|n']; [lia|]. simpl. pfuel_tac. apply IH. lia.
Qed.

Lemma pbelow_properties_loop n n' acc :
  n <= n' ->
  pbelow (Parser.properties_loop tokens pe n acc)
    (Parser.properties_loop tokens pe' n' acc).
Proof.
  revert n' acc. induction n as [|n IH]; intros n' acc Hle; simpl; [pfuel_tac|].
  destruct n' as [|n']; [lia|]. simpl. pfuel_tac. apply IH. lia.
Qed.

Lemma pbelow_parsePrimaryExpression n n' :
  n <= n' ->
  pbelow (Parser.parsePrimaryExpression host tokens pe n)
    (Parser.parsePrimaryExpression host tokens pe' n').
Proof.
  intros Hle.
  unfold Parser.parsePrimaryExpression, Parser.parseArrayLiteral,
    Parser.parseObjectLiteral.
  pfuel_tac;
    auto using pbelow_expressionList_loop, pbelow_properties_loop,
      pbelow_parseStringLiteral.
Qed.

Lemma pbelow_postfix_loop n n' left :
  n <= n' ->
  pbelow (Parser.postfix_loop tokens pe n left)
    (Parser.postfix_loop tokens pe' n' left).
Proof.
  revert n' left. induction n as [|n IH]; intros n' left Hle; simpl;
    [pfuel_tac|].
  destruct n' as [|n']; [lia|]. simpl. pfuel_tac; try (apply IH; lia).
  apply pbelow_expressionList_loop. lia.
Qed.

Lemma pbelow_parseUnaryExpression n n' :
  n <= n' ->
  pbelow (Parser.parseUnaryExpression host tokens pe n)
    (Parser.parseUnaryExpression host tokens pe' n').
Proof.
  revert n'. induction n as [|n IH]; intros n' Hle; simpl; [pfuel_tac|].
  destruct n' as [|n']; [lia|]. simpl. pfuel_tac; try (apply IH; lia).
  unfold Parser.parsePostfixExpression. pfuel_tac.
  - apply pbelow_parsePrimaryExpression. lia.
  - apply pbelow_postfix_loop. lia.
Qed.

Lemma pbelow_binary_level (operand operand' : Parser.M expr) ops n n' :
  pbelow operand operand' -> n <= n' ->
  pbelow (Parser.binary_level tokens operand ops n)
    (Parser.binary_level tokens operand' ops n').
Proof.
  intros Hop Hle. unfold Parser.binary_level. pfuel_tac.
  revert n' Hle. generalize a. induction n as [|n IH]; intros left n' Hle; simpl;
    [pfuel_tac|].
  destruct n' as [|n']; [lia|]. simpl. pfuel_tac. apply IH. lia.
Qed.

Lemma pbelow_parseLogicalOrExpression n n' :
  n <= n' ->
  pbelow (Parser.parseLogicalOrExpression host tokens pe n)
    (Parser.parseLogicalOrExpression host tokens pe' n').
Proof.
  intros Hle.
  unfold Parser.parseLogicalOrExpression, Parser.parseLogicalAndExpression,
    Parser.parseEqualityExpression, Parser.parseRelationalExpression,
    Parser.parseAdditiveExpression, Parser.parseMultiplicativeExpression.
  repeat (apply pbelow_binary_level; [|exact Hle]).
  apply pbelow_parseUnaryExpression. exact Hle.
Qed.

Lemma pbelow_parseAssignmentExpression n n' :
  n <= n' ->
  pbelow (Parser.parseAssignmentExpression host tokens pe n)
    (Parser.parseAssignmentExpression host tokens pe' n').
Proof.
  revert n'. induction n as [|n IH]; intros n' Hle; simpl; [pfuel_tac|].
  destruct n' as [|n']; [lia|]. simpl. pfuel_tac; try (apply IH; lia).
  apply pbelow_parseLogicalOrExpression. lia.
Qed.

End Expressions.

Lemma pbelow_parseExpression f f' :
  f <= f' ->
  pbelow (Parser.parseExpression host tokens f)
    (Parser.parseExpression host tokens f').
Proof.
  revert f'. induction f as [|f IH]; intros f' Hle; simpl; [pfuel_tac|].
  destruct f' as [|f']; [lia|]. simpl.
  apply pbelow_parseAssignmentExpression; [apply IH|]; lia.
Qed.

Lemma pbelow_parseVariableDeclaration n n' :
  n <= n' ->
  pbelow (Parser.parseVariableDeclaration host tokens n)
    (Parser.parseVariableDeclaration host tokens n').
Proof.
  intros Hle. unfold Parser.parseVariableDeclaration.
  pfuel_tac; auto using pbelow_parseType, pbelow_parseExpression.
Qed.

Lemma pbelow_parameterList_loop f f' n n' params :
  f <= f' -> n <= n' ->
  pbelow (Parser.parameterList_loop host tokens f n params)
    (Parser.parameterList_loop host tokens f' n' params).
Proof.
  intros Hf. revert n' params.
  induction n as [|n IH]; intros n' params Hle; simpl; [pfuel_tac|].
  destruct n' as [|n']; [lia|]. simpl.
  pfuel_tac; auto using pbelow_parseType, pbelow_parseExpression;
    apply IH; lia.
Qed.

Lemma pbelow_parseReturnStatement n n' :
  n <= n' ->
  pbelow (Parser.parseReturnStatement host tokens n)
    (Parser.parseReturnStatement host tokens n').
Proof.
  intros Hle. unfold Parser.parseReturnStatement.
  pfuel_tac; auto using pbelow_parseExpression.
Qed.

Lemma pbelow_parseExpressionStatement n n' :
  n <= n' ->
  pbelow (Parser.parseExpressionStatement host tokens n)
    (Parser.parseExpressionStatement host tokens n').
Proof.
  intros Hle. unfold Parser.parseExpressionStatement.
  pfuel_tac; auto using pbelow_parseExpression.
Qed.

Section Statements.

Variables ps ps' : Parser.M stmt.
Hypothesis Hps : pbelow ps ps'.

Lemma pbelow_parseBlockStatement n n' :
  n <= n' ->
  pbelow (Parser.parseBlockStatement tokens ps n)
    (Parser.parseBlockStatement tokens ps' n').
Proof.
  intros Hle. unfold Parser.parseBlockStatement. pfuel_tac.
  generalize (@nil stmt). revert n' Hle.
  induction n as [|n IH]; intros n' Hle acc; simpl; [pfuel_tac|].
  destruct n' as [|n']; [lia|]. simpl. pfuel_tac. apply IH. lia.
Qed.

Lemma pbelow_parseIfStatement n n' :
  n <= n' ->
  pbelow (Parser.parseIfStatement host tokens ps n)
    (Parser.parseIfStatement host tokens ps' n').
Proof.
  revert n'. induction n as [|n IH]; intros n' Hle; simpl; [pfuel_tac|].
  destruct n' as [|n']; [lia|]. simpl.
  pfuel_tac;
    auto using pbelow_parseExpression, pbelow_parseBlockStatement with lia.
Qed.

Lemma pbelow_parseStatement_body n n' :
  n <= n' ->
  pbelow (Parser.parseStatement_body host tokens ps n)
    (Parser.parseStatement_body host tokens ps' n').
Proof.
  intros Hle.
  unfold Parser.parseStatement_body, Parser.parseFunctionDeclaration,
    Parser.parseForStatement, Parser.parseWhileStatement,
    Parser.parseParameterList.
  pfuel_tac;
    auto using pbelow_parseVariableDeclaration, pbelow_parameterList_loop,
      pbelow_parseType, pbelow_parseExpression, pbelow_parseBlockStatement,
      pbelow_parseIfStatement, pbelow_parseReturnStatement,
      pbelow_parseExpressionStatement.
Qed.

End Statements.

Lemma pbelow_parseStatement f f' :
  f <= f' ->
  pbelow (Parser.parseStatement host tokens f)
    (Parser.parseStatement host tokens f').
Proof.
  revert f'. induction f as [|f IH]; intros f' Hle; simpl; [pfuel_tac|].
  destruct f' as [|f']; [lia|]. simpl.
  apply pbelow_parseStatement_body; [apply IH|]; lia.
Qed.

Lemma parseProgram_loop_fuel f f' n n' statements errors pos r :
  f <= f' -> n <= n' ->
  Parser.parseProgram_loop host tokens f n statements errors pos = Some r ->
  Parser.parseProgram_loop host tokens f' n' statements errors pos = Some r.
Proof.
  intros Hf. revert n' statements errors pos.
  induction n as [|n IH]; intros n' statements errors pos Hle; simpl;
    [discriminate|].
  destruct n' as [|n']; [lia|]. simpl.
  destruct (pos <? length tokens)%nat; [|auto].
  destruct (pbelow_parseStatement f f' Hf pos) as [->| <-]; [discriminate|].
  destruct (Parser.parseStatement host tokens f pos); [| |discriminate];
    apply IH; lia.
Qed.

End GrammarFuel.

(** A parse that answers within some fuel gives the same answer with any
    larger fuel. *)
Lemma parse_fuel (host : Host) (fuel fuel' : nat) (code : string) r :
  fuel <= fuel' ->
  Parser.parse host fuel code = Some r ->
  Parser.parse host fuel' code = Some r.
Proof.
  intros Hle. unfold Parser.parse, Parser.parseProgram.
  apply parseProgram_loop_fuel; exact Hle.
Qed.

(** The record [execute] returns does not depend on the fuel, once there is
    enough of it for a record to be returned. *)
Lemma run_fuel (host : Host) (pfuel pfuel' efuel efuel' : nat) (code : string)
  (this : Interpreter) (r : ExecutionResult) :
  pfuel <= pfuel' -> efuel <= efuel' ->
  run host pfuel efuel code this = Some r ->
  run host pfuel' efuel' code this = Some r.
Proof.
  intros Hp He. unfold run, execute.
  destruct (Parser.parse host pfuel code) as [[ast errors]|] eqn:Hparse;
    [|discriminate].
  rewrite (parse_fuel _ _ _ _ _ Hp Hparse).
  destruct (0 <? length errors)%nat; [auto|].
  destruct (0 <? length (typeCheck (globalContext this) ast))%nat; [auto|].
  destruct ast as [body]. unfold executeAST.
  pose proof (below_executeStatements _ _
                (proj1 (evaluation_fuel host efuel efuel' He)) body VNull
                (start this)) as [->| <-]; [discriminate|auto].
Qed.

(** ** What evaluation does to the chain and to the output buffer *)



Create HintDb names.

Section Invariants.

Lemma sameNames_trans l1 l2 l3 :
  sameNames l1 l2 -> sameNames l2 l3 -> sameNames l1 l3.
Proof. unfold sameNames; congruence. Qed.

Lemma sameNames_extends l l' : sameNames l l' -> extendsCurrent l l'.
Proof.
  unfold sameNames. destruct l as [|c p], l' as [|c' p']; simpl;
    intros H; try discriminate; [exact I|].
  injection H as Hv Hf Hp. rewrite Hv, Hf. auto.
Qed.

Lemma extendsCurrent_refl l : extendsCurrent l l.
Proof. apply sameNames_extends. reflexivity. Qed.

Lemma extendsCurrent_trans l1 l2 l3 :
  extendsCurrent l1 l2 -> extendsCurrent l2 l3 -> extendsCurrent l1 l3.
Proof.
  destruct l1 as [|c1 p1], l2 as [|c2 p2], l3 as [|c3 p3]; simpl; try tauto.
  intros (Hv & Hf & Hp) (Hv' & Hf' & Hp').
  repeat split; [set_solver | set_solver | eapply sameNames_trans; eauto].
Qed.

Lemma preserves_extends {A} (m : E A) : preservesNames m -> extendsNames m.
Proof.
  intros H s. specialize (H s). destruct (m s); auto.
  destruct H; split; auto using sameNames_extends.
Qed.

Lemma preserves_ret {A} (a : A) : preservesNames (ret a).
Proof. intros s. simpl. split; reflexivity. Qed.

Lemma preserves_throw {A} msg : preservesNames (@throw A msg).
Proof. intros s. simpl. reflexivity. Qed.

Lemma preserves_diverge {A} : preservesNames (@diverge A).
Proof. intros s. exact I. Qed.

Lemma preserves_gets {A} (f : state -> A) : preservesNames (gets f).
Proof. intros s. simpl. split; reflexivity. Qed.

Lemma preserves_lift {A} (r : A + string) : preservesNames (lift r).
Proof. destruct r; [apply preserves_ret | apply preserves_throw]. Qed.

Lemma preserves_bind {A B} (m : E A) (k : A -> E B) :
  preservesNames m -> (forall a, preservesNames (k a)) ->
  preservesNames (bind m k).
Proof.
  intros Hm Hk s. unfold bind. specialize (Hm s).
  destruct (m s) as [a s1|msg s1|]; auto.
  specialize (Hk a s1). destruct Hm as [Hn Ho].
  destruct (k a s1) as [b s2|msg s2|]; auto.
  - destruct Hk. split; [eapply sameNames_trans; eauto | etrans; eauto].
  - etrans; eauto.
Qed.

Lemma extends_bind {A B} (m : E A) (k : A -> E B) :
  extendsNames m -> (forall a, extendsNames (k a)) ->
  extendsNames (bind m k).
Proof.
  intros Hm Hk s. unfold bind. specialize (Hm s).
  destruct (m s) as [a s1|msg s1|]; auto.
  specialize (Hk a s1). destruct Hm as [Hn Ho].
  destruct (k a s1) as [b s2|msg s2|]; auto.
  - destruct Hk. split; [eapply extendsCurrent_trans; eauto | etrans; eauto].
  - etrans; eauto.
Qed.

Lemma preserves_pushOutput line : preservesNames (pushOutput line).
Proof.
  intros s. simpl. split; [reflexivity | apply prefix_app_r; reflexivity].
Qed.

Lemma preserves_allocate : preservesNames allocate.
Proof. intros s. simpl. split; reflexivity. Qed.

Lemma map_names_alter (f : ExecutionContext -> ExecutionContext) i l :
  (forall c, names (f c) = names c) ->
  map names (alter f i l) = map names l.
Proof.
  intros Hf. unfold alter. revert i.
  induction l as [|c l IH]; intros [|i]; simpl; rewrite ?Hf, ?IH; reflexivity.
Qed.

Lemma preserves_writeValue i name v : preservesNames (writeValue i name v).
Proof.
  intros s. simpl. split; [|reflexivity].
  unfold sameNames. symmetry. apply map_names_alter.
  intros c. unfold names. simpl. rewrite dom_alter_L. reflexivity.
Qed.

Lemma extends_setVariable name b : extendsNames (setVariable name b).
Proof.
  intros s. simpl. split; [|reflexivity].
  destruct (chain s) as [|c p]; simpl; [exact I|].
  rewrite dom_insert_L. repeat split; [set_solver | set_solver].
Qed.

Lemma extends_setFunction name f : extendsNames (setFunction name f).
Proof.
  intros s. simpl. split; [|reflexivity].
  destruct (chain s) as [|c p]; simpl; [exact I|].
  rewrite dom_insert_L. repeat split; [set_solver | set_solver].
Qed.

(** A step run in a context of its own, dropped afterwards, leaves the
    names of the chain it started from as they were. *)
Lemma preserves_scoped {A} (c : ExecutionContext) (m : E A) :
  extendsNames m ->
  preservesNames (do _ <- enter c; do r <- m; do _ <- leave; ret r).
Proof.
  intros Hm s. unfold bind, enter, leave, modify, ret, with_chain. simpl.
  specialize (Hm (mkState (c :: chain s) (output s) (allocated s))).
  destruct (m _) as [a s1|msg s1|]; simpl in *; auto.
  destruct Hm as [Hn Ho]. split; [|exact Ho].
  destruct (chain s1) as [|c1 p1]; simpl in *; tauto.
Qed.

End Invariants.

#[local] Hint Resolve preserves_ret preserves_throw preserves_diverge
  preserves_gets preserves_lift preserves_pushOutput preserves_allocate
  preserves_writeValue extends_setVariable extends_setFunction
  preserves_extends : names.

(** One step of the proofs below: split a [bind], or take the cases of a
    conditional. *)
Ltac names_step :=
  match goal with
  | |- preservesNames (bind (enter _) _) => apply preserves_scoped
  | |- extendsNames (bind (enter _) _) =>
      apply preserves_extends, preserves_scoped
  | |- preservesNames (bind _ _) => apply preserves_bind; [|intros ?]
  | |- extendsNames (bind _ _) => apply extends_bind; [|intros ?]
  | |- preservesNames (if ?b then _ else _) => destruct b
  | |- extendsNames (if ?b then _ else _) => destruct b
  | |- preservesNames (match ?x with _ => _ end) => destruct x
  | |- extendsNames (match ?x with _ => _ end) => destruct x
  end.

Ltac names_tac := repeat names_step; auto with names.

Section KnotInvariants.

Variable host : Host.
Variable execS : stmt -> E value.
Variable execE : expr -> E value.
Hypothesis HS : forall st, extendsNames (execS st).
Hypothesis HE : forall e, preservesNames (execE e).

Lemma extends_executeStatements body r :
  extendsNames (executeStatements execS body r).
Proof. revert r; induction body; intros r; simpl; names_tac. Qed.

Lemma preserves_executeExpressions es :
  preservesNames (executeExpressions execE es).
Proof. induction es; simpl; names_tac. Qed.

Lemma preserves_executeProperties properties obj :
  preservesNames (executeProperties host execE properties obj).
Proof.
  revert obj; induction properties as [|[key e] rest IH]; intros obj; simpl;
    names_tac.
Qed.

Lemma preserves_bindParameters params args vars :
  preservesNames (bindParameters execE params args vars).
Proof.
  revert args vars; induction params; intros args vars; simpl; names_tac.
Qed.

Lemma preserves_callBuiltin f args : preservesNames (callBuiltin host f args).
Proof. unfold callBuiltin. destruct f; names_tac. Qed.

Lemma extends_for_loop n condition update body r :
  extendsNames (for_loop execS execE n condition update body r).
Proof. revert r; induction n; intros r; simpl; names_tac. Qed.

Lemma extends_while_loop n condition body r :
  extendsNames (while_loop execS execE n condition body r).
Proof. revert r; induction n; intros r; simpl; names_tac. Qed.

Hint Resolve extends_executeStatements preserves_executeExpressions
  preserves_executeProperties preserves_bindParameters preserves_callBuiltin
  extends_for_loop extends_while_loop : names.

Lemma extends_executeStatement_body n st :
  extendsNames (executeStatement_body execS execE n st).
Proof.
  destruct st; simpl;
    unfold executeVariableDeclaration, executeFunctionDeclaration,
      executeIfStatement, executeForStatement, executeWhileStatement,
      executeReturnStatement, executeBlockStatement;
    names_tac.
Qed.

Lemma preserves_executeExpression_body e :
  preservesNames (executeExpression_body host execS execE e).
Proof.
  destruct e; simpl;
    unfold executeBinaryExpression, executeUnaryExpression,
      executeAssignmentExpression, executeFunctionCall, executeUserFunction,
      executeArrayAccess, executePropertyAccess, resolveVariable,
      resolveVariableReference;
    names_tac.
Qed.

End KnotInvariants.

(** Every statement extends at most the current context, and every
    expression leaves all names as they were, whatever the fuel. *)
Lemma evaluation_names (host : Host) (fuel : nat) :
  (forall st, extendsNames (executeStatement host fuel st))
  /\ (forall e, preservesNames (executeExpression host fuel e)).
Proof.
  induction fuel as [|f [IHS IHE]]; simpl.
  - split; intros; apply preserves_extends || idtac; apply preserves_diverge.
  - split; intros.
    + apply extends_executeStatement_body; assumption.
    + apply preserves_executeExpression_body; assumption.
Qed.

(** The same on a bounded call stack. *)
Lemma evaluation_names_within (host : Host) (depth fuel : nat) :
  (forall st, extendsNames (executeStatementWithin host depth fuel st))
  /\ (forall e, preservesNames (executeExpressionWithin host depth fuel e)).
Proof.
  induction depth as [|d [IHS IHE]]; simpl.
  - split; intros; apply preserves_extends || idtac; apply preserves_throw.
  - split; intros.
    + apply extends_executeStatement_body; assumption.
    + apply preserves_executeExpression_body; assumption.
Qed.

(** ** Declarations *)

Lemma getDefaultValue_cases (type : TypeInfo) :
  (ty_name type = "int" -> getDefaultValue type = VNumber 0)
  /\ (ty_name type = "float" -> getDefaultValue type = VNumber 0.0)
  /\ (ty_name type = "string" -> getDefaultValue type = VString "")
  /\ (ty_name type = "bool" -> getDefaultValue type = VBoolean false)
  /\ (ty_name type = "char"
      -> getDefaultValue type = VString (String (ascii_of_nat 0) ""))
  /\ (~ In (ty_name type) ["int"; "float"; "string"; "bool"; "char"]
      -> getDefaultValue type = VNull).
Proof.
  unfold getDefaultValue.
  repeat split; try (intros ->; reflexivity).
  intros H. simpl in H.
  repeat match goal with
         | |- context [String.eqb ?a ?b] =>
             destruct (String.eqb_spec a b); [exfalso; intuition congruence|]
         end.
  destruct (ty_nullable type); reflexivity.
Qed.

(** C6 as stated fails for the declared type char: the value installed is
    the one-character string holding U+0000, not null. *)
Lemma char_default_is_not_null :
  match executeStatement silentHost 1
          (VariableDeclaration "let" "c" charType None true) (start constructor)
  with
  | Normal _ s =>
      lookupVariable "c" (chain s)
      = Some (0, mkBinding charType (VString (String (ascii_of_nat 0) "")) true)
  | _ => False
  end.
Proof. vm_compute. reflexivity. Qed.

(** C6, amended: a declaration with no initializer installs, in the current
    context, a binding of the declared type and mutability whose value is 0
    for int, 0.0 for float, the empty string for string, false for bool, the
    string holding U+0000 for char, and null for every other declared type. *)
Theorem declaration_without_initializer (host : Host) (fuel : nat)
  (keyword name : string) (type : TypeInfo) (mutable : bool) (s : state)
  (c : ExecutionContext) (parent : list ExecutionContext) :
  chain s = c :: parent ->
  executeStatement host (S fuel)
    (VariableDeclaration keyword name type None mutable) s
  = Normal VUndefined
      (mkState
         (mkContext
            (<[name := mkBinding type (getDefaultValue type) mutable]> (variables c))
            (functions c) :: parent)
         (output s) (allocated s))
  /\ (ty_name type = "int" -> getDefaultValue type = VNumber 0)
  /\ (ty_name type = "float" -> getDefaultValue type = VNumber 0.0)
  /\ (ty_name type = "string" -> getDefaultValue type = VString "")
  /\ (ty_name type = "bool" -> getDefaultValue type = VBoolean false)
  /\ (ty_name type = "char"
      -> getDefaultValue type = VString (String (ascii_of_nat 0) ""))
  /\ (~ In (ty_name type) ["int"; "float"; "string"; "bool"; "char"]
      -> getDefaultValue type = VNull).
Proof.
  intros Hchain. split; [|apply getDefaultValue_cases].
  cbn. unfold bind, ret, setVariable, modify, with_chain. rewrite Hchain.
  reflexivity.
Qed.

Lemma declaration_without_initializer_witness :
  executeStatement silentHost 1
    (VariableDeclaration "let" "n" intType None true) (start constructor)
  = Normal VUndefined
      (mkState
         [mkContext
            (<["n" := mkBinding intType (getDefaultValue intType) true]>
               (variables (globalContext constructor)))
            (functions (globalContext constructor))]
         [] 0)
  /\ getDefaultValue intType = VNumber 0.
Proof.
  destruct (declaration_without_initializer silentHost 0 "let" "n" intType true
              (start constructor) (globalContext constructor) [] eq_refl)
    as (H & Hint & _).
  split; [exact H | apply Hint; reflexivity].
Defined.

(** ** Functions and [return] *)


(** C8: the recursive factorial of the syntax guide, called as
    [factorial(5)], evaluates to 120, with any fuel from 40 on. *)
Theorem factorial_5 (host : Host) (pfuel efuel : nat) :
  40 <= pfuel -> 40 <= efuel ->
  run host pfuel efuel factorialSource constructor
  = Some (mkResult true (Some (VNumber 120)) None [] [] None).
Proof.
  intros Hp He. apply (run_fuel host 40 pfuel 40 efuel); [exact Hp|exact He|].
  vm_compute. reflexivity.
Qed.

Lemma factorial_5_witness :
  run silentHost 64 64 factorialSource constructor
  = Some (mkResult true (Some (VNumber 120)) None [] [] None).
Proof. apply (factorial_5 silentHost 64 64); lia. Defined.

(** C9: a return statement yields the value of its expression, or null, and
    nothing more: the statements after it in the block still run, the value
    of a block that completes is the value of its last statement, and so a
    call returns the value of the last statement its body executed. *)
Theorem return_does_not_exit (host : Host) :
  (forall fuel e s,
     executeStatement host (S fuel) (ReturnStatement (Some e)) s
     = executeExpression host fuel e s)
  /\ (forall fuel s,
        executeStatement host (S fuel) (ReturnStatement None) s = Normal VNull s)
  /\ (forall fuel e rest r s v s1,
        executeStatement host fuel (ReturnStatement e) s = Normal v s1 ->
        executeStatements (executeStatement host fuel) (ReturnStatement e :: rest) r s
        = executeStatements (executeStatement host fuel) rest v s1)
  /\ (forall fuel pre last r s v s',
        executeStatements (executeStatement host fuel) (pre ++ [last]) r s
        = Normal v s' ->
        exists r1 s1,
          executeStatements (executeStatement host fuel) pre r s = Normal r1 s1
          /\ executeStatement host fuel last s1 = Normal v s')
  /\ run host 30 30
       "func f() -> int { return 1; print('after'); return 2; } f();" constructor
     = Some (mkResult true (Some (VNumber 2)) None ["after"] [] None).
Proof.
  split; [reflexivity|].
  split; [reflexivity|].
  split.
  { intros fuel e rest r s v s1 H. simpl. unfold bind. rewrite H. reflexivity. }
  split; [intros *; apply executeStatements_last|].
  vm_compute. reflexivity.
Qed.

(** *** The same function with an early return

    Since [return] does not leave the body, the recursive call of this
    variant is reached whatever [n] is: the evaluation has no answer with
    any fuel.  (In JavaScript the recursion ends in a stack overflow, which
    [execute] reports as a runtime error.) *)

Section EarlyReturn.

Variable host : Host.

Lemma parse_earlyReturn :
  Parser.parse host 40 earlyReturnSource = Some (earlyReturnProgram, []).
Proof. vm_compute. reflexivity. Qed.

Lemma earlyReturn_if f s x :
  executeStatement host (S (S (S (S f))))
    (IfStatement (BinaryExpression "<=" (Identifier "n") (NumberLiteral 1 "int"))
       (BlockStatement [ReturnStatement (Some (NumberLiteral 1 "int"))]) None)
    (inBlock (callee x s))
  = Normal (if PrimFloat.leb x 1 then VNumber 1 else VNull) (inBlock (callee x s)).
Proof. vm_compute. destruct (PrimFloat.leb x 1); reflexivity. Qed.

Lemma earlyReturn_n f s x :
  executeExpression host (S f) (Identifier "n") (inBlock (callee x s))
  = Normal (VNumber x) (inBlock (callee x s)).
Proof. vm_compute. reflexivity. Qed.

Lemma earlyReturn_argument f s x :
  executeExpression host (S (S f))
    (BinaryExpression "-" (Identifier "n") (NumberLiteral 1 "int"))
    (inBlock (callee x s))
  = Normal (VNumber (PrimFloat.sub x 1)) (inBlock (callee x s)).
Proof. vm_compute. reflexivity. Qed.

Lemma knowsF_inner s x : knowsF s -> knowsF (inBlock (callee x s)).
Proof. unfold knowsF. intros H. vm_compute in H |- *. exact H. Qed.

Lemma recursive_call_never_answers fuel s x :
  neverAnswers host fuel -> knowsF s ->
  executeExpression host (S fuel)
    (FunctionCall (Identifier "f")
       [BinaryExpression "-" (Identifier "n") (NumberLiteral 1 "int")])
    (inBlock (callee x s))
  = OutOfFuel.
Proof.
  intros IH Hf.
  cbn [executeExpression executeExpression_body].
  unfold executeFunctionCall. cbn [executeExpressions].
  unfold bind at 1. unfold bind at 1.
  destruct (proj2 (evaluation_fuel host fuel (2 + fuel) ltac:(lia))
              (BinaryExpression "-" (Identifier "n") (NumberLiteral 1 "int"))
              (inBlock (callee x s))) as [->| ->]; [reflexivity|].
  simpl plus. rewrite earlyReturn_argument. cbn [ret bind gets].
  pose proof (knowsF_inner s x Hf) as Hin. unfold knowsF in Hin. rewrite Hin.
  unfold earlyReturnFunction, executeUserFunction.
  cbn [bindParameters param_defaultValue param_name param_type tail bind ret
       enter modify].
  change (with_chain _ (inBlock (callee x s)))
    with (callee (PrimFloat.sub x 1) (inBlock (callee x s))).
  unfold bind. rewrite (IH _ _ (knowsF_inner s x Hf)). reflexivity.
Qed.

Lemma earlyReturn_body_never_answers fuel : neverAnswers host fuel.
Proof.
  induction fuel as [fuel IH] using lt_wf_ind. intros s x Hf.
  destruct fuel as [|f1]; [reflexivity|].
  cbn [executeStatement executeStatement_body earlyReturnBody].
  unfold executeBlockStatement. unfold bind at 1. unfold enter, modify.
  change (with_chain (cons emptyContext) (callee x s)) with (inBlock (callee x s)).
  cbn [executeStatements]. unfold bind at 1. unfold bind at 1.
  destruct (proj1 (evaluation_fuel host f1 (4 + f1) ltac:(lia))
              (IfStatement
                 (BinaryExpression "<=" (Identifier "n") (NumberLiteral 1 "int"))
                 (BlockStatement [ReturnStatement (Some (NumberLiteral 1 "int"))])
                 None)
              (inBlock (callee x s))) as [->| ->]; [reflexivity|].
  simpl plus. rewrite earlyReturn_if.
  unfold bind at 1.
  destruct f1 as [|f2]; [reflexivity|].
  cbn [executeStatement executeStatement_body executeReturnStatement].
  destruct f2 as [|f3]; [reflexivity|].
  cbn [executeExpression executeExpression_body].
  unfold executeBinaryExpression. unfold bind at 1.
  destruct f3 as [|f4]; [reflexivity|].
  rewrite earlyReturn_n. unfold bind at 1.
  rewrite (recursive_call_never_answers f4 s x); [reflexivity| |exact Hf].
  apply IH. lia.
Qed.

Lemma first_call_never_answers fuel s v :
  knowsF s ->
  executeStatement host fuel
    (ExpressionStatement (FunctionCall (Identifier "f") [NumberLiteral v "int"])) s
  = OutOfFuel.
Proof.
  intros Hknows.
  destruct fuel as [|e1]; [reflexivity|].
  destruct e1 as [|e2]; [reflexivity|].
  change (executeFunctionCall host (executeStatement host e2)
            (executeExpression host e2) (Identifier "f") [NumberLiteral v "int"] s
          = OutOfFuel).
  unfold executeFunctionCall. cbn [executeExpressions].
  destruct e2 as [|e3]; [reflexivity|].
  change (executeExpression host (S e3) (NumberLiteral v "int"))
    with (@ret value (VNumber v)).
  cbn [bind ret gets]. unfold knowsF in Hknows. rewrite Hknows.
  unfold earlyReturnFunction, executeUserFunction.
  cbn [bindParameters param_defaultValue param_name param_type tail bind ret
       enter modify].
  pose proof (earlyReturn_body_never_answers (S e3) s v Hknows) as Hbody.
  unfold callee in Hbody. unfold bind. rewrite Hbody. reflexivity.
Qed.

(** With an early return in place of the else branch, [f(5)] has no answer,
    whatever the fuel. *)
Lemma earlyReturn_never_answers (pfuel efuel : nat) :
  run host pfuel efuel earlyReturnSource constructor = None.
Proof.
  unfold run, execute.
  destruct (Parser.parse host pfuel earlyReturnSource) as [[ast errors]|] eqn:Hp;
    [|reflexivity].
  pose proof (parse_fuel host pfuel (Nat.max pfuel 40) _ _ (Nat.le_max_l _ _) Hp)
    as H1.
  pose proof (parse_fuel host 40 (Nat.max pfuel 40) _ _ (Nat.le_max_r _ _)
                parse_earlyReturn) as H2.
  rewrite H1 in H2. injection H2 as -> ->.
  change (0 <? length [])%nat with false. cbv iota.
  replace (typeCheck (globalContext constructor) _) with (@nil CompileError)
    by (vm_compute; reflexivity).
  change (0 <? length [])%nat with false. cbv iota.
  assert (Hrun : executeAST host efuel earlyReturnProgram (start constructor)
                 = OutOfFuel).
  { unfold executeAST, earlyReturnProgram. cbn [executeStatements].
    unfold bind at 1.
    destruct (executeStatement host efuel _ (start constructor))
      as [r1 s1|msg s1|] eqn:Hdecl; [| |reflexivity].
    - destruct efuel as [|e1]; [discriminate|].
      assert (Hknows : knowsF s1).
      { vm_compute in Hdecl. injection Hdecl as _ <-. vm_compute. reflexivity. }
      unfold bind. rewrite (first_call_never_answers _ s1 5 Hknows).
      reflexivity.
    - destruct efuel as [|e1]; discriminate. }
  rewrite Hrun. reflexivity.
Qed.

End EarlyReturn.

(** ** Assignment to an identifier *)

Section Assignment.


Lemma lookupVariable_store name v l i b :
  lookupVariable name l = Some (i, b) ->
  lookupVariable name (alter (storeValue name v) i l)
  = Some (i, mkBinding (b_type b) v (b_mutable b)).
Proof.
  unfold alter. revert i.
  induction l as [|c p IH]; intros i H; simpl in H; [discriminate|].
  destruct (variables c !! name) as [b0|] eqn:Hc.
  - injection H as <- <-. simpl. rewrite lookup_alter_eq, Hc. reflexivity.
  - destruct (lookupVariable name p) as [[j b1]|] eqn:Hp; [|discriminate].
    injection H as <- <-. simpl. rewrite Hc, (IH j eq_refl). reflexivity.
Qed.

Lemma lookupVariable_store_other name other v l i :
  other <> name ->
  lookupVariable other (alter (storeValue name v) i l) = lookupVariable other l.
Proof.
  intros Hne. unfold alter. revert i.
  induction l as [|c p IH]; intros [|i]; simpl; try reflexivity.
  - rewrite lookup_alter_ne by congruence. reflexivity.
  - rewrite IH. reflexivity.
Qed.

Lemma executeAssignment_identifier host fuel name rhs s :
  executeExpression host (S fuel) (AssignmentExpression (Identifier name) rhs) s
  = match executeExpression host fuel rhs s with
    | Normal v s1 =>
        match lookupVariable name (chain s1) with
        | Some (i, b) =>
            if b_mutable b
            then Normal v (with_chain (alter (storeValue name v) i) s1)
            else Throw ("Cannot assign to immutable variable: " +:+ name) s1
        | None => Throw ("Undefined variable: " +:+ name) s1
        end
    | Throw msg s1 => Throw msg s1
    | OutOfFuel => OutOfFuel
    end.
Proof.
  cbn [executeExpression executeExpression_body].
  unfold executeAssignmentExpression, bind.
  destruct (executeExpression host fuel rhs s) as [v s1|msg s1|];
    try reflexivity.
  unfold resolveVariableReference, bind, gets, ret, throw.
  destruct (lookupVariable name (chain s1)) as [[i b]|]; [|reflexivity].
  simpl. destruct (b_mutable b); reflexivity.
Qed.

Lemma lookupVariable_innermost name l i b :
  lookupVariable name l = Some (i, b) <-> innermost name l i b.
Proof.
  unfold innermost. revert i.
  induction l as [|c p IH]; intros i; simpl.
  - split; [discriminate|]. intros [[c [Hc _]] _]. discriminate.
  - destruct (variables c !! name) as [b0|] eqn:Hc.
    + split.
      * intros H. injection H as <- <-. split.
        -- exists c. split; [reflexivity | exact Hc].
        -- intros j c' Hj. lia.
      * intros [[c' [Hi Hb]] Hbefore]. destruct i as [|i].
        -- simpl in Hi. injection Hi as <-. congruence.
        -- specialize (Hbefore 0%nat c (Nat.lt_0_succ i) eq_refl). congruence.
    + split.
      * intros H.
        destruct (lookupVariable name p) as [[j b1]|] eqn:Hp; [|discriminate].
        injection H as <- <-.
        destruct (proj1 (IH j) eq_refl) as [Hfound Hbefore]. split.
        -- exact Hfound.
        -- intros [|k] c' Hk Hl; simpl in Hl.
           ++ injection Hl as <-. exact Hc.
           ++ apply (Hbefore k); [lia | exact Hl].
      * intros [[c' [Hi Hb]] Hbefore]. destruct i as [|i].
        -- simpl in Hi. injection Hi as <-. congruence.
        -- simpl in Hi.
           rewrite (proj2 (IH i)); [reflexivity|]. split.
           ++ exists c'. split; assumption.
           ++ intros j c'' Hj Hl. apply (Hbefore (S j)); [lia | exact Hl].
Qed.

Lemma lookupVariable_unbound name l :
  lookupVariable name l = None <-> unbound name l.
Proof.
  unfold unbound. induction l as [|c p IH]; simpl.
  - split; [intros _ c [] | reflexivity].
  - destruct (variables c !! name) as [b0|] eqn:Hc.
    + split; [discriminate|]. intros H.
      specialize (H c (or_introl eq_refl)). congruence.
    + destruct (lookupVariable name p) as [[j b1]|].
      * split; [discriminate|]. intros H.
        assert (Some (j, b1) = None) as Habs; [|discriminate].
        apply IH. intros c' Hin. apply H. right. exact Hin.
      * split; [|reflexivity]. intros _ c' [<-|Hin]; [exact Hc|].
        apply (proj1 IH eq_refl). exact Hin.
Qed.

End Assignment.

(** On the syntax trees that the two statements of the example are meant
    to denote, the evaluator raises the error that names pi and leaves the
    constant as it was.  The parser builds no such tree: see the theorem
    below. *)
Lemma pi_on_syntax_trees (host : Host) :
  match
    executeStatements (executeStatement host 3)
      [VariableDeclaration "const" "pi" floatType
         (Some (NumberLiteral 3.14 "float")) false;
       ExpressionStatement
         (AssignmentExpression (Identifier "pi") (NumberLiteral 3.0 "float"))]
      VNull (start constructor)
  with
  | Throw msg s =>
      msg = "Cannot assign to immutable variable: " +:+ "pi"
      /\ lookupVariable "pi" (chain s)
         = Some (0, mkBinding floatType (VNumber 3.14) false)
  | _ => False
  end.
Proof. vm_compute. auto. Qed.

(** C3: the lookup of a name walks the chain from the current context to
    the global one and stops at the first context that binds the name: it
    finds the innermost binding, and finds none exactly when no context
    binds the name.  An assignment to an identifier evaluates its right
    side, then looks the name up in this way.  With no binding it raises
    [Undefined variable: name]; with an immutable one it raises
    [Cannot assign to immutable variable: name]; otherwise it stores the
    value in the binding found, in the context where it was found, every
    other context and every other name staying as they were, and no context
    of the chain gains or loses a name, neither by the write nor while the
    right side is evaluated.  From source text: an assignment inside a block
    writes the variable of the enclosing context, and an assignment to a
    constant with an integer initializer raises the error that names it.
    On the text of the claim the code does something else: 3.14 is lexed as
    [3 . 14] and parsed as a property access, whose type is unknown, so the
    type check rejects the program and no statement of it is evaluated;
    nothing is declared, and [pi = 3.0;] executed afterwards finds no
    binding for pi. *)
Theorem assignment_to_identifier (host : Host) :
  (forall name l i b,
     lookupVariable name l = Some (i, b) <-> innermost name l i b)
  /\ (forall name l, lookupVariable name l = None <-> unbound name l)
  /\ (forall fuel name rhs s,
     let r :=
       executeExpression host (S fuel)
         (AssignmentExpression (Identifier name) rhs) s in
     match executeExpression host fuel rhs s with
     | Normal v s1 =>
         sameNames (chain s) (chain s1)
         /\ match lookupVariable name (chain s1) with
            | None => r = Throw ("Undefined variable: " +:+ name) s1
            | Some (i, b) =>
                if b_mutable b then
                  exists s2,
                    r = Normal v s2
                    /\ sameNames (chain s1) (chain s2)
                    /\ lookupVariable name (chain s2)
                       = Some (i, mkBinding (b_type b) v true)
                    /\ (forall other, other <> name ->
                          lookupVariable other (chain s2)
                          = lookupVariable other (chain s1))
                    /\ chain s2 !! i = storeValue name v <$> chain s1 !! i
                    /\ (forall j, j <> i -> chain s2 !! j = chain s1 !! j)
                    /\ output s2 = output s1
                else
                  r = Throw ("Cannot assign to immutable variable: " +:+ name) s1
            end
     | Throw msg s1 => r = Throw msg s1
     | OutOfFuel => r = OutOfFuel
     end)
  /\ run host 30 30 "let x: int = 1; if (true) { x = 2; } x;" constructor
     = Some (mkResult true (Some (VNumber 2)) None [] [] None)
  /\ run host 30 30 "const pi: int = 3; pi = 4;" constructor
     = Some (mkResult false None
               (Some "Cannot assign to immutable variable: pi") [] [] None)
  /\ run host 30 30 "const pi: float = 3.14; pi = 3.0;" constructor
     = Some (mkResult false None None [] []
               (Some [mkCompileError 1 1 "Cannot assign unknown to float"
                        "error"]))
  /\ execute host 30 30 "const pi: float = 3.14;" constructor
     = Some (mkResult false None None [] []
               (Some [mkCompileError 1 1 "Cannot assign unknown to float"
                        "error"]),
             constructor)
  /\ run silentHost 30 30 "pi = 3.0;" constructor
     = Some (mkResult false None (Some "Undefined variable: pi") [] [] None).
Proof.
  split; [exact lookupVariable_innermost|].
  split; [exact lookupVariable_unbound|].
  split; [|repeat split; vm_compute; reflexivity].
  intros fuel name rhs s r. subst r.
  pose proof (proj2 (evaluation_names host fuel) rhs s) as Hrhs.
  rewrite executeAssignment_identifier.
  destruct (executeExpression host fuel rhs s) as [v s1|msg s1|];
    [|reflexivity|reflexivity].
  destruct Hrhs as [Hnames _]. split; [exact Hnames|].
  destruct (lookupVariable name (chain s1)) as [[i b]|] eqn:Hlook;
    [|reflexivity].
  destruct (b_mutable b) eqn:Hmut; [|reflexivity].
  eexists. split; [reflexivity|]. simpl.
  split.
  { unfold sameNames. symmetry. apply map_names_alter.
    intros c. unfold names, storeValue. simpl. rewrite dom_alter_L. reflexivity. }
  split.
  { rewrite (lookupVariable_store name v _ i b Hlook), Hmut. reflexivity. }
  split.
  { intros other Hne. apply lookupVariable_store_other. exact Hne. }
  split; [apply list_lookup_alter_eq|].
  split; [|reflexivity].
  intros j Hj. apply list_lookup_alter_ne. congruence.
Qed.

(** ** Assignment to something that is not an identifier *)

(** C10: when the left side is not a plain identifier, evaluating the
    assignment is evaluating its right side: the same value, the same state
    afterwards, the same error if the right side raises one; the left side
    is not evaluated and nothing is written. *)
Theorem assignment_to_non_identifier (host : Host) (fuel : nat)
  (target rhs : expr) (s : state) :
  isIdentifier target = false ->
  executeExpression host (S fuel) (AssignmentExpression target rhs) s
  = executeExpression host fuel rhs s.
Proof.
  intros H. cbn. unfold executeAssignmentExpression, bind, ret.
  destruct (executeExpression host fuel rhs s); try reflexivity.
  destruct target; try reflexivity. discriminate.
Qed.

Lemma assignment_to_non_identifier_witness :
  executeExpression silentHost 2
    (AssignmentExpression
       (ArrayAccess (Identifier "a") (NumberLiteral 0 "int"))
       (NumberLiteral 5 "int"))
    (start constructor)
  = Normal (VNumber 5) (start constructor).
Proof.
  rewrite (assignment_to_non_identifier silentHost 1
             (ArrayAccess (Identifier "a") (NumberLiteral 0 "int"))
             (NumberLiteral 5 "int") (start constructor) eq_refl).
  reflexivity.
Defined.

(** ** Array access *)

Section ArrayAccess.

Lemma compare_bounds (a n : Z) :
  (match (a ?= 0)%Z with Lt => true | _ => false end
   || match (a ?= n)%Z with Gt | Eq => true | _ => false end)
  = ((a <? 0)%Z || (n <=? a)%Z).
Proof.
  destruct (Z.compare_spec a 0), (Z.compare_spec a n),
    (Z.ltb_spec a 0), (Z.leb_spec n a); simpl; try reflexivity; lia.
Qed.

(** For a number that denotes an integer, the bounds check of
    [executeArrayAccess] is the check on that integer. *)
Lemma bounds_check_integer (x : float) (z n : Z) :
  Num.to_Z x = Some z ->
  (Num.lt_Z x 0 || Num.ge_Z x n) = ((z <? 0)%Z || (n <=? z)%Z).
Proof.
  unfold Num.to_Z, Num.lt_Z, Num.ge_Z, Num.compare_Z.
  destruct (Prim2SF x) as [sg|sg| |sg m e]; try discriminate.
  - intros [= <-]. apply compare_bounds.
  - set (v := if sg then Z.neg m else Z.pos m).
    destruct (0 <=? e)%Z.
    + intros [= <-]. apply compare_bounds.
    + destruct (Z.eqb_spec (Z.pos m mod 2 ^ (- e)) 0) as [Hmod|]; [|discriminate].
      intros [= <-].
      assert (Hpos : (0 < 2 ^ (- e))%Z).
      { destruct (Z.ltb_spec (- e) 0) as [Hneg|Hge].
        - rewrite (Z.pow_neg_r 2 (- e) Hneg) in Hmod.
          rewrite Z.mod_0_r in Hmod. discriminate.
        - apply Z.pow_pos_nonneg; lia. }
      assert (Hv : (v mod 2 ^ (- e) = 0)%Z).
      { subst v. destruct sg; [|exact Hmod].
        change (Z.neg m) with (- Z.pos m)%Z. apply Z.mod_opp_l_z; [lia|exact Hmod]. }
      assert (Hexact : (v = v / 2 ^ (- e) * 2 ^ (- e))%Z).
      { rewrite Z.mul_comm. apply Z_div_exact_full_2; [lia|exact Hv]. }
      rewrite Z.mul_0_l.
      rewrite Hexact at 1 2.
      rewrite <- (Z.mul_0_l (2 ^ (- e))) at 1.
      rewrite <- !Zmult_compare_compat_r by lia.
      apply compare_bounds.
Qed.

Lemma executeArrayAccess_unfold host fuel object index s :
  executeExpression host (S fuel) (ArrayAccess object index) s
  = match executeExpression host fuel object s with
    | Normal a s1 =>
        match executeExpression host fuel index s1 with
        | Normal i s2 =>
            match a with
            | VArray _ items =>
                match i with
                | VNumber x =>
                    if Num.lt_Z x 0 || Num.ge_Z x (Z.of_nat (length items))
                    then Throw "Array index out of bounds" s2
                    else Normal (JS.index items x) s2
                | _ => Throw "Array index out of bounds" s2
                end
            | _ => Throw "Array access on non-array value" s2
            end
        | Throw msg s2 => Throw msg s2
        | OutOfFuel => OutOfFuel
        end
    | Throw msg s1 => Throw msg s1
    | OutOfFuel => OutOfFuel
    end.
Proof.
  cbn [executeExpression executeExpression_body].
  unfold executeArrayAccess, bind.
  destruct (executeExpression host fuel object s) as [a s1|msg s1|];
    try reflexivity.
  destruct (executeExpression host fuel index s1) as [i s2|msg s2|];
    try reflexivity.
  destruct a; try reflexivity. destruct i; try reflexivity.
  unfold throw, ret.
  destruct (Num.lt_Z n 0 || Num.ge_Z n (Z.of_nat (length items))); reflexivity.
Qed.

End ArrayAccess.

(** C4 as stated fails for an index that is a number but not an integer:
    [[10, 20, 30][1 / 2]] raises no fault and evaluates to [undefined]. *)
Lemma fractional_index_raises_no_fault :
  run silentHost 30 30 "[10, 20, 30][1 / 2];" constructor
  = Some (mkResult true (Some VUndefined) None [] [] None).
Proof. vm_compute. reflexivity. Qed.

(** C4, amended: once the array and the index are evaluated, an array access
    raises a runtime fault when the first value is not an array, when the
    index is not a number, when the index is a number below 0, and when it
    is a number greater than or equal to the length.  For an index that
    denotes an integer [z] this is the test [z < 0 \/ length <= z], so
    indexing at -1 or at the length raises [Array index out of bounds], and
    indexing at a position of the array returns exactly the element stored
    there.  A number that is not an integer and for which both comparisons
    are false, a fraction between 0 and the length or NaN, raises nothing
    and yields [undefined]. *)
Theorem array_access_bounds (host : Host) :
  (forall fuel object index s,
     let r := executeExpression host (S fuel) (ArrayAccess object index) s in
     match executeExpression host fuel object s with
     | Normal a s1 =>
         match executeExpression host fuel index s1 with
         | Normal i s2 =>
             match a, i with
             | VArray _ items, VNumber x =>
                 match Num.to_Z x with
                 | Some z =>
                     if ((z <? 0) || (Z.of_nat (length items) <=? z))%Z
                     then r = Throw "Array index out of bounds" s2
                     else exists element,
                            items !! Z.to_nat z = Some element
                            /\ r = Normal element s2
                 | None =>
                     if Num.lt_Z x 0 || Num.ge_Z x (Z.of_nat (length items))
                     then r = Throw "Array index out of bounds" s2
                     else r = Normal VUndefined s2
                 end
             | VArray _ _, _ => r = Throw "Array index out of bounds" s2
             | _, _ => r = Throw "Array access on non-array value" s2
             end
         | Throw msg s2 => r = Throw msg s2
         | OutOfFuel => r = OutOfFuel
         end
     | Throw msg s1 => r = Throw msg s1
     | OutOfFuel => r = OutOfFuel
     end)
  /\ run host 30 30 "[10, 20, 30][-1];" constructor
     = Some (mkResult false None (Some "Array index out of bounds") [] [] None)
  /\ run host 30 30 "[10, 20, 30][3];" constructor
     = Some (mkResult false None (Some "Array index out of bounds") [] [] None)
  /\ run host 30 30 "[10, 20, 30][2];" constructor
     = Some (mkResult true (Some (VNumber 30)) None [] [] None)
  /\ run host 30 30 "[10, 20, 30][5 / 2];" constructor
     = Some (mkResult true (Some VUndefined) None [] [] None)
  /\ run host 30 30 "[10, 20, 30][0 / 0];" constructor
     = Some (mkResult true (Some VUndefined) None [] [] None).
Proof.
  split; [|repeat split; vm_compute; reflexivity].
  intros fuel object index s r. subst r.
  rewrite executeArrayAccess_unfold.
  destruct (executeExpression host fuel object s) as [a s1|msg s1|];
    try reflexivity.
  destruct (executeExpression host fuel index s1) as [i s2|msg s2|];
    try reflexivity.
  destruct a; try reflexivity; destruct i; try reflexivity.
  destruct (Num.to_Z n) as [z|] eqn:Hz.
  - rewrite (bounds_check_integer n z _ Hz).
    destruct ((z <? 0)%Z || (Z.of_nat (length items) <=? z)%Z) eqn:Hb;
      [reflexivity|].
    apply orb_false_iff in Hb as [Hlo Hhi].
    apply Z.ltb_ge in Hlo. apply Z.leb_gt in Hhi.
    destruct (lookup_lt_is_Some_2 items (Z.to_nat z)) as [element He]; [lia|].
    exists element. split; [exact He|].
    unfold JS.index. rewrite Hz. rewrite (nth_lookup_Some _ _ _ _ He).
    reflexivity.
  - destruct (Num.lt_Z n 0 || Num.ge_Z n (Z.of_nat (length items)));
      [reflexivity|].
    unfold JS.index. rewrite Hz. reflexivity.
Qed.

(** ** [execute] *)

Section Execute.

Lemma execute_evaluates host pfuel efuel code this ast :
  Parser.parse host pfuel code = Some (ast, []) ->
  typeCheck (globalContext this) ast = [] ->
  run host pfuel efuel code this
  = match executeAST host efuel ast (start this) with
    | Normal v s => Some (mkResult true (Some v) None (output s) [] None)
    | Throw msg s => Some (mkResult false None (Some msg) (output s) [] None)
    | OutOfFuel => None
    end.
Proof.
  intros Hparse Hcheck. unfold run, execute. rewrite Hparse. simpl.
  rewrite Hcheck. simpl.
  destruct (executeAST host efuel ast (start this)); reflexivity.
Qed.

Lemma executeWithin_evaluates host pfuel depth fuel code this ast :
  Parser.parse host pfuel code = Some (ast, []) ->
  typeCheck (globalContext this) ast = [] ->
  runWithin host pfuel depth fuel code this
  = match executeASTWithin host depth fuel ast (start this) with
    | Normal v s => Some (mkResult true (Some v) None (output s) [] None)
    | Throw msg s => Some (mkResult false None (Some msg) (output s) [] None)
    | OutOfFuel => None
    end.
Proof.
  intros Hparse Hcheck. unfold runWithin, executeWithin. rewrite Hparse.
  simpl. rewrite Hcheck. simpl.
  destruct (executeASTWithin host depth fuel ast (start this)); reflexivity.
Qed.

(** [print] and [println] append one line to the buffer, their arguments
    stringified and joined by a space, unless stringifying an argument
    throws: then nothing is appended and that error is the fault. *)
Lemma print_appends host f args s :
  f = impl_print \/ f = impl_println ->
  callBuiltin host f args s
  = match printedLine host args with
    | inl line =>
        Normal VUndefined
          (mkState (chain s) (output s ++ [line]) (allocated s))
    | inr msg => Throw msg s
    end.
Proof.
  intros [-> | ->]; unfold callBuiltin, bind, lift;
    destruct (printedLine host args); reflexivity.
Qed.

Lemma executeStatements_throws (execS : stmt -> E value) st post r s msg s' :
  execS st s = Throw msg s' ->
  executeStatements execS (st :: post) r s = Throw msg s'.
Proof. intros H. simpl. unfold bind. rewrite H. reflexivity. Qed.

Lemma endless_loop host fuel n r s :
  while_loop (executeStatement host fuel) (executeExpression host fuel) n
    (BooleanLiteral true) (BlockStatement []) r s
  = OutOfFuel.
Proof.
  revert r s. induction n as [|n IH]; intros r s; [reflexivity|].
  destruct fuel as [|fuel]; [reflexivity|].
  cbn [while_loop]. unfold bind at 1. cbn [executeExpression
    executeExpression_body]. unfold ret at 1. cbn [isTruthy].
  unfold bind at 1.
  destruct (executeStatement host (S fuel) (BlockStatement []) s)
    as [v s1|msg s1|] eqn:Hbody.
  - apply IH.
  - cbn in Hbody. discriminate.
  - reflexivity.
Qed.

Lemma endless_runsForEver : runsForEver endlessProgram constructor.
Proof.
  intros host [|efuel]; [reflexivity|].
  cbn [endlessProgram executeAST executeStatements executeStatement
       executeStatement_body].
  unfold executeWhileStatement, bind. rewrite endless_loop. reflexivity.
Qed.

Lemma endless_parses host :
  Parser.parse host 30 endlessSource = Some (endlessProgram, []).
Proof. vm_compute. reflexivity. Qed.

Lemma endless_returnsNothing : returnsNothing endlessSource constructor.
Proof.
  intros host pfuel efuel.
  destruct (Parser.parse host pfuel endlessSource) as [[ast errors]|] eqn:Hp.
  - assert (Parser.parse host (Nat.max pfuel 30) endlessSource
            = Some (ast, errors)) as H1.
    { apply (parse_fuel host pfuel); [lia | exact Hp]. }
    assert (Parser.parse host (Nat.max pfuel 30) endlessSource
            = Some (endlessProgram, [])) as H2.
    { apply (parse_fuel host 30); [lia | apply endless_parses]. }
    rewrite H1 in H2. injection H2 as -> ->.
    rewrite (execute_evaluates _ _ _ _ _ _ Hp); [|reflexivity].
    rewrite endless_runsForEver. reflexivity.
  - unfold run, execute. rewrite Hp. reflexivity.
Qed.

End Execute.

(** ** Faults pass through every construct *)

Section FaultSteps.

Context {A B : Type}.
Variable h : string -> string.
Variable g : state -> state.

Lemma passes_refl (m : E A) : passesFaults h g m m.
Proof. intros s. destruct (m s); auto. Qed.

Lemma passes_rethrown (m : E A) : passesFaults h g m (rethrown h g m).
Proof. intros s. unfold rethrown. destruct (m s); auto. Qed.

Lemma passes_bind (m m' : E A) (k k' : A -> E B) :
  passesFaults h g m m' -> (forall a, passesFaults h g (k a) (k' a)) ->
  passesFaults h g (bind m k) (bind m' k').
Proof.
  intros Hm Hk s. unfold bind. specialize (Hm s).
  destruct (m s) as [a s1|msg s1|].
  - rewrite Hm. apply Hk.
  - destruct Hm as [-> | ->]; auto.
  - rewrite Hm. reflexivity.
Qed.

End FaultSteps.

Create HintDb faults.

#[local] Hint Resolve passes_refl passes_rethrown : faults.

Ltac faults_step :=
  match goal with
  | |- passesFaults _ _ (bind _ _) (bind _ _) =>
      apply passes_bind; [|intros ?]
  | |- passesFaults _ _ (if ?b then _ else _) _ => destruct b
  | |- passesFaults _ _ (match ?x with _ => _ end) _ => destruct x
  end.

Ltac faults_tac := repeat faults_step; auto with faults.

Section KnotFaults.

Variable host : Host.
Variable h : string -> string.
Variable g : state -> state.
Variable execS : stmt -> E value.
Variable execE : expr -> E value.

Lemma passes_marked {X} (evaluate : X -> E value) x :
  passesFaults h g (evaluate x) (marked h g evaluate x).
Proof. apply passes_rethrown. Qed.

Hint Resolve passes_marked : faults.

Lemma passes_executeStatements body r :
  passesFaults h g (executeStatements execS body r)
    (executeStatements (marked h g execS) body r).
Proof. revert r; induction body; intros r; simpl; faults_tac. Qed.

Lemma passes_executeExpressions es :
  passesFaults h g (executeExpressions execE es)
    (executeExpressions (marked h g execE) es).
Proof. induction es; simpl; faults_tac. Qed.

Lemma passes_executeProperties properties obj :
  passesFaults h g (executeProperties host execE properties obj)
    (executeProperties host (marked h g execE) properties obj).
Proof.
  revert obj; induction properties as [|[key e] rest IH]; intros obj; simpl;
    faults_tac.
Qed.

Lemma passes_bindParameters params args vars :
  passesFaults h g (bindParameters execE params args vars)
    (bindParameters (marked h g execE) params args vars).
Proof.
  revert args vars; induction params; intros args vars; simpl; faults_tac.
Qed.

Lemma passes_for_loop n condition update body r :
  passesFaults h g (for_loop execS execE n condition update body r)
    (for_loop (marked h g execS) (marked h g execE) n condition update body r).
Proof. revert r; induction n; intros r; simpl; faults_tac. Qed.

Lemma passes_while_loop n condition body r :
  passesFaults h g (while_loop execS execE n condition body r)
    (while_loop (marked h g execS) (marked h g execE) n condition body r).
Proof. revert r; induction n; intros r; simpl; faults_tac. Qed.

Hint Resolve passes_executeStatements passes_executeExpressions
  passes_executeProperties passes_bindParameters passes_for_loop
  passes_while_loop : faults.

Lemma passes_executeStatement_body n st :
  passesFaults h g (executeStatement_body execS execE n st)
    (executeStatement_body (marked h g execS) (marked h g execE) n st).
Proof.
  destruct st; simpl;
    unfold executeVariableDeclaration, executeFunctionDeclaration,
      executeIfStatement, executeForStatement, executeWhileStatement,
      executeReturnStatement, executeBlockStatement;
    faults_tac.
Qed.

Lemma passes_executeExpression_body e :
  passesFaults h g (executeExpression_body host execS execE e)
    (executeExpression_body host (marked h g execS) (marked h g execE) e).
Proof.
  destruct e; simpl;
    unfold executeBinaryExpression, executeUnaryExpression,
      executeAssignmentExpression, executeFunctionCall, executeUserFunction,
      executeArrayAccess, executePropertyAccess, resolveVariable,
      resolveVariableReference;
    faults_tac.
Qed.

End KnotFaults.

(** C1 as stated fails for a program that loops: [while (true) { }] parses
    and type-checks with no diagnostic and its evaluation raises no fault,
    because it never ends; [execute] returns no record for it. *)
Lemma endless_loop_returns_nothing :
  Parser.parse silentHost 30 endlessSource = Some (endlessProgram, [])
  /\ typeCheck (globalContext constructor) endlessProgram = []
  /\ runsForEver endlessProgram constructor
  /\ returnsNothing endlessSource constructor.
Proof.
  split; [vm_compute; reflexivity|].
  split; [vm_compute; reflexivity|].
  split; [exact endless_runsForEver | exact endless_returnsNothing].
Qed.

(** C1, amended: when parsing and type checking give no diagnostic and
    evaluation completes with a value, raising no fault, [execute] returns
    [success = true] with that value as [result]: null for the empty
    program, and otherwise the value of the last top-level statement,
    executed after all the others. *)
Theorem execute_success (host : Host) (pfuel efuel : nat) (code : string)
  (this : Interpreter) (body : list stmt) (v : value) (s' : state) :
  Parser.parse host pfuel code = Some (Program body, []) ->
  typeCheck (globalContext this) (Program body) = [] ->
  executeAST host efuel (Program body) (start this) = Normal v s' ->
  run host pfuel efuel code this
  = Some (mkResult true (Some v) None (output s') [] None)
  /\ (body = [] -> v = VNull)
  /\ (forall pre last,
        body = pre ++ [last] ->
        exists r1 s1,
          executeStatements (executeStatement host efuel) pre VNull (start this)
          = Normal r1 s1
          /\ executeStatement host efuel last s1 = Normal v s').
Proof.
  intros Hparse Hcheck Hrun. split.
  { rewrite (execute_evaluates _ _ _ _ _ _ Hparse Hcheck), Hrun. reflexivity. }
  split.
  { intros ->. simpl in Hrun. injection Hrun as <- _. reflexivity. }
  intros pre last ->. apply executeStatements_last with (r := VNull).
  exact Hrun.
Qed.

Lemma execute_success_witness :
  run silentHost 30 30 "let x: int = 5; x = x + 1;" constructor
  = Some (mkResult true (Some (VNumber 6)) None [] [] None).
Proof.
  edestruct (execute_success silentHost 30 30 "let x: int = 5; x = x + 1;"
               constructor) as [H _];
    [reflexivity | reflexivity | reflexivity | exact H].
Defined.

(** C7: when evaluation stops with a runtime error, [execute] returns
    [success = false], the message of that error as its only error, and the
    output buffer as it stood at the fault.  That buffer holds, in call
    order, every line printed before the fault:
    - the fault of the program is the fault of the statements that follow
      any completed prefix, run from the state the prefix ended in, and a
      statement that throws ends the sequence with its error and its state;
    - no statement and no expression, completed or aborted, does anything
      to the buffer but append to it;
    - every construct, statement or expression, passes the fault of a
      nested evaluation on as it was raised, with the same message and the
      state of the fault, buffer included.  This is stated for arbitrary
      evaluators of the nested terms, so it holds as well for a fault that
      the runtime raises inside a nested call;
    - on a bounded call stack the same holds of the error that the runtime
      throws when the stack is exhausted: [execute] returns it as the error,
      with the buffer as it stood;
    - [print] and [println] append exactly one line each, their arguments
      stringified and joined by a space, and when stringifying an argument
      throws they append nothing and that error is the fault;
    - from source text: the line printed inside a call that then faults,
      the lines printed by the passes of a loop up to the one that faults,
      the lines printed before a call whose argument faults, and the lines
      printed by a recursion before it exhausts the stack, are in the
      output returned, and nothing after them. *)
Theorem runtime_error_keeps_output (host : Host) (pfuel efuel : nat)
  (code : string) (this : Interpreter) (body : list stmt) (msg : string)
  (s' : state) :
  Parser.parse host pfuel code = Some (Program body, []) ->
  typeCheck (globalContext this) (Program body) = [] ->
  executeAST host efuel (Program body) (start this) = Throw msg s' ->
  run host pfuel efuel code this
  = Some (mkResult false None (Some msg) (output s') [] None)
  /\ (forall pre post r1 s1,
        body = pre ++ post ->
        executeStatements (executeStatement host efuel) pre VNull (start this)
        = Normal r1 s1 ->
        executeStatements (executeStatement host efuel) post r1 s1
        = Throw msg s'
        /\ output s1 `prefix_of` output s')
  /\ (forall evaluate st post r s1 msg1 s2,
        evaluate st s1 = Throw msg1 s2 ->
        executeStatements evaluate (st :: post) r s1 = Throw msg1 s2)
  /\ (forall fuel st s,
        match executeStatement host fuel st s with
        | Normal _ s1 | Throw _ s1 => output s `prefix_of` output s1
        | OutOfFuel => True
        end)
  /\ (forall fuel e s,
        match executeExpression host fuel e s with
        | Normal _ s1 | Throw _ s1 => output s `prefix_of` output s1
        | OutOfFuel => True
        end)
  /\ (forall h g execS execE n st,
        passesFaults h g (executeStatement_body execS execE n st)
          (executeStatement_body (marked h g execS) (marked h g execE) n st))
  /\ (forall h g execS execE e,
        passesFaults h g (executeExpression_body host execS execE e)
          (executeExpression_body host (marked h g execS) (marked h g execE)
             e))
  /\ (forall f args s,
        f = impl_print \/ f = impl_println ->
        callBuiltin host f args s
        = match printedLine host args with
          | inl line =>
              Normal VUndefined
                (mkState (chain s) (output s ++ [line]) (allocated s))
          | inr err => Throw err s
          end)
  /\ (forall depth fuel msg1 s1,
        executeASTWithin host depth fuel (Program body) (start this)
        = Throw msg1 s1 ->
        runWithin host pfuel depth fuel code this
        = Some (mkResult false None (Some msg1) (output s1) [] None))
  /\ (forall depth fuel st s,
        match executeStatementWithin host depth fuel st s with
        | Normal _ s1 | Throw _ s1 => output s `prefix_of` output s1
        | OutOfFuel => True
        end)
  /\ run host 30 30 "func f() -> int { print('in'); return y; } f();"
       constructor
     = Some (mkResult false None (Some "Undefined variable: y") ["in"] []
               None)
  /\ run host 30 30
       "print('a'); for (let i: int = 0; i < 3; i = i + 1) { println('b'); if (i == 1) { x; } }"
       constructor
     = Some (mkResult false None (Some "Undefined variable: x")
               ["a"; "b"; "b"] [] None)
  /\ run host 30 30 "print('a'); print('b', len(1)); print('c');" constructor
     = Some (mkResult false None
               (Some "len() requires string or array argument") ["a"] []
               None)
  /\ runWithin host 30 12 30
       "print('a'); func f() -> int { print('in'); return f(); } f();"
       constructor
     = Some (mkResult false None (Some "Maximum call stack size exceeded")
               ["a"; "in"; "in"; "in"] [] None).
Proof.
  intros Hparse Hcheck Hrun. split.
  { rewrite (execute_evaluates _ _ _ _ _ _ Hparse Hcheck), Hrun. reflexivity. }
  split.
  { intros pre post r1 s1 -> Hpre. simpl in Hrun.
    rewrite executeStatements_app, Hpre in Hrun. split; [exact Hrun|].
    pose proof (extends_executeStatements (executeStatement host efuel)
                  (proj1 (evaluation_names host efuel)) post r1 s1) as Hpost.
    rewrite Hrun in Hpost. exact Hpost. }
  split.
  { intros evaluate st post r s1 msg1 s2.
    apply executeStatements_throws. }
  split.
  { intros fuel st s.
    pose proof (proj1 (evaluation_names host fuel) st s) as H.
    destruct (executeStatement host fuel st s); tauto. }
  split.
  { intros fuel e s.
    pose proof (proj2 (evaluation_names host fuel) e s) as H.
    destruct (executeExpression host fuel e s); tauto. }
  split.
  { intros h g execS execE n st.
    apply (passes_executeStatement_body h g execS execE). }
  split.
  { intros h g execS execE e.
    apply (passes_executeExpression_body host h g execS execE). }
  split; [intros f args s; apply print_appends|].
  split.
  { intros depth fuel msg1 s1 Hwithin.
    rewrite (executeWithin_evaluates _ _ _ _ _ _ _ Hparse Hcheck), Hwithin.
    reflexivity. }
  split.
  { intros depth fuel st s.
    pose proof (proj1 (evaluation_names_within host depth fuel) st s) as H.
    destruct (executeStatementWithin host depth fuel st s); tauto. }
  repeat split; vm_compute; reflexivity.
Qed.

Lemma runtime_error_keeps_output_witness :
  run silentHost 60 60
    "print('a');
     func g() -> int { println('g'); return 1; }
     if (g() == 1) { print('then'); } else { print('else'); }
     let i: int = 0;
     while (i < 2) { print('w'); i = i + 1; }
     func f() -> int { print('in'); return y; }
     print('b', f());
     print('never');"
    constructor
  = Some (mkResult false None (Some "Undefined variable: y")
            ["a"; "g"; "then"; "w"; "w"; "in"] [] None).
Proof.
  edestruct (runtime_error_keeps_output silentHost 60 60
    "print('a');
     func g() -> int { println('g'); return 1; }
     if (g() == 1) { print('then'); } else { print('else'); }
     let i: int = 0;
     while (i < 2) { print('w'); i = i + 1; }
     func f() -> int { print('in'); return y; }
     print('b', f());
     print('never');"
               constructor) as [H _];
    [vm_compute; reflexivity | vm_compute; reflexivity
    | vm_compute; reflexivity | exact H].
Defined.

(** * Further properties of the code *)

(** ** Strings and lists *)

Section StringFacts.

Lemma append_nil_r (a : string) : a +:+ "" = a.
Proof.
  induction a as [|c a IH]; [reflexivity|].
  change (String c (a +:+ "") = String c a). f_equal. exact IH.
Qed.

Lemma append_assoc (a b c : string) : (a +:+ b) +:+ c = a +:+ (b +:+ c).
Proof.
  induction a as [|x a IH]; [reflexivity|].
  change (String x ((a +:+ b) +:+ c) = String x (a +:+ (b +:+ c))).
  f_equal. exact IH.
Qed.

Lemma append_length (a b : string) :
  String.length (a +:+ b) = String.length a + String.length b.
Proof.
  induction a as [|c a IH]; [reflexivity|].
  change (S (String.length (a +:+ b)) = S (String.length a + String.length b)).
  f_equal. exact IH.
Qed.

Lemma concat_cons (x : string) l :
  String.concat "" (x :: l) = x +:+ String.concat "" l.
Proof.
  destruct l as [|y l]; [|reflexivity].
  simpl. symmetry. apply append_nil_r.
Qed.

Lemma nth_middle_app {A} (pre : list A) x post d :
  nth (length pre) (pre ++ x :: post) d = x.
Proof. induction pre; simpl; auto. Qed.

End StringFacts.

(** ** The scan of the tokenizer *)

Lemma span_app p s : fst (Str.span p s) +:+ snd (Str.span p s) = s.
Proof.
  induction s as [|c r IH]; simpl; [reflexivity|].
  destruct (p c); [|reflexivity].
  destruct (Str.span p r) as [a b]; cbn in *. rewrite <- IH. reflexivity.
Qed.

Lemma span_all p s : Str.all p (fst (Str.span p s)) = true.
Proof.
  induction s as [|c r IH]; simpl; [reflexivity|].
  destruct (p c) eqn:Hc; [|reflexivity].
  destruct (Str.span p r) as [a b]; cbn in *. rewrite Hc, IH. reflexivity.
Qed.

Lemma span_empty p c r : fst (Str.span p (String c r)) = "" -> p c = false.
Proof.
  simpl. destruct (p c); [|reflexivity].
  destruct (Str.span p r); discriminate.
Qed.

Lemma startsWith_skip a s :
  Str.startsWith a s = true -> s = a +:+ Str.skip (String.length a) s.
Proof.
  revert s; induction a as [|c a IH]; intros s H; [reflexivity|].
  destruct s as [|d s]; simpl in H; [discriminate|].
  apply andb_true_iff in H as [Hc H]. apply Ascii.eqb_eq in Hc. subst d.
  change (String c s = String c (a +:+ Str.skip (String.length a) s)).
  f_equal. apply IH, H.
Qed.

Lemma block_comment_tail_app s b rest :
  Tokenizer.block_comment_tail s = Some (b, rest) -> s = b +:+ rest.
Proof.
  revert b rest; induction s as [|c r IH];
    cbn [Tokenizer.block_comment_tail]; intros b rest H; [discriminate|].
  destruct (Ascii.eqb c "*" && Str.startsWith "/" r) eqn:Hstar.
  - injection H as <- <-. apply andb_true_iff in Hstar as [Hc Hr].
    apply Ascii.eqb_eq in Hc. subst c.
    rewrite (startsWith_skip "/" r Hr) at 1. reflexivity.
  - destruct (Tokenizer.block_comment_tail r) as [[b' rest']|]; [|discriminate].
    injection H as <- <-. rewrite (IH _ _ eq_refl) at 1. reflexivity.
Qed.

Lemma match_token_app s t rest :
  Tokenizer.match_token s = Some (t, rest) -> s = t +:+ rest.
Proof.
  unfold Tokenizer.match_token.
  pose proof (span_app Re.is_space s) as Hws.
  destruct (Str.span Re.is_space s) as [ws after_ws]; simpl in Hws.
  destruct ws as [|w ws']; cbn [Str.nonempty].
  2:{ intros [= <- <-]. symmetry. exact Hws. }
  destruct (Str.startsWith "//" s) eqn:Hline.
  { pose proof (span_app (fun c => negb (Re.is_line_terminator c)) (Str.skip 2 s)) as Hl.
    destruct (Str.span _ (Str.skip 2 s)) as [body r]; simpl in Hl.
    intros [= <- <-]. rewrite append_assoc, Hl.
    apply (startsWith_skip "//" s Hline). }
  destruct (if Str.startsWith "/*" s
            then Tokenizer.block_comment_tail (Str.skip 2 s) else None)
    as [[b r]|] eqn:Hblock.
  { intros [= <- <-].
    destruct (Str.startsWith "/*" s) eqn:Hopen; [|discriminate].
    apply block_comment_tail_app in Hblock.
    rewrite append_assoc, <- Hblock. apply (startsWith_skip "/*" s Hopen). }
  destruct (Tokenizer.first_prefix
              (Tokenizer.two_char_operators ++ Tokenizer.one_char_tokens) s)
    as [op|] eqn:Hop.
  { intros [= <- <-]. unfold Tokenizer.first_prefix in Hop.
    apply find_some in Hop as [_ Hpre]. apply startsWith_skip. exact Hpre. }
  pose proof (span_app Re.is_word s) as Hw.
  destruct (Str.span Re.is_word s) as [w after_w]; simpl in Hw.
  destruct w as [|w0 w']; cbn [Str.nonempty].
  2:{ intros [= <- <-]. symmetry. exact Hw. }
  pose proof (span_app Re.is_digit s) as Hd.
  destruct (Str.span Re.is_digit s) as [d after_d]; simpl in Hd.
  destruct d as [|d0 d']; cbn [Str.nonempty].
  2:{ destruct after_d as [|c r].
      - intros [= <- <-]. symmetry. exact Hd.
      - destruct (Ascii.eqb_spec c ".") as [->|].
        + pose proof (span_app Re.is_digit r) as Hr.
          destruct (Str.span Re.is_digit r) as [d2 r2]; simpl in Hr.
          intros [= <- <-]. rewrite <- Hd, <- Hr.
          rewrite !append_assoc. reflexivity.
        + intros [= <- <-]. symmetry. exact Hd. }
  destruct s as [|c r]; [discriminate|].
  destruct (Re.is_line_terminator c); [discriminate|].
  intros [= <- <-]. reflexivity.
Qed.

Lemma line_terminator_is_space c :
  Re.is_line_terminator c = true -> Re.is_space c = true.
Proof.
  unfold Re.is_line_terminator, Re.is_space. intros H.
  apply orb_true_iff in H as [H|H]; apply Nat.eqb_eq in H; rewrite H; reflexivity.
Qed.

Lemma match_token_Some c r :
  exists t rest, Tokenizer.match_token (String c r) = Some (t, rest).
Proof.
  unfold Tokenizer.match_token.
  pose proof (span_empty Re.is_space c r) as Hws.
  destruct (Str.span Re.is_space (String c r)) as [ws after_ws]; simpl in Hws.
  destruct ws as [|w ws']; cbn [Str.nonempty]; [|eauto].
  destruct (Str.startsWith "//" (String c r)).
  { destruct (Str.span _ (Str.skip 2 (String c r))); eauto. }
  destruct (if Str.startsWith "/*" (String c r) then _ else None) as [[b r0]|];
    [eauto|].
  destruct (Tokenizer.first_prefix _ (String c r)); [eauto|].
  destruct (Str.span Re.is_word (String c r)) as [w after_w].
  destruct w; cbn [Str.nonempty]; [|eauto].
  destruct (Str.span Re.is_digit (String c r)) as [d after_d].
  destruct d; cbn [Str.nonempty].
  2:{ destruct after_d as [|c0 r0]; [eauto|].
      destruct (Ascii.eqb c0 "."); [|eauto].
      destruct (Str.span Re.is_digit r0); eauto. }
  destruct (Re.is_line_terminator c) eqn:Hlt; [|eauto].
  apply line_terminator_is_space in Hlt. rewrite (Hws eq_refl) in Hlt. discriminate.
Qed.

Lemma match_all_from fuel s t :
  In t (Tokenizer.match_all fuel s) ->
  exists s' rest, Tokenizer.match_token s' = Some (t, rest).
Proof.
  revert s; induction fuel as [|f IH]; intros s; [intros []|].
  destruct s as [|c r]; [intros []|].
  cbn [Tokenizer.match_all].
  destruct (Tokenizer.match_token (String c r)) as [[t' rest]|] eqn:Hm.
  - intros [<-|H]; eauto.
  - eauto.
Qed.

Lemma match_all_token s t rest :
  Tokenizer.match_token s = Some (t, rest) ->
  Tokenizer.match_all (String.length s) s
  = t :: Tokenizer.match_all (String.length rest) rest.
Proof.
  intros Hm. pose proof (match_token_shorter _ _ _ Hm) as Hlt.
  destruct s as [|c r]; [discriminate|].
  cbn [String.length Tokenizer.match_all]. rewrite Hm.
  simpl in Hlt. rewrite match_all_enough by lia. reflexivity.
Qed.

(** X1: the token expression matches at every position of the text, so the
    scan skips no character: the matches, joined, are the text again; what
    [tokenize] leaves out is whole matches, and no token is empty. *)
Theorem raw_matches_cover_the_text (code : string) :
  String.concat "" (Tokenizer.match_all (String.length code) code) = code
  /\ Forall (fun t => t <> "") (Tokenizer.tokenize code).
Proof.
  split; [|apply List.Forall_forall].
  - remember (String.length code) as n eqn:Hn.
    revert code Hn. induction n as [n IH] using lt_wf_ind. intros code ->.
    destruct code as [|c r]; [reflexivity|].
    destruct (match_token_Some c r) as (t & rest & Hm).
    rewrite (match_all_token _ _ _ Hm), concat_cons.
    pose proof (match_token_shorter _ _ _ Hm) as Hlt.
    rewrite (IH _ Hlt rest eq_refl).
    symmetry. apply match_token_app, Hm.
  - intros t Hin ->. unfold Tokenizer.tokenize in Hin.
    apply filter_In in Hin as [Hin _].
    apply match_all_from in Hin as (s' & rest & Hm).
    pose proof (match_token_shorter _ _ _ Hm) as Hlt.
    apply match_token_app in Hm. rewrite Hm, append_length in Hlt.
    simpl in Hlt. lia.
Qed.

(** X2: a text that starts with one of the eight two-character operators
    gives that operator as its first token, whatever follows it. *)
Theorem tokenize_two_char_operator op rest :
  In op Tokenizer.two_char_operators ->
  Tokenizer.tokenize (op +:+ rest) = op :: Tokenizer.tokenize rest.
Proof.
  intros Hin. unfold Tokenizer.tokenize.
  rewrite (match_all_token _ _ _ (match_token_two_char_operator op rest Hin)).
  cbn [List.filter].
  replace (Tokenizer.keep_token op) with true; [reflexivity|].
  simpl in Hin. repeat (destruct Hin as [<-|Hin]; [reflexivity|]). destruct Hin.
Qed.

Lemma tokenize_two_char_operator_witness :
  Tokenizer.tokenize ("<=" +:+ "=1") = "<=" :: Tokenizer.tokenize "=1"
  /\ Tokenizer.tokenize "=1" = ["="; "1"].
Proof.
  split; [|reflexivity].
  apply (tokenize_two_char_operator "<=" "=1").
  simpl. auto.
Defined.

Lemma digit_is_word c : Re.is_digit c = true -> Re.is_word c = true.
Proof. unfold Re.is_word. intros ->. reflexivity. Qed.

Lemma all_word_number_digits w :
  Str.all Re.is_word w = true -> Re.is_number_token w = true ->
  Str.all Re.is_digit w = true.
Proof.
  intros Hw Hn. unfold Re.is_number_token in Hn.
  pose proof (span_app Re.is_digit w) as Happ.
  pose proof (span_all Re.is_digit w) as Hall.
  destruct (Str.span Re.is_digit w) as [d r]; simpl in *.
  apply andb_true_iff in Hn as [_ Hn].
  destruct r as [|c r'].
  - rewrite <- Happ. clear -Hall. induction d as [|x d IH]; [reflexivity|].
    simpl in Hall. apply andb_true_iff in Hall as [Hx Hd].
    change (Re.is_digit x && Str.all Re.is_digit (d +:+ "") = true).
    rewrite Hx, IH; auto.
  - apply andb_true_iff in Hn as [Hc _]. apply Ascii.eqb_eq in Hc. subst c.
    exfalso. rewrite <- Happ in Hw. clear -Hw.
    induction d as [|x d IH]; [discriminate|].
    change (Re.is_word x && Str.all Re.is_word (d +:+ String "." r') = true) in Hw.
    apply andb_true_iff in Hw as [_ Hw]. auto.
Qed.

Lemma all_digits_no_point t :
  Str.all Re.is_digit t = true -> Str.includes "." t = false.
Proof.
  induction t as [|c t IH]; [reflexivity|].
  cbn [Str.all Str.includes]. intros H.
  apply andb_true_iff in H as [Hc Ht]. rewrite (IH Ht), orb_false_r.
  destruct (Ascii.eqb_spec "." c) as [<-|]; [discriminate|reflexivity].
Qed.

Lemma match_token_number s t rest :
  Tokenizer.match_token s = Some (t, rest) ->
  Tokenizer.keep_token t = true -> Re.is_number_token t = true ->
  Str.all Re.is_digit t = true.
Proof.
  unfold Tokenizer.match_token.
  pose proof (span_all Re.is_space s) as Hws.
  destruct (Str.span Re.is_space s) as [ws after_ws]; simpl in Hws.
  destruct ws as [|w ws']; cbn [Str.nonempty].
  2:{ intros [= <- <-]. unfold Tokenizer.keep_token, Re.all_space.
      rewrite Hws. discriminate. }
  destruct (Str.startsWith "//" s).
  { destruct (Str.span _ (Str.skip 2 s)) as [body r].
    intros [= <- <-]. discriminate. }
  destruct (if Str.startsWith "/*" s then _ else None) as [[b r]|].
  { intros [= <- <-]. discriminate. }
  destruct (Tokenizer.first_prefix _ s) as [op|] eqn:Hop.
  { intros [= <- <-] _. unfold Tokenizer.first_prefix in Hop.
    apply find_some in Hop as [Hin _]. simpl in Hin.
    repeat (destruct Hin as [<-|Hin]; [discriminate|]). destruct Hin. }
  pose proof (span_all Re.is_word s) as Hw.
  destruct (Str.span Re.is_word s) as [w after_w] eqn:Ew; simpl in Hw.
  destruct w as [|w0 w']; cbn [Str.nonempty].
  2:{ intros [= <- <-] _. apply all_word_number_digits, Hw. }
  destruct s as [|c r].
  { simpl. discriminate. }
  assert (Hc : Re.is_word c = false).
  { apply (span_empty _ c r). rewrite Ew. reflexivity. }
  assert (Hd : Re.is_digit c = false).
  { destruct (Re.is_digit c) eqn:E; [|reflexivity].
    apply digit_is_word in E. congruence. }
  cbn [Str.span]. rewrite Hd. cbn [Str.nonempty].
  destruct (Re.is_line_terminator c); [discriminate|].
  intros [= <- <-] _. unfold Re.is_number_token. cbn [Str.span].
  rewrite Hd. discriminate.
Qed.

(** X3: [\w+] comes before the number alternative of the token expression,
    so no token that passes the number test of the parser holds a point: it
    is made of digits, and [parseNumberLiteral] reads it with [parseInt] as
    an [int] literal. *)
Theorem number_token_has_no_fraction (host : Host) (code : string) (pos : nat) :
  Re.is_number_token (nth pos (Tokenizer.tokenize code) "") = true ->
  Str.all Re.is_digit (nth pos (Tokenizer.tokenize code) "") = true
  /\ Parser.parseNumberLiteral host (Tokenizer.tokenize code) pos
     = Parser.Ok
         (NumberLiteral
            (Num.parseInt_digits (nth pos (Tokenizer.tokenize code) "")) "int")
         (S pos).
Proof.
  intros Hn.
  assert (Hd : Str.all Re.is_digit (nth pos (Tokenizer.tokenize code) "") = true).
  { destruct (Nat.lt_ge_cases pos (length (Tokenizer.tokenize code))) as [Hlt|Hge].
    - pose proof (nth_In _ "" Hlt) as Hin. unfold Tokenizer.tokenize in Hin at 2.
      apply filter_In in Hin as [Hin Hkeep].
      apply match_all_from in Hin as (s' & rest & Hm).
      eapply match_token_number; eauto.
    - rewrite nth_overflow in Hn by exact Hge. discriminate. }
  split; [exact Hd|].
  unfold Parser.parseNumberLiteral, Parser.bind, Parser.consume, Parser.ret.
  rewrite (all_digits_no_point _ Hd). reflexivity.
Qed.

Lemma number_token_has_no_fraction_witness :
  Tokenizer.tokenize "3.14" = ["3"; "."; "14"]
  /\ Parser.parseNumberLiteral silentHost (Tokenizer.tokenize "3.14") 0
     = Parser.Ok (NumberLiteral 3 "int") 1.
Proof.
  split; [reflexivity|].
  apply (number_token_has_no_fraction silentHost "3.14" 0). reflexivity.
Defined.

(** *** The tokens there are *)

Lemma match_token_class s t rest :
  Tokenizer.match_token s = Some (t, rest) ->
  Tokenizer.keep_token t = true -> tokenClass t = true.
Proof.
  unfold Tokenizer.match_token, tokenClass.
  pose proof (span_all Re.is_space s) as Hws.
  destruct (Str.span Re.is_space s) as [ws after_ws]; simpl in Hws.
  destruct ws as [|w ws']; cbn [Str.nonempty].
  2:{ intros [= <- <-]. unfold Tokenizer.keep_token, Re.all_space.
      rewrite Hws. discriminate. }
  destruct (Str.startsWith "//" s).
  { destruct (Str.span _ (Str.skip 2 s)) as [body r].
    intros [= <- <-]. discriminate. }
  destruct (if Str.startsWith "/*" s then _ else None) as [[b r]|].
  { intros [= <- <-] _. reflexivity. }
  destruct (Tokenizer.first_prefix _ s) as [op|] eqn:Hop.
  { intros [= <- <-] _. unfold Tokenizer.first_prefix in Hop.
    apply find_some in Hop as [Hin _].
    replace (Str.mem op _) with true; [rewrite orb_true_r; reflexivity|].
    simpl in Hin. repeat (destruct Hin as [<-|Hin]; [reflexivity|]).
    destruct Hin. }
  pose proof (span_all Re.is_word s) as Hw.
  destruct (Str.span Re.is_word s) as [w after_w] eqn:Ew; simpl in Hw.
  destruct w as [|w0 w']; cbn [Str.nonempty].
  2:{ intros [= <- <-] _. rewrite Hw. cbn [Str.nonempty andb].
      rewrite orb_true_r. reflexivity. }
  destruct s as [|c r]; [simpl; discriminate|].
  assert (Hc : Re.is_word c = false).
  { apply (span_empty _ c r). rewrite Ew. reflexivity. }
  assert (Hd : Re.is_digit c = false).
  { destruct (Re.is_digit c) eqn:E; [|reflexivity].
    apply digit_is_word in E. congruence. }
  cbn [Str.span]. rewrite Hd. cbn [Str.nonempty].
  destruct (Re.is_line_terminator c); [discriminate|].
  intros [= <- <-] _. apply orb_true_r.
Qed.

(** X22: every token [tokenize] returns is a block comment, one of the
    operators and punctuation marks of the token expression, a word, or a
    single character; [++] and [--], which [parseUnaryExpression] and
    [executeUnaryExpression] provide for, are never among them. *)
Theorem tokens_are_classified (code : string) :
  Forall (fun t => tokenClass t = true) (Tokenizer.tokenize code)
  /\ Forall (fun t => Str.mem t ["++"; "--"] = false) (Tokenizer.tokenize code).
Proof.
  assert (H : Forall (fun t => tokenClass t = true) (Tokenizer.tokenize code)).
  { apply List.Forall_forall. intros t Hin. unfold Tokenizer.tokenize in Hin.
    apply filter_In in Hin as [Hin Hkeep].
    apply match_all_from in Hin as (s' & rest & Hm).
    eapply match_token_class; eauto. }
  split; [exact H|].
  eapply List.Forall_impl; [|exact H]. intros t Ht. cbn [Str.mem existsb].
  destruct (String.eqb_spec t "++") as [->|_]; [discriminate|].
  destruct (String.eqb_spec t "--") as [->|_]; [discriminate|].
  reflexivity.
Qed.

(** ** String literals *)

Section StringLiterals.

Lemma stringLiteral_loop_closed body pre post q value n :
  Forall (fun t => t <> q) body -> length body < n ->
  Parser.stringLiteral_loop (pre ++ body ++ q :: post) n q value (length pre)
  = Parser.Ok (value +:+ String.concat "" body) (length pre + length body).
Proof.
  revert pre value n. induction body as [|b body IH]; intros pre value n Hb Hn.
  - destruct n as [|n]; [simpl in Hn; lia|].
    cbn [Parser.stringLiteral_loop app]. unfold Parser.bind, Parser.currentToken.
    rewrite nth_middle_app, String.eqb_refl. unfold Parser.ret.
    simpl. rewrite append_nil_r, Nat.add_0_r. reflexivity.
  - destruct n as [|n]; [simpl in Hn; lia|].
    inversion Hb as [|? ? Hne Hb']; subst.
    cbn [Parser.stringLiteral_loop]. unfold Parser.bind at 1, Parser.currentToken.
    change (pre ++ (b :: body) ++ q :: post)
      with (pre ++ b :: (body ++ q :: post)).
    rewrite nth_middle_app.
    destruct (String.eqb_spec b q) as [->|_]; [congruence|].
    unfold Parser.bind, Parser.consume. rewrite nth_middle_app.
    specialize (IH (pre ++ [b]) (value +:+ b) n Hb' ltac:(simpl in Hn; lia)).
    rewrite <- app_assoc, length_app in IH. simpl in IH.
    replace (S (length pre)) with (length pre + 1) by lia.
    rewrite IH, concat_cons, append_assoc. f_equal. simpl. lia.
Qed.

Lemma stringLiteral_loop_open tokens q n value pos :
  (forall k, pos <= k -> nth k tokens "" <> q) ->
  Parser.stringLiteral_loop tokens n q value pos = Parser.Timeout.
Proof.
  revert value pos; induction n as [|n IH]; intros value pos H; [reflexivity|].
  cbn [Parser.stringLiteral_loop]. unfold Parser.bind, Parser.currentToken.
  destruct (String.eqb_spec (nth pos tokens "") q) as [E|_];
    [destruct (H pos (le_n _) E)|].
  unfold Parser.consume. apply IH. intros k Hk. apply H. lia.
Qed.

End StringLiterals.

(** X4: the value of a string literal is the tokens between its quotes,
    joined with nothing between them: what the tokenizer dropped between two
    tokens (spaces, a line comment) is not in the value. *)
Theorem string_literal_is_concatenation (pre body post : list string)
    (q : string) (n : nat) :
  Forall (fun t => t <> q) body -> length body < n ->
  Parser.parseStringLiteral (pre ++ q :: body ++ q :: post) n (length pre)
  = Parser.Ok (StringLiteral (String.concat "" body))
      (length pre + length body + 2).
Proof.
  intros Hb Hn. unfold Parser.parseStringLiteral, Parser.bind at 1.
  unfold Parser.consume at 1. rewrite nth_middle_app.
  unfold Parser.bind at 1.
  pose proof (stringLiteral_loop_closed body (pre ++ [q]) post q "" n Hb Hn) as H.
  rewrite <- app_assoc, length_app in H. simpl in H.
  replace (S (length pre)) with (length pre + 1) by lia. rewrite H.
  unfold Parser.expect, Parser.bind, Parser.consume.
  replace (pre ++ q :: body ++ q :: post)
    with ((pre ++ q :: body) ++ q :: post) by (rewrite <- app_assoc; reflexivity).
  replace (length pre + 1 + length body) with (length (pre ++ q :: body))
    by (rewrite length_app; simpl; lia).
  rewrite nth_middle_app, String.eqb_refl. unfold Parser.ret.
  f_equal. rewrite length_app. simpl. lia.
Qed.

Lemma string_literal_is_concatenation_witness :
  Tokenizer.tokenize "print('Hello  World');"
  = ["print"; "("] ++ "'" :: ["Hello"; "World"] ++ "'" :: [")"; ";"]
  /\ Parser.parseStringLiteral (Tokenizer.tokenize "print('Hello  World');") 3 2
     = Parser.Ok (StringLiteral "HelloWorld") 6.
Proof.
  split; [reflexivity|].
  apply (string_literal_is_concatenation ["print"; "("] ["Hello"; "World"]
           [")"; ";"] "'" 3).
  - repeat constructor; discriminate.
  - simpl. lia.
Defined.

Section Unterminated.

Variable host : Host.
Variable tokens : list string.
Variable pos : nat.
Hypothesis Hquote : isQuote (nth pos tokens "") = true.
Hypothesis Hopen :
  forall n, Parser.parseStringLiteral tokens n pos = Parser.Timeout.

Lemma quote_is_no_keyword q :
  isQuote q = true ->
  String.eqb q "(" = false /\ String.eqb q "[" = false
  /\ String.eqb q "{" = false /\ Str.mem q ["-"; "!"; "++"; "--"] = false
  /\ String.eqb q "let" || String.eqb q "const" = false
  /\ String.eqb q "func" = false /\ String.eqb q "if" = false
  /\ String.eqb q "for" = false /\ String.eqb q "while" = false
  /\ String.eqb q "return" = false.
Proof.
  unfold isQuote. intros H.
  apply orb_true_iff in H as [H|H]; apply String.eqb_eq in H; subst q;
    repeat split; reflexivity.
Qed.

Lemma unterminated_primary pe n :
  Parser.parsePrimaryExpression host tokens pe n pos = Parser.Timeout.
Proof.
  destruct (quote_is_no_keyword _ Hquote) as (H1 & H2 & H3 & _).
  unfold Parser.parsePrimaryExpression, Parser.bind, Parser.currentToken.
  rewrite H1, H2, H3. fold (isQuote (nth pos tokens "")). rewrite Hquote.
  apply Hopen.
Qed.

Lemma unterminated_unary pe n :
  Parser.parseUnaryExpression host tokens pe n pos = Parser.Timeout.
Proof.
  destruct (quote_is_no_keyword _ Hquote) as (_ & _ & _ & H & _).
  destruct n as [|n]; [reflexivity|].
  cbn [Parser.parseUnaryExpression]. unfold Parser.bind at 1, Parser.currentToken.
  rewrite H. unfold Parser.parsePostfixExpression, Parser.bind.
  rewrite unterminated_primary. reflexivity.
Qed.

Lemma unterminated_level operand ops n :
  operand pos = Parser.Timeout ->
  Parser.binary_level tokens operand ops n pos = Parser.Timeout.
Proof. intros H. unfold Parser.binary_level, Parser.bind. rewrite H. reflexivity. Qed.

Lemma unterminated_expression f :
  Parser.parseExpression host tokens f pos = Parser.Timeout.
Proof.
  destruct f as [|[|f]]; try reflexivity.
  cbn [Parser.parseExpression Parser.parseAssignmentExpression].
  unfold Parser.bind at 1.
  unfold Parser.parseLogicalOrExpression, Parser.parseLogicalAndExpression,
    Parser.parseEqualityExpression, Parser.parseRelationalExpression,
    Parser.parseAdditiveExpression, Parser.parseMultiplicativeExpression.
  rewrite unterminated_level; [reflexivity|].
  repeat (apply unterminated_level). apply unterminated_unary.
Qed.

Lemma unterminated_statement f :
  Parser.parseStatement host tokens f pos = Parser.Timeout.
Proof.
  destruct (quote_is_no_keyword _ Hquote)
    as (_ & _ & _ & _ & H1 & H2 & H3 & H4 & H5 & H6).
  destruct f as [|f]; [reflexivity|].
  cbn [Parser.parseStatement].
  unfold Parser.parseStatement_body, Parser.bind at 1, Parser.currentToken.
  rewrite H1, H2, H3, H4, H5, H6.
  unfold Parser.parseExpressionStatement, Parser.bind.
  rewrite unterminated_expression. reflexivity.
Qed.

End Unterminated.

(** X5: a program whose first token is a quote that no later token
    closes is never parsed: the loop of [parseStringLiteral] goes on past the
    last token, where [consume] returns the empty string, for ever. *)
Theorem unterminated_string_never_parses (host : Host) (fuel : nat)
    (code : string) :
  isQuote (nth 0 (Tokenizer.tokenize code) "") = true ->
  (forall k, 0 < k ->
     nth k (Tokenizer.tokenize code) "" <> nth 0 (Tokenizer.tokenize code) "") ->
  Parser.parse host fuel code = None.
Proof.
  unfold Parser.parse. generalize (Tokenizer.tokenize code) as tokens.
  intros tokens Hq Hopen.
  assert (Hs : forall n, Parser.parseStringLiteral tokens n 0 = Parser.Timeout).
  { intros n. unfold Parser.parseStringLiteral, Parser.bind at 1.
    unfold Parser.consume at 1. unfold Parser.bind at 1.
    rewrite stringLiteral_loop_open; [reflexivity|].
    intros k Hk. apply Hopen. lia. }
  unfold Parser.parseProgram. destruct fuel as [|n]; [reflexivity|].
  cbn [Parser.parseProgram_loop].
  rewrite (unterminated_statement host tokens 0 Hq Hs).
  destruct (0 <? length tokens)%nat eqn:E; [reflexivity|].
  destruct tokens; [discriminate Hq | discriminate E].
Qed.

Lemma unterminated_string_never_parses_witness :
  Tokenizer.tokenize "'abc; print(1);"
  = ["'"; "abc"; ";"; "print"; "("; "1"; ")"; ";"]
  /\ Parser.parse silentHost 100 "'abc; print(1);" = None.
Proof.
  split; [reflexivity|].
  apply (unterminated_string_never_parses silentHost 100 "'abc; print(1);");
    [reflexivity|].
  intros k Hk.
  do 8 (destruct k as [|k]; [try lia; discriminate|]).
  simpl. destruct k; discriminate.
Defined.

(** ** The type system and the type check *)

Lemma append_question_neq n : String.eqb (n +:+ "?") n = false.
Proof.
  apply String.eqb_neq. intros H. apply (f_equal String.length) in H.
  rewrite append_length in H. simpl in H. lia.
Qed.

(** X6: a type that is not nullable can be assigned to the nullable type
    made from it, and the nullable type cannot be assigned back. *)
Theorem nullable_widening (n : string) (p : bool) (g : option (list TypeInfo)) :
  let t := mkTypeInfo n p false g in
  HackScriptTypeSystem.isAssignable t (HackScriptTypeSystem.createNullableType t)
  = true
  /\ HackScriptTypeSystem.isAssignable
       (HackScriptTypeSystem.createNullableType t) t = false.
Proof.
  unfold HackScriptTypeSystem.isAssignable, HackScriptTypeSystem.createNullableType.
  simpl. rewrite append_question_neq.
  split.
  - destruct (String.eqb n (n +:+ "?")); [reflexivity|].
    destruct (_ && _); reflexivity.
  - destruct (String.eqb_spec n "float") as [->|]; [reflexivity|].
    rewrite andb_false_r. reflexivity.
Qed.

(** X7: the type inferred for [null] is itself nullable, so the nullable
    case of [isAssignable] never applies to it: a declaration initialised
    with [null] passes the type check only when its declared type is named
    [null], and [let x: int? = null;] is rejected. *)
Theorem null_initializer (global : ExecutionContext) (keyword name : string)
    (ty : TypeInfo) (mutable : bool) :
  typeCheckStatement global
    (VariableDeclaration keyword name ty (Some NullLiteral) mutable)
  = (if String.eqb (ty_name ty) "null" then []
     else [typeError "null" (ty_name ty)])
  /\ run silentHost 30 30 "let x: int? = null;" constructor
     = Some (mkResult false None None [] []
               (Some [typeError "null" "int?"])).
Proof.
  split; [|reflexivity].
  unfold typeCheckStatement, inferType, HackScriptTypeSystem.isAssignable.
  cbn [ty_name ty_nullable]. rewrite (String.eqb_sym "null").
  destruct (String.eqb (ty_name ty) "null"); [reflexivity|].
  change (String.eqb "null" "int") with false.
  rewrite andb_false_r. reflexivity.
Qed.

Lemma untyped_inferType global e :
  untyped global e = true -> inferType global e = unknownType.
Proof.
  destruct e; simpl; try discriminate; try reflexivity.
  destruct (variables global !! name); [discriminate|reflexivity].
Qed.

(** X8: the type check runs on the whole program before anything is
    evaluated, and reads the global context only.  A top-level declaration
    whose initializer is a call, an index or property access, a unary
    expression, an assignment, an object literal, or a variable that was not
    in the global context before the run, is given the type [unknown] and
    rejected, unless its declared type is nullable or named [unknown];
    nothing is evaluated and the interpreter is left as it was. *)
Theorem untyped_initializer_rejected (host : Host) (pfuel efuel : nat)
    (code : string) (this : Interpreter) (body : list stmt)
    (keyword name : string) (ty : TypeInfo) (e : expr) (mutable : bool) :
  Parser.parse host pfuel code = Some (Program body, []) ->
  In (VariableDeclaration keyword name ty (Some e) mutable) body ->
  untyped (globalContext this) e = true ->
  ty_nullable ty = false -> String.eqb (ty_name ty) "unknown" = false ->
  exists errors,
    execute host pfuel efuel code this
    = Some (mkResult false None None [] [] (Some errors),
            mkInterpreter (globalContext this) [] [] (this_allocated this))
    /\ In (typeError "unknown" (ty_name ty)) errors.
Proof.
  intros Hparse Hin He Hn Hu.
  assert (Herr : In (typeError "unknown" (ty_name ty))
                   (typeCheck (globalContext this) (Program body))).
  { simpl. apply in_flat_map. eexists. split; [exact Hin|].
    unfold typeCheckStatement. rewrite (untyped_inferType _ _ He).
    unfold HackScriptTypeSystem.isAssignable, unknownType.
    cbn [ty_name ty_nullable]. rewrite String.eqb_sym in Hu. rewrite Hu, Hn.
    left. reflexivity. }
  exists (typeCheck (globalContext this) (Program body)).
  split; [|exact Herr].
  unfold execute. rewrite Hparse. simpl.
  destruct (flat_map _ body) as [|x l] eqn:E; [|reflexivity].
  simpl in Herr. rewrite E in Herr. destruct Herr.
Qed.

Lemma untyped_initializer_rejected_witness :
  exists errors,
    execute silentHost 30 30 "let a: int = 1; let b: int = a;" constructor
    = Some (mkResult false None None [] [] (Some errors),
            mkInterpreter (globalContext constructor) [] [] 0)
    /\ In (typeError "unknown" "int") errors.
Proof.
  apply (untyped_initializer_rejected silentHost 30 30
           "let a: int = 1; let b: int = a;" constructor
           [VariableDeclaration "let" "a" intType (Some (NumberLiteral 1 "int")) true;
            VariableDeclaration "let" "b" intType (Some (Identifier "a")) true]
           "let" "b" intType (Identifier "a") true);
    [reflexivity | right; left; reflexivity | reflexivity | reflexivity
    | reflexivity].
Defined.

(** ** Truthiness *)

(** X9: the truthiness of conditions ([isTruthy]) is the one of [!], [&&]
    and [||] (JavaScript's), except on NaN, which a condition takes as
    true. *)
Theorem isTruthy_toBoolean (v : value) :
  isTruthy v = JS.toBoolean v || isNaNValue v.
Proof.
  destruct v as [| |b|n|s| | |]; simpl; try reflexivity.
  - destruct b; reflexivity.
  - unfold Num.isNaN. rewrite FloatAxioms.eqb_spec.
    destruct (Prim2SF n) eqn:E; simpl; rewrite ?orb_false_r; reflexivity.
  - destruct s; reflexivity.
Qed.

(** ** Scopes *)

Lemma sameNames_lookup_None name l l' :
  sameNames l l' -> lookupVariable name l = None ->
  lookupVariable name l' = None.
Proof.
  unfold sameNames. revert l'; induction l as [|c p IH]; intros [|c' p'];
    simpl; try discriminate; auto.
  intros [= Hv Hf Hp].
  destruct (variables c !! name) eqn:Hc; [discriminate|].
  apply not_elem_of_dom in Hc. rewrite Hv in Hc. apply not_elem_of_dom in Hc.
  rewrite Hc.
  destruct (lookupVariable name p) as [[]|] eqn:E; [discriminate|].
  intros _. rewrite (IH _ Hp eq_refl). reflexivity.
Qed.

(** X10: when a block or a [for] statement completes, every context of the
    chain has the names it had before: what was declared inside is gone, and
    a name that did not resolve before does not resolve after. *)
Theorem scope_declarations_do_not_escape (host : Host) (fuel : nat)
    (st : stmt) (s s' : state) (v : value) :
  opensScope st = true ->
  executeStatement host fuel st s = Normal v s' ->
  sameNames (chain s) (chain s')
  /\ forall name, lookupVariable name (chain s) = None ->
                  lookupVariable name (chain s') = None.
Proof.
  intros Hst Hrun.
  assert (H : sameNames (chain s) (chain s')).
  { destruct fuel as [|f]; [discriminate|].
    destruct (evaluation_names host f) as [HS HE].
    assert (Hp : preservesNames (executeStatement host (S f) st)).
    { destruct st; try discriminate; simpl.
      - unfold executeForStatement. apply preserves_scoped.
        apply extends_bind; [apply HS|intros _].
        apply extends_for_loop; assumption.
      - unfold executeBlockStatement. apply preserves_scoped.
        apply extends_executeStatements; assumption. }
    specialize (Hp s). rewrite Hrun in Hp. apply Hp. }
  split; [exact H|]. intros name. apply sameNames_lookup_None, H.
Qed.

Lemma scope_declarations_do_not_escape_witness :
  lookupVariable "x"
    (chain (mkState [emptyContext] [] 0)) = None
  /\ exists s',
       executeStatement silentHost 3
         (BlockStatement
            [VariableDeclaration "let" "x" intType
               (Some (NumberLiteral 1 "int")) true])
         (mkState [emptyContext] [] 0) = Normal VUndefined s'
       /\ lookupVariable "x" (chain s') = None.
Proof.
  split; [reflexivity|]. eexists. split; [reflexivity|].
  eapply (scope_declarations_do_not_escape silentHost 3
            (BlockStatement
               [VariableDeclaration "let" "x" intType
                  (Some (NumberLiteral 1 "int")) true])
            (mkState [emptyContext] [] 0));
    reflexivity.
Defined.

(** X11: the context of a call has the calling context as its parent, not
    the context of the declaration: a function that returns a variable it
    does not declare returns the binding the caller sees. *)
Theorem call_reads_callers_variables (host : Host) (fuel : nat) (s : state)
    (g x : string) (rt : TypeInfo) (i : nat) (b : Binding) :
  resolveFunction g (chain s) = Some (UserDefined g [] rt (returns x)) ->
  lookupVariable x (chain s) = Some (i, b) ->
  executeExpression host (4 + fuel) (FunctionCall (Identifier g) []) s
  = Normal (b_value b) (mkState (chain s) (output s) (allocated s)).
Proof.
  intros Hg Hx. simpl.
  unfold executeFunctionCall, bind, gets, ret. simpl. rewrite Hg.
  unfold executeUserFunction, bind, enter, leave, modify, ret. simpl.
  unfold executeBlockStatement, bind, enter, leave, modify, ret. simpl.
  unfold resolveVariable, bind, gets. simpl.
  rewrite !lookup_empty, Hx. reflexivity.
Qed.

Lemma call_reads_callers_variables_witness :
  executeExpression silentHost 4 (FunctionCall (Identifier "g") []) callSite
  = Normal (VNumber 7) callSite.
Proof.
  apply (call_reads_callers_variables silentHost 0 callSite "g" "x" intType 0
           (mkBinding intType (VNumber 7) true));
    reflexivity.
Defined.

Lemma sameNames_nonempty l l' : sameNames l l' -> l <> [] -> l' <> [].
Proof. unfold sameNames. destruct l, l'; simpl; congruence. Qed.

(** X12: a declaration never fails because the name is bound already: it
    replaces the binding of the current context, also an immutable one, by
    one with the new type, value and mutability. *)
Theorem redeclaration_replaces (host : Host) (fuel : nat)
    (keyword name : string) (ty : TypeInfo) (e : expr) (mutable : bool) (s s1 : state) (v : value) :
  chain s <> [] ->
  executeExpression host fuel e s = Normal v s1 ->
  exists s2,
    executeStatement host (S fuel)
      (VariableDeclaration keyword name ty (Some e) mutable) s
    = Normal VUndefined s2
    /\ lookupVariable name (chain s2) = Some (0, mkBinding ty v mutable)
    /\ output s2 = output s1.
Proof.
  intros Hne He.
  pose proof (proj2 (evaluation_names host fuel) e s) as Hn.
  rewrite He in Hn. destruct Hn as [Hn _].
  apply sameNames_nonempty in Hn; [|exact Hne].
  simpl. unfold executeVariableDeclaration, bind. rewrite He. simpl.
  eexists. split; [reflexivity|]. simpl.
  destruct (chain s1) as [|c p]; [congruence|]. simpl.
  rewrite lookup_insert_eq. auto.
Qed.

Lemma redeclaration_replaces_witness :
  exists s2,
    executeStatement silentHost 2
      (VariableDeclaration "let" "x" intType (Some (NumberLiteral 2 "int")) true)
      (mkState
         [mkContext (<["x" := mkBinding intType (VNumber 1) false]> ∅) ∅] [] 0)
    = Normal VUndefined s2
    /\ lookupVariable "x" (chain s2)
       = Some (0, mkBinding intType (VNumber 2) true)
    /\ output s2 = [].
Proof.
  apply (redeclaration_replaces silentHost 1 "let" "x" intType
           (NumberLiteral 2 "int") true
           (mkState
              [mkContext (<["x" := mkBinding intType (VNumber 1) false]> ∅) ∅]
              [] 0)
           (mkState
              [mkContext (<["x" := mkBinding intType (VNumber 1) false]> ∅) ∅]
              [] 0));
    [discriminate | reflexivity].
Defined.

(** *** Arguments *)

(** X23: when a call passes an argument for every parameter, the
    parameters are bound to the arguments in order without evaluating any
    default and without touching the state, and the arguments beyond the
    parameters are left out. *)
Theorem arguments_bind_without_evaluation (execE : expr -> E value)
    (params : list Param) (args extra : list value)
    (vars : gmap string Binding) (s : state) :
  length params <= length args ->
  bindParameters execE params (args ++ extra) vars s
  = Normal (bindArguments params args vars) s.
Proof.
  revert args vars. induction params as [|param params IH]; intros args vars Hle.
  - destruct args; reflexivity.
  - destruct args as [|a args]; [simpl in Hle; lia|].
    cbn [bindParameters bindArguments app]. unfold bind, ret. simpl.
    apply IH. simpl in Hle. lia.
Qed.

Lemma arguments_bind_without_evaluation_witness :
  bindParameters (fun _ => throw "never evaluated")
    [mkParam "a" intType (Some (Identifier "missing"))]
    ([VNumber 1] ++ [VNumber 2]) ∅ (mkState [] [] 0)
  = Normal (<["a" := mkBinding intType (VNumber 1) true]> ∅) (mkState [] [] 0).
Proof.
  apply (arguments_bind_without_evaluation (fun _ => throw "never evaluated")
           [mkParam "a" intType (Some (Identifier "missing"))]
           [VNumber 1] [VNumber 2] ∅ (mkState [] [] 0)).
  simpl. lia.
Defined.

(** ** Relations kept by the whole evaluator *)

Create HintDb frame.

Section FrameSteps.

Context {Re Rs Rt : state -> state -> Prop} (F : Frame Re Rs Rt).

Lemma keeps_sub {A} (m : E A) : keeps Re Rt m -> keeps Rs Rt m.
Proof.
  intros H s. specialize (H s). destruct (m s); auto. eapply fr_sub; eauto.
Qed.

Lemma keeps_ret {A} (a : A) : keeps Re Rt (ret a).
Proof. intros s. apply (fr_refl _ _ _ F). Qed.

Lemma keeps_throw {A} msg : keeps Re Rt (@throw A msg).
Proof. intros s. apply (fr_throw_refl _ _ _ F). Qed.

Lemma keeps_diverge {A} R T : keeps R T (@diverge A).
Proof. intros s. exact I. Qed.

Lemma keeps_gets {A} (f : state -> A) : keeps Re Rt (gets f).
Proof. intros s. apply (fr_refl _ _ _ F). Qed.

Lemma keeps_lift {A} (r : A + string) : keeps Re Rt (lift r).
Proof. destruct r; [apply keeps_ret | apply keeps_throw]. Qed.

Lemma keeps_bind {A B} (m : E A) (k : A -> E B) :
  keeps Re Rt m -> (forall a, keeps Re Rt (k a)) -> keeps Re Rt (bind m k).
Proof.
  intros Hm Hk s. unfold bind. specialize (Hm s).
  destruct (m s) as [a s1|msg s1|]; auto.
  specialize (Hk a s1). destruct (k a s1) as [b s2|msg s2|]; auto.
  - eapply fr_trans; eauto.
  - eapply fr_throw; eauto. eapply fr_sub; eauto.
Qed.

Lemma keeps_bind_s {A B} (m : E A) (k : A -> E B) :
  keeps Rs Rt m -> (forall a, keeps Rs Rt (k a)) -> keeps Rs Rt (bind m k).
Proof.
  intros Hm Hk s. unfold bind. specialize (Hm s).
  destruct (m s) as [a s1|msg s1|]; auto.
  specialize (Hk a s1). destruct (k a s1) as [b s2|msg s2|]; auto.
  - eapply fr_trans_s; eauto.
  - eapply fr_throw; eauto.
Qed.

Lemma keeps_pushOutput line : keeps Re Rt (pushOutput line).
Proof. intros s. apply (fr_output _ _ _ F). Qed.

Lemma keeps_allocate : keeps Re Rt allocate.
Proof. intros s. apply (fr_allocate _ _ _ F). Qed.

Lemma keeps_setVariable name b : keeps Rs Rt (setVariable name b).
Proof. intros s. apply (fr_setVariable _ _ _ F). Qed.

Lemma keeps_setFunction name f : keeps Rs Rt (setFunction name f).
Proof. intros s. apply (fr_setFunction _ _ _ F). Qed.

(** The store of an assignment: made only to a mutable binding. *)
Lemma keeps_store name v :
  keeps Re Rt
    (do variable <- resolveVariableReference name;
     if negb (b_mutable (snd variable))
     then throw ("Cannot assign to immutable variable: " +:+ name)
     else (do _ <- writeValue (fst variable) name v; ret v)).
Proof.
  intros s. unfold bind, resolveVariableReference, gets, bind. simpl.
  destruct (lookupVariable name (chain s)) as [[i b]|] eqn:Hl; simpl;
    [|apply (fr_throw_refl _ _ _ F)].
  destruct (b_mutable b) eqn:Hm; simpl;
    [|apply (fr_throw_refl _ _ _ F)].
  eapply fr_write; eauto.
Qed.

(** A step run in a context of its own, dropped afterwards. *)
Lemma keeps_scoped {A} (c : ExecutionContext) (m : E A) :
  keeps Rs Rt m ->
  keeps Re Rt (do _ <- enter c; do r <- m; do _ <- leave; ret r).
Proof.
  intros Hm s. unfold bind, enter, leave, modify, ret. simpl.
  specialize (Hm (with_chain (cons c) s)).
  destruct (m _) as [a s1|msg s1|]; simpl in *; auto.
  - eapply fr_scope; eauto.
  - eapply fr_enter_throw; eauto.
Qed.

End FrameSteps.

#[local] Hint Resolve keeps_ret keeps_throw keeps_diverge keeps_gets
  keeps_lift keeps_pushOutput keeps_allocate keeps_setVariable
  keeps_setFunction keeps_sub : frame.

Ltac frame_step F :=
  match goal with
  | |- keeps _ _ (bind (enter _) _) =>
      first [apply (keeps_scoped F) | apply (keeps_sub F), (keeps_scoped F)]
  | |- keeps _ _ (bind (resolveVariableReference _) _) =>
      apply (keeps_store F)
  | |- keeps _ _ (bind _ _) =>
      first [apply (keeps_bind F) | apply (keeps_bind_s F)]; [|intros ?]
  | |- keeps _ _ (if ?b then _ else _) => destruct b
  | |- keeps _ _ (match ?x with _ => _ end) => destruct x
  end.

Ltac frame_tac F := repeat frame_step F; eauto with frame.

Section KnotFrame.

Context {Re Rs Rt : state -> state -> Prop} (F : Frame Re Rs Rt).
Variable host : Host.
Variable execS : stmt -> E value.
Variable execE : expr -> E value.
Hypothesis HS : forall st, keeps Rs Rt (execS st).
Hypothesis HE : forall e, keeps Re Rt (execE e).

Lemma keeps_executeStatements body r :
  keeps Rs Rt (executeStatements execS body r).
Proof. revert r; induction body; intros r; simpl; frame_tac F. Qed.

Lemma keeps_executeExpressions es :
  keeps Re Rt (executeExpressions execE es).
Proof. induction es; simpl; frame_tac F. Qed.

Lemma keeps_executeProperties properties obj :
  keeps Re Rt (executeProperties host execE properties obj).
Proof.
  revert obj; induction properties as [|[key e] rest IH]; intros obj; simpl;
    frame_tac F.
Qed.

Lemma keeps_bindParameters params args vars :
  keeps Re Rt (bindParameters execE params args vars).
Proof.
  revert args vars; induction params; intros args vars; simpl; frame_tac F.
Qed.

Lemma keeps_callBuiltin f args : keeps Re Rt (callBuiltin host f args).
Proof. unfold callBuiltin. destruct f; frame_tac F. Qed.

Lemma keeps_for_loop n condition update body r :
  keeps Rs Rt (for_loop execS execE n condition update body r).
Proof. revert r; induction n; intros r; simpl; frame_tac F. Qed.

Lemma keeps_while_loop n condition body r :
  keeps Rs Rt (while_loop execS execE n condition body r).
Proof. revert r; induction n; intros r; simpl; frame_tac F. Qed.

Hint Resolve keeps_executeStatements keeps_executeExpressions
  keeps_executeProperties keeps_bindParameters keeps_callBuiltin
  keeps_for_loop keeps_while_loop : frame.

Lemma keeps_executeStatement_body n st :
  keeps Rs Rt (executeStatement_body execS execE n st).
Proof.
  destruct st; simpl;
    unfold executeVariableDeclaration, executeFunctionDeclaration,
      executeIfStatement, executeForStatement, executeWhileStatement,
      executeReturnStatement, executeBlockStatement;
    frame_tac F.
Qed.

Lemma keeps_executeExpression_body e :
  keeps Re Rt (executeExpression_body host execS execE e).
Proof.
  destruct e; simpl;
    unfold executeBinaryExpression, executeUnaryExpression,
      executeAssignmentExpression, executeFunctionCall, executeUserFunction,
      executeArrayAccess, executePropertyAccess, resolveVariable;
    frame_tac F.
Qed.

End KnotFrame.

Lemma evaluation_frame {Re Rs Rt} (F : Frame Re Rs Rt) (host : Host)
    (fuel : nat) :
  (forall st, keeps Rs Rt (executeStatement host fuel st))
  /\ (forall e, keeps Re Rt (executeExpression host fuel e)).
Proof.
  induction fuel as [|f [IHS IHE]]; simpl.
  - split; intros; apply keeps_diverge.
  - split; intros.
    + apply (keeps_executeStatement_body F); assumption.
    + apply (keeps_executeExpression_body F); assumption.
Qed.

Section Kept.

Lemma keptBinding_refl b : keptBinding b b.
Proof. repeat split. Qed.

Lemma keptBinding_trans a b c :
  keptBinding a b -> keptBinding b c -> keptBinding a c.
Proof.
  intros (Ht & Hm & Hv) (Ht' & Hm' & Hv'). repeat split; try congruence.
  intros H. rewrite Hv', Hv; congruence.
Qed.

Lemma keptContext_refl c : keptContext c c.
Proof.
  split; [reflexivity|]. intros name.
  destruct (variables c !! name); constructor. apply keptBinding_refl.
Qed.

Lemma keptContext_trans a b c :
  keptContext a b -> keptContext b c -> keptContext a c.
Proof.
  intros [Hf H] [Hf' H']. split; [congruence|]. intros name.
  specialize (H name). specialize (H' name).
  destruct H; inversion H'; subst; constructor.
  eapply keptBinding_trans; eauto.
Qed.

Lemma keptChain_refl l : Forall2 keptContext l l.
Proof. induction l; constructor; auto using keptContext_refl. Qed.

Lemma keptChain_trans l1 l2 l3 :
  Forall2 keptContext l1 l2 -> Forall2 keptContext l2 l3 ->
  Forall2 keptContext l1 l3.
Proof.
  intros H; revert l3; induction H; intros l3 H'; inversion H'; subst;
    constructor; eauto using keptContext_trans.
Qed.

Lemma keptChain_tail l l' :
  Forall2 keptContext l l' -> Forall2 keptContext (tail l) (tail l').
Proof. intros [|]; simpl; auto. Qed.

Lemma lookupVariable_Some name l i b :
  lookupVariable name l = Some (i, b) ->
  exists c, l !! i = Some c /\ variables c !! name = Some b.
Proof.
  revert i; induction l as [|c p IH]; intros i; simpl; [discriminate|].
  destruct (variables c !! name) as [b0|] eqn:Hc.
  - intros [= <- <-]. eauto.
  - destruct (lookupVariable name p) as [[j b1]|]; [|discriminate].
    intros [= <- <-]. destruct (IH j eq_refl) as (c' & ? & ?). eauto.
Qed.

Lemma keptContext_store name v c b :
  variables c !! name = Some b -> b_mutable b = true ->
  keptContext c (storeValue name v c).
Proof.
  intros Hb Hm. split; [reflexivity|]. intros x. simpl.
  destruct (decide (x = name)) as [->|Hne].
  - rewrite lookup_alter_eq, Hb. simpl. constructor.
    repeat split. simpl. congruence.
  - rewrite lookup_alter_ne by congruence.
    destruct (variables c !! x); constructor. apply keptBinding_refl.
Qed.

Lemma keptChain_alter f i l c :
  l !! i = Some c -> keptContext c (f c) ->
  Forall2 keptContext l (alter f i l).
Proof.
  unfold alter. revert i; induction l as [|d l IH]; intros [|i]; simpl;
    try discriminate.
  - intros [= ->] H. constructor; [exact H | apply keptChain_refl].
  - intros Hl H. constructor; [apply keptContext_refl | eauto].
Qed.

Lemma kept_frame : Frame keptChain keptParents anyState.
Proof.
  unfold keptChain, keptParents, anyState. constructor; simpl; try tauto.
  - intros s. apply keptChain_refl.
  - intros a b c. apply keptChain_trans.
  - intros a b c. apply keptChain_trans.
  - intros a b. apply keptChain_tail.
  - intros s line. apply keptChain_refl.
  - intros s. apply keptChain_refl.
  - intros s name b. destruct (chain s); apply keptChain_refl.
  - intros s name f. destruct (chain s); apply keptChain_refl.
  - intros s name i b v H Hm.
    destruct (lookupVariable_Some _ _ _ _ H) as (c & Hc & Hb).
    eapply keptChain_alter; eauto using keptContext_store.
Qed.

Lemma keptChain_lookup name l l' i b :
  Forall2 keptContext l l' -> lookupVariable name l = Some (i, b) ->
  exists b', lookupVariable name l' = Some (i, b') /\ keptBinding b b'.
Proof.
  intros H; revert i; induction H as [|c c' p p' [_ Hc] Hp IH]; intros i;
    simpl; [discriminate|].
  specialize (Hc name). destruct Hc as [b0 b0' Hk|].
  - intros [= <- <-]. eauto.
  - destruct (lookupVariable name p) as [[j b1]|]; [|discriminate].
    intros [= <- <-]. destruct (IH j eq_refl) as (b' & -> & Hk). eauto.
Qed.

Lemma keptChain_resolveFunction name l l' :
  Forall2 keptContext l l' -> resolveFunction name l' = resolveFunction name l.
Proof.
  induction 1 as [|c c' p p' [Hf _] Hp IH]; simpl; [reflexivity|].
  rewrite Hf, IH. reflexivity.
Qed.

End Kept.

(** X13: evaluating an expression, calls of user functions included, never
    changes which binding a name resolves to, nor its declared type, nor
    whether it is mutable; an immutable binding keeps its value too. *)
Theorem expression_keeps_bindings (host : Host) (fuel : nat) (e : expr)
    (s s' : state) (v : value) (name : string) (i : nat) (b : Binding) :
  executeExpression host fuel e s = Normal v s' ->
  lookupVariable name (chain s) = Some (i, b) ->
  exists b',
    lookupVariable name (chain s') = Some (i, b')
    /\ b_type b' = b_type b /\ b_mutable b' = b_mutable b
    /\ (b_mutable b = false -> b' = b).
Proof.
  intros He Hl.
  pose proof (proj2 (evaluation_frame kept_frame host fuel) e s) as H.
  rewrite He in H.
  destruct (keptChain_lookup _ _ _ _ _ H Hl) as (b' & Hl' & Ht & Hm & Hv).
  exists b'. repeat split; auto.
  intros Hc. specialize (Hv Hc). destruct b, b'; simpl in *; congruence.
Qed.

Lemma expression_keeps_bindings_witness :
  match
    executeExpression silentHost 3
      (AssignmentExpression (Identifier "x") (NumberLiteral 2 "int"))
      (mkState
         [mkContext
            (<["x" := mkBinding intType (VNumber 1) true]>
               (<["c" := mkBinding intType (VNumber 5) false]> ∅)) ∅] [] 0)
  with
  | Normal v s' =>
      v = VNumber 2
      /\ lookupVariable "c" (chain s')
         = Some (0, mkBinding intType (VNumber 5) false)
  | _ => False
  end.
Proof.
  destruct (executeExpression silentHost 3 _ _) as [v s'|msg s'|] eqn:E;
    [|discriminate E..].
  split; [injection E as <- _; reflexivity|].
  destruct (expression_keeps_bindings _ _ _ _ _ _ "c" 0
              (mkBinding intType (VNumber 5) false) E eq_refl)
    as (b' & Hl & _ & _ & Hv).
  rewrite Hl, (Hv eq_refl). reflexivity.
Defined.

(** X14: evaluating an expression never defines, replaces or removes a
    function: a function declared inside a called function is gone when the
    call returns, and every name resolves to the function it resolved to. *)
Theorem expression_keeps_functions (host : Host) (fuel : nat) (e : expr)
    (s : state) (name : string) :
  match executeExpression host fuel e s with
  | Normal _ s' =>
      resolveFunction name (chain s') = resolveFunction name (chain s)
  | _ => True
  end.
Proof.
  pose proof (proj2 (evaluation_frame kept_frame host fuel) e s) as H.
  destruct (executeExpression host fuel e s); auto.
  apply keptChain_resolveFunction, H.
Qed.

Section GlobalNames.

Lemma namesWithin_refl c : namesWithin c c.
Proof. split; reflexivity. Qed.

Lemma namesWithin_trans a b c :
  namesWithin a b -> namesWithin b c -> namesWithin a c.
Proof. intros [] []; split; etrans; eauto. Qed.

Lemma namesWithin_empty c : namesWithin emptyContext c.
Proof. split; simpl; rewrite dom_empty_L; apply empty_subseteq. Qed.

Lemma last_cons_cons {A} (a b : A) l d :
  List.last (a :: b :: l) d = List.last (b :: l) d.
Proof. reflexivity. Qed.

Lemma last_default {A} (l : list A) d d' :
  l <> [] -> List.last l d = List.last l d'.
Proof.
  induction l as [|a [|b l] IH]; intros H; [congruence|reflexivity|].
  rewrite !last_cons_cons. apply IH. discriminate.
Qed.

Lemma last_alter_names f i l d :
  (forall c, names (f c) = names c) ->
  names (List.last (alter f i l) d) = names (List.last l d).
Proof.
  intros Hf. unfold alter. revert i.
  induction l as [|a [|b l] IH]; intros [|i]; try reflexivity.
  - simpl. apply Hf.
  - specialize (IH i). destruct i; simpl in *; auto.
Qed.

Lemma names_within c c' : names c = names c' -> namesWithin c c'.
Proof. unfold names. intros [= Hv Hf]. split; rewrite ?Hv, ?Hf; reflexivity. Qed.

Lemma globalGrows_in_current f l :
  (forall c, namesWithin c (f c)) ->
  namesWithin (List.last l emptyContext) (List.last (in_current f l) emptyContext).
Proof.
  intros Hf. destruct l as [|a [|b l]]; simpl; auto using namesWithin_refl.
Qed.

Lemma length_in_current f l : length (in_current f l) = length l.
Proof. destruct l; reflexivity. Qed.

Lemma global_frame : Frame globalGrowsLevel globalGrowsLevel globalGrows.
Proof.
  unfold globalGrowsLevel, globalGrows, glob.
  constructor; simpl; try tauto.
  - intros s. split; [reflexivity | apply namesWithin_refl].
  - intros a b c [] []. split; [congruence | eapply namesWithin_trans; eauto].
  - intros a b c [] []. split; [congruence | eapply namesWithin_trans; eauto].
  - intros s. apply namesWithin_refl.
  - intros a b c [] ?. eapply namesWithin_trans; eauto.
  - intros c s s'. destruct (chain s); auto using namesWithin_empty.
  - intros c s s' [Hlen H].
    destruct (chain s) as [|a p], (chain s') as [|a' [|b' p']];
      simpl in *; try discriminate.
    + split; [reflexivity | apply namesWithin_refl].
    + split; [congruence | exact H].
  - intros s line. split; [reflexivity | apply namesWithin_refl].
  - intros s. split; [reflexivity | apply namesWithin_refl].
  - intros s name b. split; [symmetry; apply length_in_current|].
    apply globalGrows_in_current. intros c. split; simpl;
      rewrite ?dom_insert_L; set_solver.
  - intros s name f. split; [symmetry; apply length_in_current|].
    apply globalGrows_in_current. intros c. split; simpl;
      rewrite ?dom_insert_L; set_solver.
  - intros s name i b v _ _. split; [symmetry; apply length_alter|].
    apply names_within. symmetry. apply last_alter_names.
    intros c. unfold names. simpl. rewrite dom_alter_L. reflexivity.
Qed.

Lemma keeps_global_statements host fuel body r :
  keeps globalGrowsLevel globalGrows
    (executeStatements (executeStatement host fuel) body r).
Proof.
  apply (keeps_executeStatements global_frame).
  apply (evaluation_frame global_frame host fuel).
Qed.

End GlobalNames.

(** X15: whatever a run returns (diagnostics, a result or a runtime
    error), the global context of the interpreter afterwards binds every
    variable and function name it bound before. *)
Theorem global_names_persist (host : Host) (pfuel efuel : nat) (code : string)
    (this this' : Interpreter) (r : ExecutionResult) :
  execute host pfuel efuel code this = Some (r, this') ->
  dom (variables (globalContext this))
    ⊆ dom (variables (globalContext this'))
  /\ dom (functions (globalContext this))
       ⊆ dom (functions (globalContext this')).
Proof.
  unfold execute.
  destruct (Parser.parse host pfuel code) as [[[body] errors]|]; [|discriminate].
  destruct (0 <? length errors)%nat;
    [intros [= <- <-]; apply namesWithin_refl|].
  destruct (0 <? length _)%nat;
    [intros [= <- <-]; apply namesWithin_refl|].
  unfold executeAST.
  pose proof (keeps_global_statements host efuel body VNull (start this)) as H.
  destruct (executeStatements _ body VNull (start this)) as [v s|msg s|];
    [| |discriminate]; intros [= <- <-]; simpl.
  - destruct H as [Hlen H]. unfold globalGrows, glob in H. simpl in *.
    rewrite (last_default _ _ emptyContext); [exact H|].
    destruct (chain s); [discriminate|congruence].
  - unfold globalGrows, glob in H. simpl in H.
    destruct (chain s) as [|c p] eqn:E; [apply namesWithin_refl|].
    rewrite (last_default _ _ emptyContext); [exact H | discriminate].
Qed.

Lemma global_names_persist_witness :
  exists r this',
    execute silentHost 30 30 "let x: int = 1; y;" constructor = Some (r, this')
    /\ error r = Some "Undefined variable: y"
    /\ dom (variables (globalContext constructor))
         ⊆ dom (variables (globalContext this'))
    /\ dom (functions (globalContext constructor))
         ⊆ dom (functions (globalContext this')).
Proof.
  eexists _, _. split; [reflexivity|]. split; [reflexivity|].
  eapply (global_names_persist silentHost 30 30 "let x: int = 1; y;").
  reflexivity.
Defined.

(** ** Declarations at the top level *)

(** X20: when a run succeeds and the last statement of the program is a
    variable declaration, the global context of the interpreter afterwards
    binds the name with the declared type and mutability, and the type
    check of the next run reads that type for the name. *)
Theorem top_level_declaration_persists (host : Host) (pfuel efuel : nat)
    (code : string) (this this' : Interpreter) (r : ExecutionResult)
    (pre : list stmt) (keyword name : string) (ty : TypeInfo)
    (init : option expr) (mutable : bool) :
  Parser.parse host pfuel code
  = Some (Program (pre ++ [VariableDeclaration keyword name ty init mutable]),
          []) ->
  execute host pfuel efuel code this = Some (r, this') ->
  success r = true ->
  exists v,
    variables (globalContext this') !! name = Some (mkBinding ty v mutable)
    /\ inferType (globalContext this') (Identifier name) = ty.
Proof.
  intros Hparse Hrun Hok. unfold execute in Hrun. rewrite Hparse in Hrun.
  cbn [length Nat.ltb Nat.leb] in Hrun.
  destruct (length (typeCheck _ _)); [|injection Hrun as <- _; discriminate].
  unfold executeAST in Hrun.
  destruct (executeStatements _ _ VNull (start this)) as [v s|msg s|] eqn:He;
    [|injection Hrun as <- _; discriminate|discriminate].
  injection Hrun as _ <-.
  apply executeStatements_last in He as (r1 & s1 & Hpre & Hd).
  pose proof (keeps_global_statements host efuel pre VNull (start this)) as Hk.
  rewrite Hpre in Hk. destruct Hk as [Hlen _]. simpl in Hlen.
  destruct efuel as [|f]; [discriminate|]. simpl in Hd.
  unfold executeVariableDeclaration, bind in Hd.
  assert (Hv : exists val s2,
             match init with
             | Some e => executeExpression host f e
             | None => ret (getDefaultValue ty)
             end s1 = Normal val s2
             /\ length (chain s2) = 1).
  { destruct init as [e|].
    - pose proof (proj2 (evaluation_frame global_frame host f) e s1) as Hk.
      destruct (executeExpression host f e s1) as [val s2| |]; try discriminate.
      destruct Hk as [Hl _]. exists val, s2. split; [reflexivity|congruence].
    - exists (getDefaultValue ty), s1. split; [reflexivity|congruence]. }
  destruct Hv as (val & s2 & Hv & Hl2). rewrite Hv in Hd. simpl in Hd.
  injection Hd as _ <-. simpl.
  destruct (chain s2) as [|c [|c' p]]; try discriminate. simpl.
  exists val. rewrite lookup_insert_eq. split; reflexivity.
Qed.

Lemma top_level_declaration_persists_witness :
  exists r this' v,
    execute silentHost 30 30 "print('a'); const n: int = 1;" constructor
    = Some (r, this')
    /\ variables (globalContext this') !! "n"
       = Some (mkBinding intType v false)
    /\ inferType (globalContext this') (Identifier "n") = intType.
Proof.
  eexists _, _.
  edestruct (top_level_declaration_persists silentHost 30 30
               "print('a'); const n: int = 1;" constructor)
    as (v & Hv); [reflexivity | reflexivity | reflexivity |].
  exists v. split; [reflexivity | exact Hv].
Defined.

(** ** Types as the parser reads them *)

(** X21: on the name of a primitive type, [parseType] returns the
    primitive type of the type system, and on the name followed by [?] the
    nullable type [createNullableType] makes from it. *)
Theorem parseType_primitive (tokens : list string) (fuel pos : nat)
    (T next : string) (t : TypeInfo) :
  HackScriptTypeSystem.getPrimitiveType T = Some t ->
  nth pos tokens "" = T -> nth (S pos) tokens "" = next ->
  String.eqb next "<" = false ->
  Parser.parseType tokens (S fuel) pos
  = if String.eqb next "?"
    then Parser.Ok (HackScriptTypeSystem.createNullableType t) (S (S pos))
    else Parser.Ok t (S pos).
Proof.
  intros Hp HT Hnext Hlt.
  assert (Hcases : In (T, t) HackScriptTypeSystem.primitiveTypes).
  { unfold HackScriptTypeSystem.getPrimitiveType in Hp.
    destruct (List.find _ _) as [[n t']|] eqn:Hf; [|discriminate].
    injection Hp as <-. apply find_some in Hf as [Hin Heq].
    apply String.eqb_eq in Heq. simpl in Heq. subst n. exact Hin. }
  cbn [Parser.parseType].
  unfold Parser.bind, Parser.consume, Parser.currentToken.
  rewrite HT, Hnext, Hlt.
  simpl in Hcases.
  destruct (String.eqb next "?");
    repeat (destruct Hcases as [[= <- <-]|Hcases]; [reflexivity|]);
    destruct Hcases.
Qed.

Lemma parseType_primitive_witness :
  Parser.parseType (Tokenizer.tokenize "let x: float? = y;") 1 3
  = Parser.Ok
      (HackScriptTypeSystem.createNullableType
         (HackScriptTypeSystem.prim "float")) 5.
Proof.
  apply (parseType_primitive (Tokenizer.tokenize "let x: float? = y;") 0 3
           "float" "?" (HackScriptTypeSystem.prim "float"));
    reflexivity.
Defined.

(** ** The line interpreter *)

Section TextFacts.

Lemma trimEnd_length s : String.length (Text.trimEnd s) <= String.length s.
Proof.
  induction s as [|c r IH]; [reflexivity|].
  cbn [Text.trimEnd]. destruct (_ && _); simpl; lia.
Qed.

Lemma trim_length s : String.length (Text.trim s) <= String.length s.
Proof.
  unfold Text.trim, Text.trimStart.
  pose proof (span_length Re.is_space s) as H.
  pose proof (trimEnd_length (snd (Str.span Re.is_space s))). lia.
Qed.

Lemma dropLast_length s : String.length (Text.dropLast s) <= String.length s.
Proof.
  induction s as [|c r IH]; [reflexivity|].
  cbn [Text.dropLast]. destruct r; simpl in *; lia.
Qed.

Lemma slice_length s :
  String.length (Text.slice_1_m1 s) <= String.length s - 1.
Proof.
  unfold Text.slice_1_m1.
  pose proof (dropLast_length (Str.skip 1 s)) as H.
  rewrite skip_length in H. exact H.
Qed.

Lemma push_length s c : String.length (Text.push s c) = S (String.length s).
Proof.
  unfold Text.push. rewrite append_length. simpl. lia.
Qed.

End TextFacts.

Section Termination.

Variable host : Host.
Variable vars : gmap string HackScriptInterpreter.HackScriptValue.

Lemma parseArguments_loop_answers eval s prev args current inQuotes parenCount :
  (forall e, String.length e <= String.length current + String.length s ->
             eval e <> HackScriptInterpreter.NoFuel) ->
  HackScriptInterpreter.parseArguments_loop eval s prev args current inQuotes
    parenCount
  <> HackScriptInterpreter.NoFuel.
Proof.
  revert prev args current inQuotes parenCount.
  induction s as [|c r IH]; intros prev args current inQuotes parenCount He.
  - cbn [HackScriptInterpreter.parseArguments_loop]. destruct (Str.nonempty _); [|discriminate].
    pose proof (He (Text.trim current)) as Hc.
    pose proof (trim_length current).
    destruct (eval (Text.trim current)); simpl; try discriminate.
    exfalso. apply Hc; [simpl; lia | reflexivity].
  - cbn [HackScriptInterpreter.parseArguments_loop].
    assert (Hpush : forall prev args inQuotes parenCount,
               HackScriptInterpreter.parseArguments_loop eval r prev args (Text.push current c)
                 inQuotes parenCount <> HackScriptInterpreter.NoFuel).
    { intros. apply IH. intros e Hle. apply He.
      rewrite push_length in Hle. simpl. lia. }
    repeat (match goal with |- context [if ?b then _ else _] => destruct b end);
      try apply Hpush.
    pose proof (He (Text.trim current)) as Hc.
    pose proof (trim_length current).
    destruct (eval (Text.trim current)) eqn:E; simpl; try discriminate.
    + apply IH. intros e Hle. apply He. simpl in *. lia.
    + exfalso. apply Hc; [simpl; lia | reflexivity].
Qed.

Lemma evaluateExpression_answers fuel expr :
  String.length expr < fuel ->
  HackScriptInterpreter.evaluateExpression host vars fuel expr
  <> HackScriptInterpreter.NoFuel.
Proof.
  revert expr; induction fuel as [|f IH]; intros expr Hlt; [lia|].
  cbn [HackScriptInterpreter.evaluateExpression].
  pose proof (trim_length expr) as Ht.
  set (e := Text.trim expr) in *.
  destruct (_ && _); [discriminate|].
  destruct (HackScriptInterpreter.isNumberLiteral e); [discriminate|].
  destruct (String.eqb e "true"); [discriminate|].
  destruct (String.eqb e "false"); [discriminate|].
  destruct (String.eqb e "null"); [discriminate|].
  destruct (vars !! e); [discriminate|].
  destruct (Str.startsWith "[" e && _) eqn:Harr; [|discriminate].
  pose proof (slice_length e) as Hs.
  assert (He : String.length e <> 0).
  { destruct e; [discriminate|simpl; lia]. }
  destruct (Str.nonempty (Text.slice_1_m1 e)); [|discriminate].
  unfold HackScriptInterpreter.parseArguments.
  destruct (negb _); [discriminate|].
  pose proof (parseArguments_loop_answers (HackScriptInterpreter.evaluateExpression host vars f)
                (Text.slice_1_m1 e) None [] "" false 0) as Hl.
  destruct (HackScriptInterpreter.parseArguments_loop _ _ _ _ _ _ _); simpl; try discriminate.
  exfalso. apply Hl; [|reflexivity]. intros x Hx. apply IH. simpl in Hx. lia.
Qed.

Lemma evaluate_answers expr : HackScriptInterpreter.evaluate host vars expr <> HackScriptInterpreter.NoFuel.
Proof. apply evaluateExpression_answers. lia. Qed.

End Termination.

Section Lines.

Variable host : Host.

Lemma executeLine_answers line this : HackScriptInterpreter.executeLine host line this <> HackScriptInterpreter.NoFuel.
Proof.
  unfold HackScriptInterpreter.executeLine.
  destruct (_ && _).
  { unfold HackScriptInterpreter.executeAssignment.
    destruct (Text.split "=" line) as [|p0 [|p1 [|p2 l]]]; try discriminate.
    pose proof (evaluate_answers host (HackScriptInterpreter.variables this) (Text.trim p1)) as He.
    destruct (HackScriptInterpreter.evaluate _ _ _); simpl; try discriminate. congruence. }
  destruct (_ && _).
  { unfold HackScriptInterpreter.executeFunctionCall.
    destruct (HackScriptInterpreter.matchCall line) as [[funcName argsStr]|]; [|discriminate].
    assert (Ha : (if Str.nonempty argsStr
                  then HackScriptInterpreter.parseArguments (HackScriptInterpreter.evaluate host (HackScriptInterpreter.variables this)) argsStr
                  else HackScriptInterpreter.Value []) <> HackScriptInterpreter.NoFuel).
    { destruct (Str.nonempty argsStr); [|discriminate].
      unfold HackScriptInterpreter.parseArguments. destruct (negb _); [discriminate|].
      apply parseArguments_loop_answers. intros e _. apply evaluate_answers. }
    destruct (if Str.nonempty argsStr then _ else _) as [args| |];
      simpl; try discriminate; [|congruence].
    destruct (String.eqb funcName "print"); [discriminate|].
    destruct (String.eqb funcName "len").
    { destruct args as [|[] [|]]; discriminate. }
    destruct (String.eqb funcName "type"); [|discriminate].
    destruct args as [|? [|]]; discriminate. }
  destruct (Str.startsWith "if " line); [discriminate|].
  destruct (Str.startsWith "for " line); [discriminate|].
  destruct (Str.startsWith "while " line); [discriminate|].
  destruct (Str.startsWith "func " line); [|discriminate].
  unfold HackScriptInterpreter.executeFunctionDefinition.
  destruct (HackScriptInterpreter.matchDefinition line) as [[[]]|]; discriminate.
Qed.

Lemma executeLines_answers lines this :
  exists r, HackScriptInterpreter.executeLines host lines this = Some r.
Proof.
  revert this; induction lines as [|line rest IH]; intros this; simpl; eauto.
  pose proof (executeLine_answers (Text.trim line) this) as Hl.
  destruct (HackScriptInterpreter.executeLine host (Text.trim line) this); eauto. congruence.
Qed.

End Lines.

Section Definitions.

Lemma includes_here needle s :
  Str.startsWith needle s = true -> Text.includes needle s = true.
Proof. intros H. destruct s; simpl; rewrite H; reflexivity. Qed.

Lemma includes_cons needle c s :
  Text.includes needle s = true -> Text.includes needle (String c s) = true.
Proof. intros H. cbn [Text.includes]. rewrite H. apply orb_true_r. Qed.

Lemma includes_app_r needle a b :
  Text.includes needle b = true -> Text.includes needle (a +:+ b) = true.
Proof.
  intros H. induction a as [|c a IH]; [exact H|].
  change (String c a +:+ b) with (String c (a +:+ b)).
  apply includes_cons, IH.
Qed.

Lemma includes_char c b : Text.includes (String c "") (String c b) = true.
Proof. apply includes_here. simpl. rewrite Ascii.eqb_refl. reflexivity. Qed.

Lemma span_stop p s c r : snd (Str.span p s) = String c r -> p c = false.
Proof.
  induction s as [|d s IH]; simpl; [discriminate|].
  destruct (p d) eqn:Hd.
  - destruct (Str.span p s) as [a b]; simpl in *. exact IH.
  - simpl. intros [= -> ->]. exact Hd.
Qed.

Lemma matchDefinition_parentheses line r :
  HackScriptInterpreter.matchDefinition line = Some r ->
  Text.includes "(" line = true /\ Text.includes ")" line = true.
Proof.
  unfold HackScriptInterpreter.matchDefinition.
  destruct (Str.startsWith "func" line) eqn:Hf; [|discriminate].
  pose proof (startsWith_skip _ _ Hf) as Hline.
  change (String.length "func") with 4 in Hline.
  set (l0 := Str.skip 4 line) in *. clearbody l0.
  pose proof (span_app Re.is_space l0) as H1.
  destruct (Str.span Re.is_space l0) as [ws r1]; simpl in H1.
  pose proof (span_app Re.is_word r1) as H2.
  destruct (Str.span Re.is_word r1) as [name r2]; simpl in H2.
  pose proof (span_app Re.is_space r2) as H3. unfold Text.trimStart at 1.
  destruct (snd (Str.span Re.is_space r2)) as [|c3 r4] eqn:E3; [discriminate|].
  pose proof (span_app (fun c => negb (Ascii.eqb c ")")) r4) as H4.
  pose proof (span_stop (fun c => negb (Ascii.eqb c ")")) r4) as H5.
  destruct (Str.span _ r4) as [params r5]; simpl in H4, H5.
  destruct r5 as [|c5 r6]; [discriminate|].
  specialize (H5 _ _ eq_refl). apply negb_false_iff, Ascii.eqb_eq in H5. subst c5.
  destruct (Text.trimStart r6) as [|c7 r8]; [discriminate|].
  destruct (Ascii.eqb_spec c3 "(") as [->|];
    [|rewrite !andb_false_r; simpl; discriminate].
  intros _. rewrite Hline, <- H1, <- H2, <- H3, <- H4.
  split.
  - apply includes_app_r with (a := "func"), includes_app_r, includes_app_r,
      includes_app_r, includes_char.
  - apply includes_app_r with (a := "func"), includes_app_r, includes_app_r,
      includes_app_r, includes_cons, includes_app_r, includes_char.
Qed.

End Definitions.

Section LineFunctions.

Variable host : Host.

Lemma executeLine_functions line this this' :
  HackScriptInterpreter.executeLine host line this = HackScriptInterpreter.Value this' ->
  HackScriptInterpreter.functions this' = HackScriptInterpreter.functions this.
Proof.
  unfold HackScriptInterpreter.executeLine.
  destruct (_ && _).
  { unfold HackScriptInterpreter.executeAssignment.
    destruct (Text.split "=" line) as [|p0 [|p1 [|p2 l]]]; try discriminate.
    destruct (HackScriptInterpreter.evaluate _ _ _); simpl; try discriminate.
    intros [= <-]. reflexivity. }
  destruct (Text.includes "(" line && Text.includes ")" line) eqn:Hp.
  { unfold HackScriptInterpreter.executeFunctionCall.
    destruct (HackScriptInterpreter.matchCall line) as [[funcName argsStr]|]; [|discriminate].
    destruct (if Str.nonempty argsStr then _ else _) as [args| |];
      simpl; try discriminate.
    destruct (String.eqb funcName "print"); [intros [= <-]; reflexivity|].
    destruct (String.eqb funcName "len").
    { destruct args as [|[] [|]]; try discriminate; intros [= <-]; reflexivity. }
    destruct (String.eqb funcName "type"); [|discriminate].
    destruct args as [|? [|]]; try discriminate; intros [= <-]; reflexivity. }
  destruct (Str.startsWith "if " line); [discriminate|].
  destruct (Str.startsWith "for " line); [discriminate|].
  destruct (Str.startsWith "while " line); [discriminate|].
  destruct (Str.startsWith "func " line); [|discriminate].
  unfold HackScriptInterpreter.executeFunctionDefinition.
  destruct (HackScriptInterpreter.matchDefinition line) as [r|] eqn:Hm; [|discriminate].
  apply matchDefinition_parentheses in Hm as [H1 H2].
  rewrite H1, H2 in Hp. discriminate.
Qed.

Lemma executeLines_functions lines this e this' :
  HackScriptInterpreter.executeLines host lines this = Some (e, this') ->
  HackScriptInterpreter.functions this' = HackScriptInterpreter.functions this.
Proof.
  revert this; induction lines as [|line rest IH]; intros this; simpl.
  - intros [= <- <-]. reflexivity.
  - destruct (HackScriptInterpreter.executeLine host (Text.trim line) this) as [t|msg|] eqn:El;
      [|intros [= <- <-]; reflexivity|discriminate].
    intros Hr. rewrite (IH _ Hr). eapply executeLine_functions; eauto.
Qed.

End LineFunctions.

(** X16: the line interpreter tries the call pattern on every line that
    holds both parentheses before it looks for [func], and the definition
    pattern needs both parentheses: no line ever reaches a definition that
    matches.  Every run returns, and leaves the function table as it was. *)
Theorem no_function_is_ever_defined (host : Host) (code : string)
    (this : HackScriptInterpreter.Interpreter) :
  exists r this',
    HackScriptInterpreter.execute host code this = Some (r, this')
    /\ HackScriptInterpreter.functions this'
       = HackScriptInterpreter.functions this.
Proof.
  unfold HackScriptInterpreter.execute.
  destruct (executeLines_answers host
              (List.filter HackScriptInterpreter.isStatement (Text.split (ascii_of_nat 10) code))
              (HackScriptInterpreter.mkInterpreter (HackScriptInterpreter.variables this) (HackScriptInterpreter.functions this) []))
    as [[e this'] Hr].
  rewrite Hr. apply executeLines_functions in Hr. simpl in Hr.
  destruct e; eauto.
Qed.

Section Composition.

Variable host : Host.

Lemma split_nonempty sep s : Text.split sep s <> [].
Proof.
  destruct s as [|c r]; simpl; [discriminate|].
  destruct (Ascii.eqb c sep); [discriminate|].
  destruct (Text.split sep r); discriminate.
Qed.

Lemma split_app sep a b :
  Text.split sep (a +:+ String sep b) = Text.split sep a ++ Text.split sep b.
Proof.
  induction a as [|c a IH].
  - change ("" +:+ String sep b) with (String sep b). simpl.
    rewrite Ascii.eqb_refl. reflexivity.
  - change (String c a +:+ String sep b) with (String c (a +:+ String sep b)).
    cbn [Text.split]. rewrite IH.
    destruct (Ascii.eqb c sep); [reflexivity|].
    pose proof (split_nonempty sep a).
    destruct (Text.split sep a); [congruence|reflexivity].
Qed.

Lemma executeLine_output line v f o :
  HackScriptInterpreter.executeLine host line (HackScriptInterpreter.mkInterpreter v f o)
  = match HackScriptInterpreter.executeLine host line (HackScriptInterpreter.mkInterpreter v f []) with
    | HackScriptInterpreter.Value t => HackScriptInterpreter.Value (withOutput (o ++ HackScriptInterpreter.output t) t)
    | HackScriptInterpreter.Error msg => HackScriptInterpreter.Error msg
    | HackScriptInterpreter.NoFuel => HackScriptInterpreter.NoFuel
    end.
Proof.
  unfold HackScriptInterpreter.executeLine, withOutput.
  destruct (_ && _).
  { unfold HackScriptInterpreter.executeAssignment.
    destruct (Text.split "=" line) as [|p0 [|p1 [|p2 l]]]; try reflexivity.
    simpl. destruct (HackScriptInterpreter.evaluate _ _ _); simpl; try reflexivity.
    rewrite app_nil_r. reflexivity. }
  destruct (_ && _).
  { unfold HackScriptInterpreter.executeFunctionCall.
    destruct (HackScriptInterpreter.matchCall line) as [[funcName argsStr]|]; [|reflexivity].
    simpl.
    destruct (if Str.nonempty argsStr then _ else _) as [args| |];
      simpl; try reflexivity.
    destruct (String.eqb funcName "print"); [reflexivity|].
    destruct (String.eqb funcName "len").
    { destruct args as [|[] [|]]; simpl; rewrite ?app_nil_r; reflexivity. }
    destruct (String.eqb funcName "type"); [|reflexivity].
    destruct args as [|? [|]]; simpl; rewrite ?app_nil_r; reflexivity. }
  destruct (Str.startsWith "if " line); [reflexivity|].
  destruct (Str.startsWith "for " line); [reflexivity|].
  destruct (Str.startsWith "while " line); [reflexivity|].
  destruct (Str.startsWith "func " line); [|reflexivity].
  unfold HackScriptInterpreter.executeFunctionDefinition.
  destruct (HackScriptInterpreter.matchDefinition line) as [[[]]|]; simpl; rewrite ?app_nil_r;
    reflexivity.
Qed.

Lemma executeLines_output lines v f o :
  HackScriptInterpreter.executeLines host lines (HackScriptInterpreter.mkInterpreter v f o)
  = match HackScriptInterpreter.executeLines host lines (HackScriptInterpreter.mkInterpreter v f []) with
    | Some (e, t) => Some (e, withOutput (o ++ HackScriptInterpreter.output t) t)
    | None => None
    end.
Proof.
  revert v f o; induction lines as [|line rest IH]; intros v f o.
  - simpl. unfold withOutput. simpl. rewrite app_nil_r. reflexivity.
  - cbn [HackScriptInterpreter.executeLines]. rewrite executeLine_output.
    destruct (HackScriptInterpreter.executeLine host (Text.trim line) (HackScriptInterpreter.mkInterpreter v f []))
      as [[v1 f1 o1]|msg|]; try reflexivity.
    + unfold withOutput at 1. simpl. rewrite (IH v1 f1 (o ++ o1)), (IH v1 f1 o1).
      destruct (HackScriptInterpreter.executeLines host rest (HackScriptInterpreter.mkInterpreter v1 f1 [])) as [[e t]|];
        [|reflexivity].
      unfold withOutput. simpl. rewrite app_assoc. reflexivity.
    + unfold withOutput. simpl. rewrite app_nil_r. reflexivity.
Qed.

Lemma executeLines_app l1 l2 this :
  HackScriptInterpreter.executeLines host (l1 ++ l2) this
  = match HackScriptInterpreter.executeLines host l1 this with
    | Some (None, t) => HackScriptInterpreter.executeLines host l2 t
    | r => r
    end.
Proof.
  revert this; induction l1 as [|line rest IH]; intros this; simpl;
    [reflexivity|].
  destruct (HackScriptInterpreter.executeLine host (Text.trim line) this); auto.
Qed.

End Composition.

(** X17: running two texts joined by a line feed is running the first
    and, when it succeeds, the second on the interpreter the first left;
    the output is the two outputs, one after the other. *)
Theorem execute_joined_lines (host : Host) (a b : string)
    (this : HackScriptInterpreter.Interpreter) :
  HackScriptInterpreter.execute host (joinLines a b) this
  = match HackScriptInterpreter.execute host a this with
    | Some (r1, this1) =>
        if HackScriptInterpreter.success r1 then
          match HackScriptInterpreter.execute host b this1 with
          | Some (r2, this2) =>
              Some (HackScriptInterpreter.mkResult
                      (HackScriptInterpreter.success r2)
                      (HackScriptInterpreter.error r2)
                      (HackScriptInterpreter.result_output r1
                       ++ HackScriptInterpreter.result_output r2),
                    withOutput
                      (HackScriptInterpreter.output this1
                       ++ HackScriptInterpreter.output this2) this2)
          | None => None
          end
        else Some (r1, this1)
    | None => None
    end.
Proof.
  unfold HackScriptInterpreter.execute, joinLines, LF.
  rewrite split_app, List.filter_app, executeLines_app.
  destruct (HackScriptInterpreter.executeLines host (List.filter HackScriptInterpreter.isStatement (Text.split _ a)) _)
    as [[[msg|] [v1 f1 o1]]|]; try reflexivity.
  simpl. rewrite executeLines_output.
  destruct (HackScriptInterpreter.executeLines host _ (HackScriptInterpreter.mkInterpreter v1 f1 [])) as [[[msg|] t]|];
    reflexivity.
Qed.

Section Skipped.

Lemma split_none sep s : Str.includes sep s = false -> Text.split sep s = [s].
Proof.
  induction s as [|c r IH]; [reflexivity|].
  cbn [Str.includes Text.split]. intros H. apply orb_false_iff in H as [Hc Hr].
  rewrite Ascii.eqb_sym in Hc. rewrite Hc, (IH Hr). reflexivity.
Qed.

Lemma span_all_space s :
  Str.all Re.is_space s = true -> Str.span Re.is_space s = (s, "").
Proof.
  induction s as [|c r IH]; [reflexivity|].
  cbn [Str.all Str.span]. intros H. apply andb_true_iff in H as [Hc Hr].
  rewrite Hc, (IH Hr). reflexivity.
Qed.

Lemma isCommentOrBlank_isStatement line :
  isCommentOrBlank line = true -> HackScriptInterpreter.isStatement line = false.
Proof.
  unfold isCommentOrBlank, HackScriptInterpreter.isStatement, Text.trim, Text.trimStart.
  intros H. apply orb_true_iff in H as [H|H].
  - rewrite (span_all_space _ H). reflexivity.
  - unfold Text.trimStart in H.
    destruct (snd (Str.span Re.is_space line)) as [|c1 [|c2 r]];
      cbn [Str.startsWith] in H; rewrite ?andb_false_r in H;
      try discriminate.
    apply andb_true_iff in H as [H1 H]. apply andb_true_iff in H as [H2 _].
    apply Ascii.eqb_eq in H1, H2. subst c1 c2.
    cbn [Text.trimEnd]. change (Re.is_space "/") with false. reflexivity.
Qed.

End Skipped.

(** X18: a line of spaces and a line that starts with [//] are dropped
    before anything runs: a text gives the same result and the same
    interpreter with the line as without it. *)
Theorem skipped_lines (host : Host) (a line b : string)
    (this : HackScriptInterpreter.Interpreter) :
  Str.includes LF line = false -> isCommentOrBlank line = true ->
  HackScriptInterpreter.execute host (joinLines a (joinLines line b)) this
  = HackScriptInterpreter.execute host (joinLines a b) this.
Proof.
  intros Hlf Hc. unfold HackScriptInterpreter.execute, joinLines, LF in *.
  rewrite !split_app, (split_none _ _ Hlf), !List.filter_app.
  cbn [List.filter]. rewrite (isCommentOrBlank_isStatement _ Hc). reflexivity.
Qed.

Lemma skipped_lines_witness :
  HackScriptInterpreter.execute silentHost
    (joinLines "x = 1" (joinLines "  // x = 2" "print(x)"))
    HackScriptInterpreter.constructor
  = HackScriptInterpreter.execute silentHost (joinLines "x = 1" "print(x)")
      HackScriptInterpreter.constructor.
Proof.
  apply (skipped_lines silentHost "x = 1" "  // x = 2" "print(x)"
           HackScriptInterpreter.constructor);
    reflexivity.
Defined.

Section PrintLiteral.

Variable host : Host.

Lemma trimEnd_last a c :
  Re.is_space c = false ->
  Text.trimEnd (a +:+ String c "") = a +:+ String c "".
Proof.
  intros Hc. induction a as [|d a IH].
  - change ("" +:+ String c "") with (String c ""). cbn [Text.trimEnd].
    rewrite Hc. reflexivity.
  - change (String d a +:+ String c "") with (String d (a +:+ String c "")).
    cbn [Text.trimEnd]. rewrite IH.
    replace (Str.nonempty (a +:+ String c "")) with true
      by (destruct a; reflexivity).
    rewrite andb_false_r. reflexivity.
Qed.

Lemma endsWith_last a c : Text.endsWith c (a +:+ String c "") = true.
Proof.
  induction a as [|d a IH].
  - change ("" +:+ String c "") with (String c ""). simpl.
    apply Ascii.eqb_refl.
  - change (String d a +:+ String c "") with (String d (a +:+ String c "")).
    cbn [Text.endsWith]. rewrite IH. destruct a; reflexivity.
Qed.

Lemma dropLast_last a c : Text.dropLast (a +:+ String c "") = a.
Proof.
  induction a as [|d a IH]; [reflexivity|].
  change (String d a +:+ String c "") with (String d (a +:+ String c "")).
  cbn [Text.dropLast]. rewrite IH. destruct a; reflexivity.
Qed.

Lemma all_app p a b :
  Str.all p (a +:+ b) = Str.all p a && Str.all p b.
Proof.
  induction a as [|c a IH]; [reflexivity|].
  change (String c a +:+ b) with (String c (a +:+ b)).
  cbn [Str.all]. rewrite IH, andb_assoc. reflexivity.
Qed.

Lemma includes_char_app c a b :
  Str.includes c (a +:+ b) = Str.includes c a || Str.includes c b.
Proof.
  induction a as [|d a IH]; [reflexivity|].
  change (String d a +:+ b) with (String d (a +:+ b)).
  cbn [Str.includes]. rewrite IH, orb_assoc. reflexivity.
Qed.

Lemma includes_one c s :
  Text.includes (String c "") s = Str.includes c s.
Proof.
  induction s as [|d s IH]; [reflexivity|].
  cbn [Text.includes Str.includes Str.startsWith]. rewrite IH, andb_true_r.
  reflexivity.
Qed.

Lemma push_app cur c rest :
  Text.push cur c +:+ rest = cur +:+ String c rest.
Proof. unfold Text.push. rewrite append_assoc. reflexivity. Qed.

(** Inside quotes nothing splits the text. *)
Lemma parseArguments_loop_quoted eval text prev args current parenCount :
  Str.includes (ascii_of_nat 34) text = false ->
  HackScriptInterpreter.parseArguments_loop eval (text +:+ Str.dquote) prev args current true
    parenCount
  = HackScriptInterpreter.parseArguments_loop eval "" None args
      (current +:+ text +:+ Str.dquote) false 0.
Proof.
  revert prev current. induction text as [|c r IH]; intros prev current Hq.
  - change ("" +:+ Str.dquote) with (String (ascii_of_nat 34) "").
    cbn [HackScriptInterpreter.parseArguments_loop]. rewrite Ascii.eqb_refl.
    change (current +:+ "" +:+ Str.dquote)
      with (Text.push current (ascii_of_nat 34)).
    destruct (match prev with Some p => _ | None => true end); reflexivity.
  - cbn [Str.includes] in Hq. apply orb_false_iff in Hq as [Hc Hr].
    rewrite Ascii.eqb_sym in Hc.
    change (String c r +:+ Str.dquote) with (String c (r +:+ Str.dquote)).
    cbn [HackScriptInterpreter.parseArguments_loop]. rewrite Hc. cbn [andb negb].
    rewrite !andb_false_r. rewrite (IH _ _ Hr).
    rewrite <- (push_app current c). reflexivity.
Qed.

End PrintLiteral.

Section PrintLine.

Variable host : Host.
Variable text : string.
Hypothesis Hquote : Str.includes (ascii_of_nat 34) text = false.
Hypothesis Hequals : Str.includes "=" text = false.
Hypothesis Hline : noLineTerminator text = true.

Lemma all_not_includes p s c :
  Str.all p s = true -> p c = false -> Str.includes c s = false.
Proof.
  intros Hs Hc. induction s as [|d s IH]; [reflexivity|].
  cbn [Str.all Str.includes] in *. apply andb_true_iff in Hs as [Hd Hs].
  rewrite (IH Hs), orb_false_r.
  destruct (Ascii.eqb_spec c d) as [->|]; [congruence|reflexivity].
Qed.

Lemma body_last : (quoted text) = (Str.dquote +:+ text) +:+ Str.dquote.
Proof. unfold quoted. rewrite append_assoc. reflexivity. Qed.

Lemma trim_body : Text.trim (quoted text) = quoted text.
Proof.
  unfold Text.trim, Text.trimStart.
  change (quoted text) with (String (ascii_of_nat 34) (text +:+ Str.dquote)).
  cbn [Str.span]. change (Re.is_space (ascii_of_nat 34)) with false.
  cbn [snd].
  change (String (ascii_of_nat 34) (text +:+ Str.dquote)) with (quoted text).
  rewrite body_last. apply trimEnd_last. reflexivity.
Qed.

Lemma evaluate_body vars :
  HackScriptInterpreter.evaluate host vars (quoted text)
  = HackScriptInterpreter.Value (HackScriptInterpreter.HString text).
Proof.
  unfold HackScriptInterpreter.evaluate. cbn [HackScriptInterpreter.evaluateExpression]. rewrite trim_body.
  replace (Str.startsWith Str.dquote (quoted text)) with true
    by reflexivity.
  rewrite body_last at 1. unfold Str.dquote at 2. rewrite endsWith_last.
  cbn [andb]. do 2 f_equal. unfold Text.slice_1_m1.
  change (Str.skip 1 (quoted text)) with (text +:+ String (ascii_of_nat 34) "").
  apply dropLast_last.
Qed.

Lemma parseArguments_body vars :
  HackScriptInterpreter.parseArguments
    (HackScriptInterpreter.evaluate host vars) (quoted text)
  = HackScriptInterpreter.Value [HackScriptInterpreter.HString text].
Proof.
  unfold HackScriptInterpreter.parseArguments. rewrite trim_body.
  replace (Str.nonempty (quoted text)) with true by reflexivity. cbn [negb].
  change (quoted text) with (String (ascii_of_nat 34) (text +:+ Str.dquote)) at 1.
  cbn [HackScriptInterpreter.parseArguments_loop]. rewrite Ascii.eqb_refl. cbn [andb negb].
  rewrite (parseArguments_loop_quoted _ _ _ _ _ _ Hquote).
  change (Text.push "" (ascii_of_nat 34) +:+ text +:+ Str.dquote) with (quoted text).
  cbn [HackScriptInterpreter.parseArguments_loop]. rewrite trim_body.
  replace (Str.nonempty (quoted text)) with true by reflexivity.
  rewrite evaluate_body. reflexivity.
Qed.

Lemma printLine_shape :
  printLine text = "print(" +:+ (quoted text) +:+ String ")" "".
Proof. reflexivity. Qed.

Lemma printLine_last :
  printLine text = ("print(" +:+ (quoted text)) +:+ String ")" "".
Proof. rewrite printLine_shape, append_assoc. reflexivity. Qed.

Lemma body_no_terminator : noLineTerminator (quoted text) = true.
Proof.
  unfold noLineTerminator, quoted in *. rewrite !all_app, Hline. reflexivity.
Qed.

Lemma matchCall_printLine :
  HackScriptInterpreter.matchCall (printLine text)
  = Some ("print", quoted text).
Proof.
  unfold HackScriptInterpreter.matchCall. rewrite printLine_shape.
  change ("print(" +:+ (quoted text) +:+ String ")" "")
    with (String "p" (String "r" (String "i" (String "n" (String "t"
            (String "(" ((quoted text) +:+ String ")" ""))))))).
  cbn [Str.span].
  change (Re.is_word "p") with true. change (Re.is_word "r") with true.
  change (Re.is_word "i") with true. change (Re.is_word "n") with true.
  change (Re.is_word "t") with true. change (Re.is_word "(") with false.
  cbn [Str.nonempty]. rewrite Ascii.eqb_refl, endsWith_last, dropLast_last.
  fold (noLineTerminator (quoted text)). rewrite body_no_terminator. reflexivity.
Qed.

Lemma executeLine_printLine this :
  HackScriptInterpreter.executeLine host (printLine text) this
  = HackScriptInterpreter.Value (withOutput (HackScriptInterpreter.output this ++ [text]) this).
Proof.
  unfold HackScriptInterpreter.executeLine.
  assert (He : Text.includes "=" (printLine text) = false).
  { rewrite includes_one. unfold printLine, quoted.
    rewrite !includes_char_app, Hequals. reflexivity. }
  rewrite He. cbn [andb].
  assert (Ho : Text.includes "(" (printLine text) = true).
  { rewrite includes_one. unfold printLine. rewrite includes_char_app.
    reflexivity. }
  assert (Hc : Text.includes ")" (printLine text) = true).
  { rewrite printLine_last. apply includes_app_r, includes_char. }
  rewrite Ho, Hc. cbn [andb].
  unfold HackScriptInterpreter.executeFunctionCall. rewrite matchCall_printLine.
  replace (Str.nonempty (quoted text)) with true by reflexivity.
  rewrite parseArguments_body. reflexivity.
Qed.

End PrintLine.

(** X19: [print] of a double-quoted text with no double quote, no [=] and
    no line terminator in it prints the text as it is written, spaces,
    commas and parentheses included. *)
Theorem print_string_literal (host : Host) (text : string)
    (this : HackScriptInterpreter.Interpreter) :
  Str.includes (ascii_of_nat 34) text = false ->
  Str.includes "=" text = false ->
  noLineTerminator text = true ->
  HackScriptInterpreter.execute host (printLine text) this
  = Some (HackScriptInterpreter.mkResult true None [text],
          withOutput [text] this).
Proof.
  intros Hq He Hl. unfold HackScriptInterpreter.execute.
  assert (Hlf : Str.includes (ascii_of_nat 10) (printLine text) = false).
  { unfold printLine, quoted. rewrite !includes_char_app.
    rewrite (all_not_includes _ _ (ascii_of_nat 10) Hl eq_refl). reflexivity. }
  rewrite (split_none _ _ Hlf). cbn [List.filter].
  assert (Ht : Text.trim (printLine text) = printLine text).
  { unfold Text.trim, Text.trimStart. rewrite printLine_last.
    change (("print(" +:+ quoted text) +:+ String ")" "")
      with (String "p" (("rint(" +:+ quoted text) +:+ String ")" "")).
    cbn [Str.span]. change (Re.is_space "p") with false. cbn [snd].
    change (String "p" (("rint(" +:+ quoted text) +:+ String ")" ""))
      with (("print(" +:+ quoted text) +:+ String ")" "").
    apply trimEnd_last. reflexivity. }
  assert (Hs : HackScriptInterpreter.isStatement (printLine text) = true).
  { unfold HackScriptInterpreter.isStatement. rewrite Ht. reflexivity. }
  rewrite Hs. cbn [HackScriptInterpreter.executeLines]. rewrite Ht.
  rewrite (executeLine_printLine host text Hq He Hl). reflexivity.
Qed.

Lemma print_string_literal_witness :
  HackScriptInterpreter.execute silentHost (printLine "a, (b) and  c") HackScriptInterpreter.constructor
  = Some (HackScriptInterpreter.mkResult true None ["a, (b) and  c"],
          withOutput ["a, (b) and  c"] HackScriptInterpreter.constructor).
Proof.
  apply (print_string_literal silentHost "a, (b) and  c" HackScriptInterpreter.constructor);
    reflexivity.
Defined.

(** ** The bounded call stack *)

(** Whatever the evaluator answers within some fuel, it answers on a stack
    that deep and with that many passes allowed to a loop. *)
Lemma evaluation_within (host : Host) (efuel depth fuel : nat) :
  efuel <= depth -> efuel <= fuel ->
  (forall st,
     below (executeStatement host efuel st)
       (executeStatementWithin host depth fuel st))
  /\ (forall e,
        below (executeExpression host efuel e)
          (executeExpressionWithin host depth fuel e)).
Proof.
  revert depth. induction efuel as [|f IH]; intros depth Hd Hn.
  - split; intros; apply below_diverge.
  - destruct depth as [|d]; [lia|].
    destruct (IH d ltac:(lia) ltac:(lia)) as [IHS IHE]. split; intros; simpl.
    + apply below_executeStatement_body; [assumption|assumption|lia].
    + apply below_executeExpression_body; assumption.
Qed.



Section StackSteps.

Context {A B : Type}.

Lemma deeper_refl (m : E A) : deeper m m.
Proof. intros s. right. reflexivity. Qed.

Lemma deeper_overflow (m : E A) : deeper (throw stackOverflow) m.
Proof. intros s. left. eexists. reflexivity. Qed.

Lemma deeper_bind (m m' : E A) (k k' : A -> E B) :
  deeper m m' -> (forall a, deeper (k a) (k' a)) ->
  deeper (bind m k) (bind m' k').
Proof.
  intros Hm Hk s. unfold bind.
  destruct (Hm s) as [[s1 ->]| <-]; [left; eexists; reflexivity|].
  destruct (m s) as [a s1|msg s1|];
    [apply Hk | right; reflexivity | right; reflexivity].
Qed.

End StackSteps.

Create HintDb stack.

#[local] Hint Resolve deeper_refl deeper_overflow : stack.

Ltac stack_step :=
  match goal with
  | |- deeper (bind _ _) (bind _ _) => apply deeper_bind; [|intros ?]
  | |- deeper (if ?b then _ else _) _ => destruct b
  | |- deeper (match ?x with _ => _ end) _ => destruct x
  end.

Ltac stack_tac := repeat stack_step; auto with stack.

Section KnotStack.

Variable host : Host.
Variables execS execS' : stmt -> E value.
Variables execE execE' : expr -> E value.
Hypothesis HS : forall st, deeper (execS st) (execS' st).
Hypothesis HE : forall e, deeper (execE e) (execE' e).

Lemma deeper_executeStatements body r :
  deeper (executeStatements execS body r) (executeStatements execS' body r).
Proof. revert r; induction body; intros r; simpl; stack_tac. Qed.

Lemma deeper_executeExpressions es :
  deeper (executeExpressions execE es) (executeExpressions execE' es).
Proof. induction es; simpl; stack_tac. Qed.

Lemma deeper_executeProperties properties obj :
  deeper (executeProperties host execE properties obj)
    (executeProperties host execE' properties obj).
Proof.
  revert obj; induction properties as [|[key e] rest IH]; intros obj; simpl;
    stack_tac.
Qed.

Lemma deeper_bindParameters params args vars :
  deeper (bindParameters execE params args vars)
    (bindParameters execE' params args vars).
Proof. revert args vars; induction params; intros args vars; simpl; stack_tac. Qed.

Lemma deeper_for_loop n condition update body r :
  deeper (for_loop execS execE n condition update body r)
    (for_loop execS' execE' n condition update body r).
Proof. revert r; induction n; intros r; simpl; stack_tac. Qed.

Lemma deeper_while_loop n condition body r :
  deeper (while_loop execS execE n condition body r)
    (while_loop execS' execE' n condition body r).
Proof. revert r; induction n; intros r; simpl; stack_tac. Qed.

Hint Resolve deeper_executeStatements deeper_executeExpressions
  deeper_executeProperties deeper_bindParameters deeper_for_loop
  deeper_while_loop : stack.

Lemma deeper_executeStatement_body n st :
  deeper (executeStatement_body execS execE n st)
    (executeStatement_body execS' execE' n st).
Proof.
  destruct st; simpl;
    unfold executeVariableDeclaration, executeFunctionDeclaration,
      executeIfStatement, executeForStatement, executeWhileStatement,
      executeReturnStatement, executeBlockStatement;
    stack_tac.
Qed.

Lemma deeper_executeExpression_body e :
  deeper (executeExpression_body host execS execE e)
    (executeExpression_body host execS' execE' e).
Proof.
  destruct e; simpl;
    unfold executeBinaryExpression, executeUnaryExpression,
      executeAssignmentExpression, executeFunctionCall, executeUserFunction,
      executeArrayAccess, executePropertyAccess;
    stack_tac.
Qed.

End KnotStack.

Lemma evaluation_deeper (host : Host) (depth depth' fuel : nat) :
  depth <= depth' ->
  (forall st,
     deeper (executeStatementWithin host depth fuel st)
       (executeStatementWithin host depth' fuel st))
  /\ (forall e,
        deeper (executeExpressionWithin host depth fuel e)
          (executeExpressionWithin host depth' fuel e)).
Proof.
  revert depth'. induction depth as [|d IH]; intros depth' Hle.
  - split; intros; apply deeper_overflow.
  - destruct depth' as [|d']; [lia|].
    destruct (IH d' ltac:(lia)) as [IHS IHE]. split; intros; simpl.
    + apply deeper_executeStatement_body; assumption.
    + apply deeper_executeExpression_body; assumption.
Qed.



(** *** The function with the early return, on a bounded stack *)

Section EarlyReturnOverflow.

Variable host : Host.
Variable fuel : nat.

Lemma overflows_bind {A B} (m : E A) (k : A -> E B) s :
  overflows (m s) -> overflows (bind m k s).
Proof. intros [s' H]. unfold bind. rewrite H. eexists. reflexivity. Qed.

Lemma earlyReturn_if_within d s x :
  executeStatementWithin host (S (S (S (S d)))) fuel
    (IfStatement (BinaryExpression "<=" (Identifier "n") (NumberLiteral 1 "int"))
       (BlockStatement [ReturnStatement (Some (NumberLiteral 1 "int"))]) None)
    (inBlock (callee x s))
  = Normal (if PrimFloat.leb x 1 then VNumber 1 else VNull) (inBlock (callee x s)).
Proof. vm_compute. destruct (PrimFloat.leb x 1); reflexivity. Qed.

Lemma earlyReturn_n_within d s x :
  executeExpressionWithin host (S d) fuel (Identifier "n") (inBlock (callee x s))
  = Normal (VNumber x) (inBlock (callee x s)).
Proof. vm_compute. reflexivity. Qed.

Lemma earlyReturn_argument_within d s x :
  executeExpressionWithin host (S (S d)) fuel
    (BinaryExpression "-" (Identifier "n") (NumberLiteral 1 "int"))
    (inBlock (callee x s))
  = Normal (VNumber (PrimFloat.sub x 1)) (inBlock (callee x s)).
Proof. vm_compute. reflexivity. Qed.

Lemma recursive_call_overflows depth s x :
  bodyOverflows host fuel depth -> knowsF s ->
  overflows
    (executeExpressionWithin host (S depth) fuel
       (FunctionCall (Identifier "f")
          [BinaryExpression "-" (Identifier "n") (NumberLiteral 1 "int")])
       (inBlock (callee x s))).
Proof.
  intros IH Hf.
  cbn [executeExpressionWithin executeExpression_body].
  unfold executeFunctionCall. cbn [executeExpressions].
  destruct (proj2 (evaluation_deeper host depth (2 + depth) fuel ltac:(lia))
              (BinaryExpression "-" (Identifier "n") (NumberLiteral 1 "int"))
              (inBlock (callee x s))) as [Hover| Heq].
  { apply overflows_bind, overflows_bind. exact Hover. }
  unfold bind at 1. unfold bind at 1. rewrite Heq.
  simpl plus. rewrite earlyReturn_argument_within. cbn [ret bind gets].
  pose proof (knowsF_inner s x Hf) as Hin. unfold knowsF in Hin. rewrite Hin.
  unfold earlyReturnFunction, executeUserFunction.
  cbn [bindParameters param_defaultValue param_name param_type tail bind ret
       enter modify].
  change (with_chain _ (inBlock (callee x s)))
    with (callee (PrimFloat.sub x 1) (inBlock (callee x s))).
  apply overflows_bind. apply IH. apply knowsF_inner. exact Hf.
Qed.

Lemma earlyReturn_body_overflows depth : bodyOverflows host fuel depth.
Proof.
  induction depth as [depth IH] using lt_wf_ind. intros s x Hf.
  destruct depth as [|d1]; [eexists; reflexivity|].
  cbn [executeStatementWithin executeStatement_body earlyReturnBody].
  unfold executeBlockStatement. unfold bind at 1. unfold enter, modify.
  change (with_chain (cons emptyContext) (callee x s)) with (inBlock (callee x s)).
  apply overflows_bind.
  cbn [executeStatements].
  destruct (proj1 (evaluation_deeper host d1 (4 + d1) fuel ltac:(lia))
              (IfStatement
                 (BinaryExpression "<=" (Identifier "n") (NumberLiteral 1 "int"))
                 (BlockStatement [ReturnStatement (Some (NumberLiteral 1 "int"))])
                 None)
              (inBlock (callee x s))) as [Hover| Heq].
  { apply overflows_bind. exact Hover. }
  unfold bind at 1. rewrite Heq.
  simpl plus. rewrite earlyReturn_if_within.
  apply overflows_bind.
  destruct d1 as [|d2]; [eexists; reflexivity|].
  cbn [executeStatementWithin executeStatement_body executeReturnStatement].
  destruct d2 as [|d3]; [eexists; reflexivity|].
  cbn [executeExpressionWithin executeExpression_body].
  unfold executeBinaryExpression.
  destruct d3 as [|d4]; [eexists; reflexivity|].
  unfold bind at 1.
  rewrite earlyReturn_n_within.
  apply overflows_bind.
  apply recursive_call_overflows; [|exact Hf].
  apply IH. lia.
Qed.

Lemma first_call_overflows depth s v :
  knowsF s ->
  overflows
    (executeStatementWithin host depth fuel
       (ExpressionStatement (FunctionCall (Identifier "f") [NumberLiteral v "int"]))
       s).
Proof.
  intros Hknows.
  destruct depth as [|e1]; [eexists; reflexivity|].
  destruct e1 as [|e2]; [eexists; reflexivity|].
  change (overflows
            (executeFunctionCall host (executeStatementWithin host e2 fuel)
               (executeExpressionWithin host e2 fuel) (Identifier "f")
               [NumberLiteral v "int"] s)).
  unfold executeFunctionCall. cbn [executeExpressions].
  destruct e2 as [|e3]; [eexists; reflexivity|].
  change (executeExpressionWithin host (S e3) fuel (NumberLiteral v "int"))
    with (@ret value (VNumber v)).
  cbn [bind ret gets]. unfold knowsF in Hknows. rewrite Hknows.
  unfold earlyReturnFunction, executeUserFunction.
  cbn [bindParameters param_defaultValue param_name param_type tail bind ret
       enter modify].
  apply overflows_bind.
  exact (earlyReturn_body_overflows (S e3) s v Hknows).
Qed.

End EarlyReturnOverflow.

